(** * crony: cron-schedule evaluation, crontab parsing and the entry supervisor

    A shallow embedding of the Go sources

      - vendor/github.com/kevinwallace/crontab/crontab.go  (fields, range and
        list specs, [Schedule.dayMatches], [Schedule.Next]),
      - the crontab parser ([parseRangeSpec], [parseListSpec],
        [ParseSchedule], [ParseEntry], [ParseCrontab]),
      - crony.go ([executeCrontab], [executeEntry]),
      - git.go ([workdir.pull], [workdir.Push]),

    together with the part of Go's [time] package these functions call.

    Integers are unbounded ([Z]); instants are counted in nanoseconds.
    A location is its table of zone transitions, as [time.Date] and the
    accessors of [time.Time] consult it.  Go's unbounded [for] loops are
    modelled with a fuel argument; a run-time panic and an exhausted fuel are
    explicit results. *)

From Stdlib Require Import ZArith Lia List Bool String Ascii.
Import ListNotations.
Open Scope Z_scope.

(** ** Results of Go computations *)

Inductive res (A : Type) : Type :=
| Ret (a : A)        (* normal return *)
| Panic              (* run-time panic *)
| OutOfFuel.         (* the model ran out of fuel: says nothing about Go *)

Arguments Ret {A} a.
Arguments Panic {A}.
Arguments OutOfFuel {A}.

Definition bind {A B} (m : res A) (k : A -> res B) : res B :=
  match m with
  | Ret a => k a
  | Panic => Panic
  | OutOfFuel => OutOfFuel
  end.

Notation "x <- m ;; k" := (bind m (fun x => k))
  (at level 61, m at next level, right associativity).

(** ** Go's [time] package (the part crontab.go and crony.go use) *)

Module GoTime.

(** Proleptic Gregorian calendar, as in Go's [time] package.  Day number 0 is
    January 1 of year 1, a Monday. *)

Definition isLeap (year : Z) : bool :=
  (year mod 4 =? 0) && (negb (year mod 100 =? 0) || (year mod 400 =? 0)).

(** Days before January 1 of [year]. *)
Definition daysSinceEpoch (year : Z) : Z :=
  let y := year - 1 in
  365 * y + y / 4 - y / 100 + y / 400.

(** Days of a non-leap year before the first of month [m] (1-based);
    Go's table [daysBefore]. *)
Definition daysBefore (m : Z) : Z :=
  if m <=? 1 then 0 else
  if m =? 2 then 31 else
  if m =? 3 then 59 else
  if m =? 4 then 90 else
  if m =? 5 then 120 else
  if m =? 6 then 151 else
  if m =? 7 then 181 else
  if m =? 8 then 212 else
  if m =? 9 then 243 else
  if m =? 10 then 273 else
  if m =? 11 then 304 else
  if m =? 12 then 334 else 365.

(** Days before the first of month [m] in [year]. *)
Definition daysBeforeMonth (year m : Z) : Z :=
  daysBefore m + (if isLeap year && (3 <=? m) then 1 else 0).

Definition daysIn (year m : Z) : Z :=
  daysBeforeMonth year (m + 1) - daysBeforeMonth year m.

(** Day number of a civil date.  As in [time.Date], a month outside 1..12 is
    carried into the year, and a day outside the month runs on into the
    neighbouring months. *)
Definition daysFromCivil (year month day : Z) : Z :=
  let m0 := month - 1 in
  let year' := year + m0 / 12 in
  let month' := m0 mod 12 + 1 in
  daysSinceEpoch year' + daysBeforeMonth year' month' + day - 1.

(** Year and day of the year (0-based) of a day number; Go's [absDate]. *)
Definition yearOfDays (d : Z) : Z * Z :=
  let n400 := d / 146097 in
  let d1 := d mod 146097 in
  let n100 := Z.min 3 (d1 / 36524) in
  let d2 := d1 - 36524 * n100 in
  let n4 := d2 / 1461 in
  let d3 := d2 mod 1461 in
  let n1 := Z.min 3 (d3 / 365) in
  (400 * n400 + 100 * n100 + 4 * n4 + n1 + 1, d3 - 365 * n1).

(** Month (1..12) of a 0-based day of the year. *)
Definition monthOfYday (year yday : Z) : Z :=
  if yday <? daysBeforeMonth year 2 then 1 else
  if yday <? daysBeforeMonth year 3 then 2 else
  if yday <? daysBeforeMonth year 4 then 3 else
  if yday <? daysBeforeMonth year 5 then 4 else
  if yday <? daysBeforeMonth year 6 then 5 else
  if yday <? daysBeforeMonth year 7 then 6 else
  if yday <? daysBeforeMonth year 8 then 7 else
  if yday <? daysBeforeMonth year 9 then 8 else
  if yday <? daysBeforeMonth year 10 then 9 else
  if yday <? daysBeforeMonth year 11 then 10 else
  if yday <? daysBeforeMonth year 12 then 11 else 12.

Definition civilYear (d : Z) : Z := fst (yearOfDays d).
Definition civilMonth (d : Z) : Z :=
  monthOfYday (civilYear d) (snd (yearOfDays d)).
Definition civilDay (d : Z) : Z :=
  snd (yearOfDays d) - daysBeforeMonth (civilYear d) (civilMonth d) + 1.

(** Durations are nanosecond counts. *)
Definition Duration := Z.
Definition Nanosecond : Duration := 1.
Definition Second : Duration := 1000000000.
Definition Minute : Duration := 60 * Second.
Definition Hour : Duration := 60 * Minute.
Definition nsPerDay : Z := 24 * Hour.

(** A location, as the zone lookup of [zoneinfo.go] sees it: the offset in
    force before the first transition, and the transitions in increasing
    order of time, each with the second it takes effect and the offset in
    force from then on.  Offsets are seconds east of UTC; seconds are counted
    from 0001-01-01 00:00:00 UTC.  A fixed zone has no transition. *)
Record Location : Type := mkLocation {
  locName : string;
  locOffset : Z;
  locTx : list (Z * Z)
}.

Definition UTC : Location := mkLocation "UTC" 0 [].

(** [l.lookup(sec)]: the offset in force at the second [sec], and the period
    [start, end) in which it is in force; [None] is no bound (Go's [alpha]
    and [omega]).  Go searches the sorted transitions for the last one not
    after [sec]. *)
Fixpoint lookupFrom (tx : list (Z * Z)) (sec offset : Z) (start : option Z)
  : Z * option Z * option Z :=
  match tx with
  | [] => (offset, start, None)
  | (when, offset') :: tx' =>
      if sec <? when then (offset, start, Some when)
      else lookupFrom tx' sec offset' (Some when)
  end.

Definition lookup (l : Location) (sec : Z) : Z * option Z * option Z :=
  lookupFrom (locTx l) sec (locOffset l) None.

(** A [time.Time]: the instant, counted in nanoseconds since
    0001-01-01 00:00:00 UTC, and the location it is presented in. *)
Record Time : Type := mkTime { instant : Z; loc : Location }.

(** The offset in force at [t] in its location. *)
Definition offsetAt (t : Time) : Z :=
  fst (fst (lookup (loc t) (instant t / Second))).

(** The reading of the wall clock of [t]'s location at [t], in nanoseconds
    since 0001-01-01 00:00:00 of that clock (Go's [t.abs()]). *)
Definition wall (t : Time) : Z := instant t + offsetAt t * Second.

Definition dayNumber (t : Time) : Z := wall t / nsPerDay.

Definition Year (t : Time) : Z := civilYear (dayNumber t).
Definition Month (t : Time) : Z := civilMonth (dayNumber t).
Definition Day (t : Time) : Z := civilDay (dayNumber t).
Definition Hour_ (t : Time) : Z := (wall t mod nsPerDay) / Hour.
Definition Minute_ (t : Time) : Z := (wall t mod Hour) / Minute.
Definition Second_ (t : Time) : Z := (wall t mod Minute) / Second.
Definition Nanosecond_ (t : Time) : Z := wall t mod Second.
(** Sunday = 0, ..., Saturday = 6. *)
Definition Weekday (t : Time) : Z := (dayNumber t + 1) mod 7.
Definition Location_ (t : Time) : Location := loc t.

(** [utc < start || utc >= end] *)
Definition outside (utc : Z) (start end_ : option Z) : bool :=
  match start with Some s => utc <? s | None => false end
  || match end_ with Some e => e <=? utc | None => false end.

(** The offset [time.Date] subtracts from a wall clock reading of [unix]
    seconds: the one in force at the second [unix] of UTC if the reading,
    taken with it, falls in the period that offset is in force; otherwise
    the one in force at the instant so obtained.  A reading that occurs
    twice, or not at all, is settled this way. *)
Definition dateOffset (l : Location) (unix : Z) : Z :=
  let '(offset, start, end_) := lookup l unix in
  if offset =? 0 then 0
  else
    let utc := unix - offset in
    if outside utc start end_ then fst (fst (lookup l utc)) else offset.

(** [time.Date(year, month, day, hour, min, sec, nsec, loc)]. *)
Definition Date (year month day hour min sec nsec : Z) (l : Location) : Time :=
  let abs := daysFromCivil year month day * nsPerDay
             + hour * Hour + min * Minute + sec * Second + nsec in
  mkTime (abs - dateOffset l (abs / Second) * Second) l.

(** [t.AddDate(years, months, days)]. *)
Definition AddDate (t : Time) (years months days : Z) : Time :=
  Date (Year t + years) (Month t + months) (Day t + days)
       (Hour_ t) (Minute_ t) (Second_ t) (Nanosecond_ t) (Location_ t).

(** [t.Add(d)]. *)
Definition Add (t : Time) (d : Duration) : Time :=
  mkTime (instant t + d) (loc t).

(** [t.Before(u)]: compares instants. *)
Definition Before (t u : Time) : bool := instant t <? instant u.

(** [t.Sub(u)], without the saturation at the ends of the int64 range. *)
Definition Sub (t u : Time) : Duration := instant t - instant u.

(** [time.Time{}]: January 1, year 1, 00:00:00 UTC. *)
Definition zeroTime : Time := mkTime 0 UTC.

End GoTime.

Import GoTime.

(** ** crontab.go *)

Module Crontab.

Record field : Type := mkField { min : Z; max : Z; name : string }.

Definition minuteField : field := mkField 0 59 "minute".
Definition hourField : field := mkField 0 23 "hour".
Definition dayField : field := mkField 1 31 "day".
Definition monthField : field := mkField 1 12 "month".
Definition weekdayField : field := mkField 0 6 "weekday".

Record rangeSpec : Type := mkRange { start : Z; end_ : Z; step : Z }.

Definition rangeSpec_wildcard (r : rangeSpec) (f : field) : bool :=
  (step r =? 1) && (start r =? min f) && (end_ r =? max f).

(** [r.start <= i && i <= r.end && (i-r.start)%r.step == 0]; [&&] is
    short-circuit, [%] is the truncated remainder and panics on a zero
    divisor. *)
Definition rangeSpec_matches (r : rangeSpec) (i : Z) : res bool :=
  if (start r <=? i) && (i <=? end_ r) then
    if step r =? 0 then Panic
    else Ret (Z.rem (i - start r) (step r) =? 0)
  else Ret false.

Definition rangeSpec_valid (r : rangeSpec) (f : field) : bool :=
  (min f <=? start r) && (start r <=? end_ r) && (end_ r <=? max f).

Definition listSpec : Type := list rangeSpec.

Definition listSpec_wildcard (l : listSpec) (f : field) : bool :=
  match l with
  | [r] => rangeSpec_wildcard r f
  | _ => false
  end.

Fixpoint listSpec_matches (l : listSpec) (i : Z) : res bool :=
  match l with
  | [] => Ret false
  | r :: l' =>
      b <- rangeSpec_matches r i ;;
      if b then Ret true else listSpec_matches l' i
  end.

Record Schedule : Type := mkSchedule {
  minute : listSpec;
  hour : listSpec;
  day : listSpec;
  month : listSpec;
  weekday : listSpec
}.

Definition dayMatches (s : Schedule) (t : Time) : res bool :=
  let dayWildcard := listSpec_wildcard (day s) dayField in
  let weekdayWildcard := listSpec_wildcard (weekday s) weekdayField in
  dayMatches <- listSpec_matches (day s) (Day t) ;;
  weekdayMatches <- listSpec_matches (weekday s) (Weekday t) ;;
  if dayWildcard || weekdayWildcard then Ret (dayMatches && weekdayMatches)
  else Ret (dayMatches || weekdayMatches).

(** How an inner loop of [Next] ends: its condition became false and control
    falls through to the next statement, or it executed [continue wrap]. *)
Inductive flow : Type :=
| Through (t : Time)
| ContinueWrap (t : Time).

(** [for !s.month.matches(int(t.Month())) { ... }] *)
Fixpoint monthLoop (fuel : nat) (s : Schedule) (t : Time) : res Time :=
  match fuel with
  | O => OutOfFuel
  | S fuel' =>
      m <- listSpec_matches (month s) (Month t) ;;
      if m then Ret t
      else
        let t := Date (Year t) (Month t) 1 0 0 0 0 (Location_ t) in
        let t := AddDate t 0 1 0 in
        monthLoop fuel' s t
  end.

(** [for !s.dayMatches(t) { ...; if t.Day() == 1 { continue wrap } }] *)
Fixpoint dayLoop (fuel : nat) (s : Schedule) (t : Time) : res flow :=
  match fuel with
  | O => OutOfFuel
  | S fuel' =>
      m <- dayMatches s t ;;
      if m then Ret (Through t)
      else
        let t := Date (Year t) (Month t) (Day t) 0 0 0 0 (Location_ t) in
        let t := AddDate t 0 0 1 in
        if Day t =? 1 then Ret (ContinueWrap t)
        else dayLoop fuel' s t
  end.

(** [for !s.hour.matches(t.Hour()) { ...; if t.Hour() == 0 { continue wrap } }] *)
Fixpoint hourLoop (fuel : nat) (s : Schedule) (t : Time) : res flow :=
  match fuel with
  | O => OutOfFuel
  | S fuel' =>
      m <- listSpec_matches (hour s) (Hour_ t) ;;
      if m then Ret (Through t)
      else
        let t := Date (Year t) (Month t) (Day t) (Hour_ t) 0 0 0 (Location_ t) in
        let t := Add t (1 * Hour) in
        if Hour_ t =? 0 then Ret (ContinueWrap t)
        else hourLoop fuel' s t
  end.

(** [for !s.minute.matches(t.Minute()) { ...; if t.Minute() == 0 { continue wrap } }] *)
Fixpoint minuteLoop (fuel : nat) (s : Schedule) (t : Time) : res flow :=
  match fuel with
  | O => OutOfFuel
  | S fuel' =>
      m <- listSpec_matches (minute s) (Minute_ t) ;;
      if m then Ret (Through t)
      else
        let t := Date (Year t) (Month t) (Day t) (Hour_ t) (Minute_ t) 0 0
                      (Location_ t) in
        let t := Add t (1 * Minute) in
        if Minute_ t =? 0 then Ret (ContinueWrap t)
        else minuteLoop fuel' s t
  end.

(** The loop labelled [wrap]: [for t.Before(horizon) { ... return t }],
    followed by [return time.Time{}]. *)
Fixpoint wrapLoop (fuel : nat) (s : Schedule) (horizon t : Time) : res Time :=
  match fuel with
  | O => OutOfFuel
  | S fuel' =>
      if Before t horizon then
        t <- monthLoop fuel' s t ;;
        f <- dayLoop fuel' s t ;;
        match f with
        | ContinueWrap t => wrapLoop fuel' s horizon t
        | Through t =>
            f <- hourLoop fuel' s t ;;
            match f with
            | ContinueWrap t => wrapLoop fuel' s horizon t
            | Through t =>
                f <- minuteLoop fuel' s t ;;
                match f with
                | ContinueWrap t => wrapLoop fuel' s horizon t
                | Through t => Ret t
                end
            end
        end
      else Ret zeroTime
  end.

(** [Schedule.Next]. *)
Definition Next (fuel : nat) (s : Schedule) (t : Time) : res Time :=
  let horizon := AddDate t 8 0 0 in
  let t := Date (Year t) (Month t) (Day t) (Hour_ t) (Minute_ t) 0 0
                (Location_ t) in
  let t := Add t (1 * Minute) in
  wrapLoop fuel s horizon t.

Record Entry : Type := mkEntry { entrySchedule : Schedule; Command : string }.

End Crontab.

Import Crontab.

(** ** Go library functions the parser calls

    Strings are byte strings; the separators the parser uses are single
    bytes. *)

Module GoStrings.

(** The first occurrence of [sep] cuts [s] in two. *)
Fixpoint cut (sep : ascii) (s : string) : option (string * string) :=
  match s with
  | EmptyString => None
  | String c s' =>
      if Ascii.eqb c sep then Some (EmptyString, s')
      else match cut sep s' with
           | Some (a, b) => Some (String c a, b)
           | None => None
           end
  end.

(** [strings.SplitN(s, sep, 2)]. *)
Definition SplitN2 (s : string) (sep : ascii) : list string :=
  match cut sep s with
  | Some (a, b) => [a; b]
  | None => [s]
  end.

(** [strings.Split(s, sep)]. *)
Fixpoint Split (s : string) (sep : ascii) : list string :=
  match s with
  | EmptyString => [EmptyString]
  | String c s' =>
      if Ascii.eqb c sep then EmptyString :: Split s' sep
      else match Split s' sep with
           | h :: tl => String c h :: tl
           | [] => [String c EmptyString]
           end
  end.

Definition digit (c : ascii) : option Z :=
  let n := Z.of_N (N_of_ascii c) in
  if (48 <=? n) && (n <=? 57) then Some (n - 48) else None.

Fixpoint digits (acc : Z) (s : string) : option Z :=
  match s with
  | EmptyString => Some acc
  | String c s' =>
      match digit c with
      | Some d => digits (acc * 10 + d) s'
      | None => None
      end
  end.

(** [strconv.Atoi] on a 64-bit platform: an optional sign, then one or more
    decimal digits, the value within the range of [int]; [None] is the
    error. *)
Definition Atoi (s : string) : option Z :=
  match s with
  | EmptyString => None
  | String c s' =>
      let neg := Ascii.eqb c "-"%char in
      let body := if neg || Ascii.eqb c "+"%char then s' else s in
      match body with
      | EmptyString => None
      | _ =>
          match digits 0 body with
          | Some n =>
              let v := if neg then - n else n in
              if (- 2 ^ 63 <=? v) && (v <? 2 ^ 63) then Some v else None
          | None => None
          end
      end
  end.

(** [unicode.IsSpace] on the ASCII bytes: tab, line feed, vertical tab, form
    feed, carriage return, space. *)
Definition IsSpace (c : ascii) : bool :=
  let n := N_of_ascii c in
  ((9 <=? n) && (n <=? 13))%N || (n =? 32)%N.

(** [strings.TrimLeftFunc(s, unicode.IsSpace)]. *)
Fixpoint TrimLeftSpace (s : string) : string :=
  match s with
  | EmptyString => EmptyString
  | String c s' => if IsSpace c then TrimLeftSpace s' else s
  end.

(** The longest prefix without white space, and what follows it. *)
Fixpoint spanField (s : string) : string * string :=
  match s with
  | EmptyString => (EmptyString, EmptyString)
  | String c s' =>
      if IsSpace c then (EmptyString, s)
      else let (f, rest) := spanField s' in (String c f, rest)
  end.

(** Modelled from the spec: [fieldsn.FieldsN(s, n)] of the vendored package
    github.com/kevinwallace/fieldsn, whose source is not part of this tree.
    The fields of [s] are separated by white space; at most [n] are returned,
    and the [n]-th is the whole remainder of the line from its first
    non-space byte on, inner and trailing white space included. *)
Fixpoint FieldsN (s : string) (n : nat) : list string :=
  match n with
  | O => []
  | S n' =>
      match TrimLeftSpace s with
      | EmptyString => []
      | s1 =>
          match n' with
          | O => [s1]
          | _ => let (f, rest) := spanField s1 in f :: FieldsN rest n'
          end
      end
  end.

(** A Go slice of strings: its elements, and the cells of its backing array
    behind them (the capacity is the length of both together). *)
Record slice : Type := mkSlice { elems : list string; spare : list string }.

(** [a[0:n]]: the upper bound of a slice expression is the capacity, not the
    length; beyond the capacity it panics. *)
Definition slice_prefix (a : slice) (n : nat) : res (list string) :=
  if (n <=? List.length (elems a) + List.length (spare a))%nat
  then Ret (firstn n (elems a ++ spare a))
  else Panic.

End GoStrings.

Import GoStrings.

(** ** The crontab parser *)

Module Parser.

Inductive error : Type :=
| ErrStep              (* invalid range (can't parse part after slash) *)
| ErrStart             (* invalid range (can't parse start value) *)
| ErrEnd               (* invalid range (can't parse end value) *)
| ErrBounds (f : field)  (* <name> must be between <min> and <max> *)
| ErrFieldCount        (* wrong number of fields; expected 5 *)
| ErrUnknownLabel (label : string).  (* unknown label <label> *)

(** A Go [(value, error)] result. *)
Inductive result (A : Type) : Type :=
| Ok (a : A)
| Err (e : error).

Arguments Ok {A} a.
Arguments Err {A} e.

Definition bindR {A B} (m : result A) (k : A -> result B) : result B :=
  match m with
  | Ok a => k a
  | Err e => Err e
  end.

Notation "x <~ m ;; k" := (bindR m (fun x => k))
  (at level 61, m at next level, right associativity).

(** A [map[string]int]. *)
Definition substitutions : Type := list (string * Z).

Fixpoint lookup {V} (m : list (string * V)) (k : string) : option V :=
  match m with
  | [] => None
  | (k', v) :: m' => if String.eqb k k' then Some v else lookup m' k
  end.

Definition monthSubstitutions : substitutions :=
  [("jan", 1); ("feb", 2); ("mar", 3); ("apr", 4); ("may", 5); ("jun", 6);
   ("jul", 7); ("aug", 8); ("sep", 9); ("oct", 10); ("nov", 11);
   ("dec", 12)]%string.

Definition weekdaySubstitutions : substitutions :=
  [("sun", 0); ("mon", 1); ("tue", 2); ("wed", 3); ("thu", 4); ("fri", 5);
   ("sat", 6); ("7", 0)]%string.

(** A value of a range: a key of the substitution table, else an integer. *)
Definition parseValue (s : string) (subs : substitutions) (e : error)
  : result Z :=
  match lookup subs s with
  | Some substitution => Ok substitution
  | None =>
      match Atoi s with
      | Some parsed => Ok parsed
      | None => Err e
      end
  end.

Definition parseRangeSpec (s : string) (f : field) (subs : substitutions)
  : result rangeSpec :=
  let slashParts := SplitN2 s "/"%char in
  step <~ match slashParts with
          | [_; part1] =>
              match Atoi part1 with
              | Some parsedStep => Ok parsedStep
              | None => Err ErrStep
              end
          | _ => Ok 1
          end ;;
  let part0 := hd EmptyString slashParts in
  bounds <~ (if String.eqb part0 "*"%string || String.eqb part0 "?"%string
             then Ok (min f, max f)
             else
               let dashParts := SplitN2 part0 "-"%char in
               start <~ parseValue (hd EmptyString dashParts) subs ErrStart ;;
               end_ <~ match dashParts with
                       | _ :: dash1 :: _ => parseValue dash1 subs ErrEnd
                       | _ => Ok start
                       end ;;
               Ok (start, end_)) ;;
  let r := mkRange (fst bounds) (snd bounds) step in
  if negb (rangeSpec_valid r f) then Err (ErrBounds f) else Ok r.

Fixpoint parseRanges (rangeStrings : list string) (f : field)
  (subs : substitutions) : result listSpec :=
  match rangeStrings with
  | [] => Ok []
  | rangeString :: rest =>
      rangeSpec <~ parseRangeSpec rangeString f subs ;;
      rangeSpecs <~ parseRanges rest f subs ;;
      Ok (rangeSpec :: rangeSpecs)
  end.

Definition parseListSpec (s : string) (f : field) (subs : substitutions)
  : result listSpec :=
  parseRanges (Split s ","%char) f subs.

Definition ParseSchedule (fields : list string) : result Schedule :=
  match fields with
  | [f0; f1; f2; f3; f4] =>
      minute <~ parseListSpec f0 minuteField [] ;;
      hour <~ parseListSpec f1 hourField [] ;;
      day <~ parseListSpec f2 dayField [] ;;
      month <~ parseListSpec f3 monthField monthSubstitutions ;;
      weekday <~ parseListSpec f4 weekdayField weekdaySubstitutions ;;
      Ok (mkSchedule minute hour day month weekday)
  | _ => Err ErrFieldCount
  end.

Definition MustParseSchedule (fields : list string) : res Schedule :=
  match ParseSchedule fields with
  | Ok s => Ret s
  | Err _ => Panic
  end.

Definition predefinedLabels : list (string * res Schedule) :=
  [("@yearly", MustParseSchedule ["0"; "0"; "1"; "1"; "*"]);
   ("@annually", MustParseSchedule ["0"; "0"; "1"; "1"; "*"]);
   ("@monthly", MustParseSchedule ["0"; "0"; "1"; "*"; "*"]);
   ("@weekly", MustParseSchedule ["0"; "0"; "*"; "*"; "0"]);
   ("@daily", MustParseSchedule ["0"; "0"; "*"; "*"; "*"]);
   ("@midnight", MustParseSchedule ["0"; "0"; "*"; "*"; "*"]);
   ("@hourly", MustParseSchedule ["0"; "*"; "*"; "*"; "*"])]%string.

Section WithAllocator.

(** The cells [fieldsn.FieldsN(line, n)] leaves unused behind its result:
    they depend on how that function allocates, which its absent source
    would tell. *)
Variable unused : string -> nat -> list string.

Definition ParseEntry (line : string) : res (result Entry) :=
  match line with
  | EmptyString => Panic                 (* line[0]: index out of range *)
  | String c _ =>
      if Ascii.eqb c "@"%char then
        let fields := FieldsN line 2 in
        match fields with
        | [] => Panic                    (* fields[0]: index out of range *)
        | label :: rest =>
            match lookup predefinedLabels label with
            | None => Ret (Err (ErrUnknownLabel label))
            | Some predefinedSchedule =>
                schedule <- predefinedSchedule ;;
                Ret (Ok (mkEntry schedule (hd EmptyString rest)))
            end
        end
      else
        let fields := FieldsN line 6 in
        five <- slice_prefix (mkSlice fields (unused line 6%nat)) 5 ;;
        match ParseSchedule five with
        | Err err => Ret (Err err)
        | Ok parsedSchedule =>
            Ret (Ok (mkEntry parsedSchedule (nth 5 fields EmptyString)))
        end
  end.

Definition MustParseEntry (line : string) : res Entry :=
  r <- ParseEntry line ;;
  match r with
  | Ok e => Ret e
  | Err _ => Panic
  end.

(** The loop of [ParseCrontab] over the lines. *)
Fixpoint parseLines (lines : list string) : res (result (list Entry)) :=
  match lines with
  | [] => Ret (Ok [])
  | line :: rest =>
      let line := TrimLeftSpace line in
      match line with
      | EmptyString => parseLines rest
      | String c _ =>
          if Ascii.eqb c "#"%char then parseLines rest
          else
            r <- ParseEntry line ;;
            match r with
            | Err err => Ret (Err err)
            | Ok entry =>
                r' <- parseLines rest ;;
                match r' with
                | Err err => Ret (Err err)
                | Ok entries => Ret (Ok (entry :: entries))
                end
            end
      end
  end.

Definition ParseCrontab (s : string) : res (result (list Entry)) :=
  parseLines (Split s "010"%char).

End WithAllocator.

End Parser.

Import Parser.

(** ** crony.go: the supervisor *)

Module Crony.

(** A channel made by [make(chan time.Time, 1)], named by its creation
    order. *)
Definition chan : Type := nat.

(** What the supervisor and its tasks do to the outside. *)
Inductive action : Type :=
| Execute (command : string)       (* executeCommand(entry.Command, repo) *)
| LogOverrun (command : string)    (* "Command overran after ..." *)
| SendStop (c : chan) (t : Time)   (* c <- t *)
| Spawn (entry : Entry) (now : Time) (stopTime : chan).
                                   (* go executeEntry(entry, repo, now, stopTime) *)

(** The variable [stopTime] of [executeCrontab] ([None] is nil) and the next
    channel [make] will create. *)
Record supervisor : Type := mkSupervisor {
  stopTime : option chan;
  fresh : chan
}.

Definition initial : supervisor := mkSupervisor None 0%nat.

Definition stopPrevious (sup : supervisor) (now : Time) : list action :=
  match stopTime sup with
  | Some c => [SendStop c now]
  | None => []
  end.

(** One iteration of the loop of [executeCrontab] in crony.go, on the update
    [entries] received when the clock reads [now].  The statement
    [stopTime := make(chan time.Time, 1)] declares a new variable in the
    scope of the [case]: the [stopTime] of the function keeps its value. *)
Definition onUpdate (sup : supervisor) (entries : list Entry) (now : Time)
  : supervisor * list action :=
  let c := fresh sup in
  (mkSupervisor (stopTime sup) (S c),
   stopPrevious sup now ++ map (fun entry => Spawn entry now c) entries).

(** The same iteration in the second copy of crony.go (the one logging
    through glog), where the statement is the assignment
    [stopTime = make(chan time.Time, 1)]. *)
Definition onUpdate_assign (sup : supervisor) (entries : list Entry)
  (now : Time) : supervisor * list action :=
  let c := fresh sup in
  (mkSupervisor (Some c) (S c),
   stopPrevious sup now ++ map (fun entry => Spawn entry now c) entries).

(** [executeCrontab] on the updates received so far, each with the clock
    reading taken on its receipt. *)
Fixpoint run (step : supervisor -> list Entry -> Time -> supervisor * list action)
  (sup : supervisor) (updates : list (list Entry * Time))
  : supervisor * list action :=
  match updates with
  | [] => (sup, [])
  | (entries, now) :: rest =>
      let (sup', acts) := step sup entries now in
      let (sup'', acts') := run step sup' rest in
      (sup'', acts ++ acts')
  end.

Definition executeCrontab (updates : list (list Entry * Time)) : list action :=
  snd (run onUpdate initial updates).

Definition executeCrontab_assign (updates : list (list Entry * Time))
  : list action :=
  snd (run onUpdate_assign initial updates).

(** The case a [select] of [executeEntry] takes. *)
Inductive selected : Type :=
| TimerFired (woke finished : Time)
    (* the timer case, taken when the clock read [woke]; [finished] is the
       [time.Now()] read after [executeCommand] returned *)
| StopReceived (t : Time).
    (* [t := <-stopTime] *)

(** The timer [time.After(next.Sub(time.Now()))], armed when the clock read
    [armed], has fired when the clock reads [clock]. *)
Definition timerFired (next armed clock : Time) : bool :=
  Sub next armed <=? Sub clock armed.

(** [executeEntry], along the cases its [select]s take. *)
Fixpoint executeEntry (fuel : nat) (entry : Entry) (now : Time)
  (stopTime : chan) (cases : list selected) : res (list action) :=
  match cases with
  | [] => Ret []                          (* blocked in [select] *)
  | case :: cases' =>
      next <- Next fuel (entrySchedule entry) now ;;
      match case with
      | TimerFired _ finished =>
          next' <- Next fuel (entrySchedule entry) next ;;
          let overrun :=
            if negb (Before finished next') then [LogOverrun (Command entry)]
            else [] in
          rest <- executeEntry fuel entry finished stopTime cases' ;;
          Ret (Execute (Command entry) :: overrun ++ rest)
      | StopReceived t =>
          Ret (SendStop stopTime t ::
               if negb (Before t next) then [Execute (Command entry)] else [])
      end
  end.

End Crony.

Import Crony.

(** ** git.go: the work directories *)

Module Git.

(** One invocation of git: the branch of the work directory that runs it,
    and its arguments. *)
Definition invocation : Type := (string * list string)%type.

(** The commands run so far, oldest first. *)
Definition history : Type := list invocation.

Record workdir : Type := mkWorkdir { branch : string }.

Section World.

(** What running a command answers after a history: [None] for success, the
    error otherwise.  Everything outside the program (the repository, its
    origin, the file system) is behind this function. *)
Variable answer : history -> invocation -> option string.

Definition run (i : invocation) (h : history) : option string * history :=
  (answer h i, h ++ [i]).

(** [w.git(args...)]. *)
Definition git (w : workdir) (args : list string) (h : history)
  : option string * history :=
  run (branch w, args) h.

Definition pull (w : workdir) (h : history) : option string * history :=
  let (err, h) := git w ["pull"; "--rebase"]%string h in
  match err with
  | Some e =>
      let (_, h) := git w ["rebase"; "--abort"]%string h in
      (Some e, h)
  | None => (None, h)
  end.

Definition Pull (w : workdir) (h : history) : option string * history :=
  pull w h.

Definition Push (w : workdir) (h : history) : option string * history :=
  let (err, h) := git w ["push"]%string h in
  match err with
  | Some _ =>
      let (err, h) := pull w h in
      match err with
      | Some e => (Some e, h)
      | None => git w ["push"]%string h
      end
  | None => (None, h)
  end.

End World.

End Git.

(** * Specification *)

Definition yearLen (y : Z) : Z := if isLeap y then 366 else 365.

(** ** Pure readings of the matching functions *)

Definition rangeSpec_matchesb (r : rangeSpec) (i : Z) : bool :=
  (start r <=? i) && (i <=? end_ r) && (Z.rem (i - start r) (step r) =? 0).

Definition listSpec_matchesb (l : listSpec) (i : Z) : bool :=
  existsb (fun r => rangeSpec_matchesb r i) l.

Definition dayMatchesb (s : Schedule) (t : Time) : bool :=
  let d := listSpec_matchesb (day s) (Day t) in
  let w := listSpec_matchesb (weekday s) (Weekday t) in
  if listSpec_wildcard (day s) dayField
     || listSpec_wildcard (weekday s) weekdayField
  then d && w else d || w.

(** All five field constraints hold at the instant [t]. *)
Definition fires (s : Schedule) (t : Time) : bool :=
  listSpec_matchesb (month s) (Month t) && dayMatchesb s t
  && listSpec_matchesb (hour s) (Hour_ t)
  && listSpec_matchesb (minute s) (Minute_ t).

Definition steps_nonzero (l : listSpec) : Prop :=
  Forall (fun r => step r <> 0) l.

(** Schedules on which [Next] neither panics nor spins: no step is zero and
    the month field admits some month. *)
Record Schedule_ok (s : Schedule) : Prop := mkOk {
  ok_minute : steps_nonzero (minute s);
  ok_hour : steps_nonzero (hour s);
  ok_day : steps_nonzero (day s);
  ok_month : steps_nonzero (month s);
  ok_weekday : steps_nonzero (weekday s);
  ok_some_month : exists m, 1 <= m <= 12 /\ listSpec_matchesb (month s) m = true
}.

(** A location without transitions: one offset at all times. *)
Definition fixed (l : Location) : Prop := locTx l = [].

(** The offsets a location ever has. *)
Definition offsets (l : Location) : list Z :=
  locOffset l :: map snd (locTx l).

(** No two offsets of the location are more than a day apart. *)
Definition steady (l : Location) : Prop :=
  forall a b, In a (offsets l) -> In b (offsets l) -> a - b <= 86400.

(** Minute resolution: zero seconds and nanoseconds. *)
Definition aligned (t : Time) : Prop := wall t mod Minute = 0.

(** No instant of location [l] whose wall clock lies in [a, b) fires. *)
Definition quiet (s : Schedule) (l : Location) (a b : Z) : Prop :=
  forall u, loc u = l -> a <= wall u < b -> fires s u = false.

(** The candidate moved from [t] to [t'] without skipping a firing. *)
Record adv (s : Schedule) (t t' : Time) : Prop := mkAdv {
  adv_loc : loc t' = loc t;
  adv_le : wall t <= wall t';
  adv_quiet : quiet s (loc t) (wall t) (wall t');
  adv_aligned : aligned t -> aligned t'
}.

(** The statements of [Next]'s loops that advance the candidate. *)
Definition startOfNextMonth (t : Time) : Time :=
  AddDate (Date (Year t) (Month t) 1 0 0 0 0 (Location_ t)) 0 1 0.
Definition startOfNextDay (t : Time) : Time :=
  AddDate (Date (Year t) (Month t) (Day t) 0 0 0 0 (Location_ t)) 0 0 1.
Definition startOfNextHour (t : Time) : Time :=
  Add (Date (Year t) (Month t) (Day t) (Hour_ t) 0 0 0 (Location_ t)) (1 * Hour).
Definition startOfNextMinute (t : Time) : Time :=
  Add (Date (Year t) (Month t) (Day t) (Hour_ t) (Minute_ t) 0 0 (Location_ t))
      (1 * Minute).

(** The instant [k] times 24 hours before [r]. *)
Definition daysEarlier (r : Time) (k : Z) : Time :=
  Add r (- (k * nsPerDay)).


Definition monthb (s : Schedule) (t : Time) : bool :=
  listSpec_matchesb (month s) (Month t).
Definition hourb (s : Schedule) (t : Time) : bool :=
  listSpec_matchesb (hour s) (Hour_ t).
Definition minuteb (s : Schedule) (t : Time) : bool :=
  listSpec_matchesb (minute s) (Minute_ t).

(** A firing within the 24 hours before [c], if [c] itself fires. *)
Definition recent_firing (s : Schedule) (c : Time) : Prop :=
  fires s c = true ->
  exists q, loc q = loc c /\ aligned q /\
            wall c - nsPerDay <= wall q < wall c /\ fires s q = true.

(** What the candidate at the head of the [wrap] loop is when it is not the
    first one: the first of a month, or an instant reached from a day or an
    hour that matched. *)
Definition wrapped (s : Schedule) (c : Time) : Prop :=
  Day c = 1 \/ recent_firing s c.

(** How a [for] loop with condition [condb], step [stp] and exit test [wr]
    ends when started at [t]: at a [t'] where the condition holds, or by
    [continue wrap] after a step from a [p] where it did not. *)
Definition loop_outcome (condb : Time -> bool) (stp : Time -> Time)
  (wr : Time -> bool) (Inv : Time -> Prop) (R : Time -> Time -> Prop)
  (t : Time) (fl : flow) : Prop :=
  match fl with
  | Through t' => R t t' /\ Inv t' /\ condb t' = true
  | ContinueWrap c =>
      exists p, c = stp p /\ R t p /\ Inv p /\ condb p = false
                /\ wr (stp p) = true
  end.

(** How the [wrap] loop ends when started at [t0]: at a firing reached
    without skipping one, or with the zero time at a head candidate [c] not
    before the horizon. *)
Definition wrap_outcome (s : Schedule) (horizon t0 r : Time) : Prop :=
  (adv s t0 r /\ fires s r = true) \/
  (r = zeroTime /\
   exists c, adv s t0 c /\ wall horizon <= wall c /\ (c = t0 \/ wrapped s c)).

(** [Next] returns [r] on every sufficiently large fuel. *)
Definition NextIs (s : Schedule) (t r : Time) : Prop :=
  exists n, forall fuel, (n <= fuel)%nat -> Next fuel s t = Ret r.

(** The start of the minute containing [t]. *)
Definition truncMinute (t : Time) : Time :=
  Add t (- (wall t mod Minute)).

(** [m] is an instant of [t]'s location, at minute resolution, strictly after
    the start of the minute containing [t], at which [s] fires. *)
Record candidate (s : Schedule) (t m : Time) : Prop := mkCandidate {
  cand_loc : loc m = loc t;
  cand_aligned : aligned m;
  cand_after : Before (truncMinute t) m = true;
  cand_fires : fires s m = true
}.

(** [m] is not after [t.AddDate(8, 0, 0)]. *)
Definition within_horizon (t m : Time) : Prop :=
  Before (AddDate t 8 0 0) m = false.

(** The model did not run out of fuel. *)
Definition settled {A} (m : res A) : Prop := m <> OutOfFuel.

(** [i] lies in the range [r] and on its step. *)
Definition in_range (r : rangeSpec) (i : Z) : Prop :=
  start r <= i <= end_ r /\ Z.rem (i - start r) (step r) = 0.

(** [i] lies in some range of [l]. *)
Definition in_list (l : listSpec) (i : Z) : Prop :=
  Exists (fun r => in_range r i) l.

(** The schedules of the examples. *)
Definition full (f : field) : listSpec := [mkRange (min f) (max f) 1].
Definition only (i : Z) : listSpec := [mkRange i i 1].

(** [*/5 * * * *] *)
Definition everyFiveMinutes : Schedule :=
  mkSchedule [mkRange 0 59 5] (full hourField) (full dayField)
             (full monthField) (full weekdayField).

(** [0 0 13 * 5] *)
Definition thirteenthOrFriday : Schedule :=
  mkSchedule (only 0) (only 0) (only 13) (full monthField) (only 5).

(** [0 0 31 2 *] *)
Definition februaryThirtyFirst : Schedule :=
  mkSchedule (only 0) (only 0) (only 31) (only 2) (full weekdayField).

(** [* * * * *] *)
Definition everyMinute : Schedule :=
  mkSchedule (full minuteField) (full hourField) (full dayField)
             (full monthField) (full weekdayField).

(** [0 3 * * *] *)
Definition threeOClock : Schedule :=
  mkSchedule (only 0) (only 3) (full dayField) (full monthField)
             (full weekdayField).

(** [30 2 * * *] *)
Definition halfPastTwo : Schedule :=
  mkSchedule (only 30) (only 2) (full dayField) (full monthField)
             (full weekdayField).

(** [0 0 13 * *] *)
Definition thirteenth : Schedule :=
  mkSchedule (only 0) (only 0) (only 13) (full monthField)
             (full weekdayField).

(** [0 0 * * 5] *)
Definition fridays : Schedule :=
  mkSchedule (only 0) (only 0) (full dayField) (full monthField) (only 5).

(** The second, counted from 0001-01-01 00:00:00 UTC, of a UTC date. *)
Definition utcSeconds (y m d h mi sec : Z) : Z :=
  daysFromCivil y m d * 86400 + h * 3600 + mi * 60 + sec.

(** America/New_York with its transitions of the year 2000: EST (UTC-5),
    EDT (UTC-4) from 2000-04-02 07:00 UTC, EST again from
    2000-10-29 06:00 UTC, when the clock goes from 02:00 EDT back to
    01:00 EST. *)
Definition newYork : Location :=
  mkLocation "America/New_York" (-18000)
    [(utcSeconds 2000 4 2 7 0 0, -14400);
     (utcSeconds 2000 10 29 6 0 0, -18000)].

(** Europe/Berlin with its transitions of the year 2000: CET (UTC+1),
    CEST (UTC+2) from 2000-03-26 01:00 UTC, CET again from
    2000-10-29 01:00 UTC, when the clock goes from 03:00 CEST back to
    02:00 CET. *)
Definition berlin : Location :=
  mkLocation "Europe/Berlin" 3600
    [(utcSeconds 2000 3 26 1 0 0, 7200);
     (utcSeconds 2000 10 29 1 0 0, 3600)].

(** A wildcard, in the words of the specification: a list of exactly one
    range, which has step 1 and spans the field from its least to its
    greatest value. *)
Definition is_wildcard (l : listSpec) (f : field) : Prop :=
  exists r, l = [r] /\ step r = 1 /\ start r = min f /\ end_ r = max f.

(** An allocator for [FieldsN] that leaves no unused cell, and one that
    leaves six empty strings. *)
Definition exactFit : string -> nat -> list string := fun _ _ => [].
Definition roomy : string -> nat -> list string :=
  fun _ _ => repeat EmptyString 6.

(** [*/0 * * * *] *)
Definition everyZeroMinutes : Schedule :=
  mkSchedule [mkRange 0 59 0] (full hourField) (full dayField)
             (full monthField) (full weekdayField).

(** The errors [parseRangeSpec] reports for field [f]. *)
Definition range_error (f : field) (e : error) : Prop :=
  e = ErrStep \/ e = ErrStart \/ e = ErrEnd \/ e = ErrBounds f.

(** The invariant of a parsed list: non-empty, every range within the
    bounds of the field. *)
Definition listSpec_wf (l : listSpec) (f : field) : Prop :=
  l <> [] /\ Forall (fun r => min f <= start r <= end_ r /\ end_ r <= max f) l.

Definition no_zero_step (s : Schedule) : Prop :=
  steps_nonzero (minute s) /\ steps_nonzero (hour s) /\
  steps_nonzero (day s) /\ steps_nonzero (month s) /\
  steps_nonzero (weekday s).

(** The result of parsing two runs of lines one after the other: the first
    failure, else the entries of both. *)
Definition thenParsed (a b : res (result (list Entry)))
  : res (result (list Entry)) :=
  match a with
  | Ret (Ok ea) =>
      match b with
      | Ret (Ok eb) => Ret (Ok (ea ++ eb))
      | other => other
      end
  | other => other
  end.

(** What [executeCrontab] does on the [i]-th update (counted from 0) when
    each update stops the generation before it. *)
Definition generation (i : nat) (update : list Entry * Time) : list action :=
  match i with
  | O => []
  | S j => [SendStop j (snd update)]
  end ++ map (fun entry => Spawn entry (snd update) i) (fst update).

Fixpoint generationsFrom (i : nat) (updates : list (list Entry * Time))
  : list action :=
  match updates with
  | [] => []
  | update :: rest => generation i update ++ generationsFrom (S i) rest
  end.

Definition isExecute (a : action) : bool :=
  match a with
  | Execute _ => true
  | _ => false
  end.

(** How many times the command was run. *)
Definition runs (acts : list action) : nat :=
  List.length (filter isExecute acts).

(** The timer case taken for each pair of clock readings. *)
Definition timerCases (clocks : list (Time * Time)) : list selected :=
  map (fun c => TimerFired (fst c) (snd c)) clocks.

(** The [now] of the iteration that follows the timer cases [clocks]. *)
Definition nowAfter (now : Time) (clocks : list (Time * Time)) : Time :=
  last (map snd clocks) now.

(** [s] with its weekday field replaced. *)
Definition withWeekday (s : Schedule) (l : listSpec) : Schedule :=
  mkSchedule (minute s) (hour s) (day s) (month s) l.


Lemma isLeap_spec y :
  isLeap y = true <-> (y mod 4 = 0 /\ (y mod 100 <> 0 \/ y mod 400 = 0)).
Proof.
  unfold isLeap.
  rewrite andb_true_iff, orb_true_iff, negb_true_iff, !Z.eqb_eq, Z.eqb_neq.
  tauto.
Qed.

Lemma daysSinceEpoch_succ y :
  daysSinceEpoch (y + 1) = daysSinceEpoch y + yearLen y.
Proof.
  unfold daysSinceEpoch, yearLen.
  destruct (isLeap y) eqn:E.
  - apply isLeap_spec in E. Z.div_mod_to_equations; lia.
  - assert (~ (y mod 4 = 0 /\ (y mod 100 <> 0 \/ y mod 400 = 0))) as N.
    { rewrite <- isLeap_spec. congruence. }
    Z.div_mod_to_equations; lia.
Qed.


Lemma yearOfDays_sum d :
  daysSinceEpoch (fst (yearOfDays d)) + snd (yearOfDays d) = d /\
  0 <= snd (yearOfDays d) < yearLen (fst (yearOfDays d)).
Proof.
  unfold yearOfDays; cbn [fst snd].
  set (n400 := d / 146097). set (d1 := d mod 146097).
  assert (Hd : d = 146097 * n400 + d1 /\ 0 <= d1 < 146097).
  { subst n400 d1. Z.div_mod_to_equations; lia. }
  clearbody n400 d1.
  set (n100 := Z.min 3 (d1 / 36524)).
  assert (H100 : 0 <= n100 <= 3 /\ 0 <= d1 - 36524 * n100 /\
                 (d1 - 36524 * n100 < 36524 \/ n100 = 3 /\ d1 - 36524 * n100 = 36524)).
  { subst n100. destruct (Z.min_spec 3 (d1 / 36524)) as [[? ->]|[? ->]];
    Z.div_mod_to_equations; lia. }
  clearbody n100.
  set (d2 := d1 - 36524 * n100) in *.
  assert (Hd2 : d1 = 36524 * n100 + d2) by (subst d2; lia).
  clearbody d2.
  set (n4 := d2 / 1461). set (d3 := d2 mod 1461).
  assert (H4 : d2 = 1461 * n4 + d3 /\ 0 <= d3 < 1461 /\ 0 <= n4 <= 24 /\
               (n4 = 24 -> d3 < 1460 \/ n100 = 3)).
  { subst n4 d3. Z.div_mod_to_equations; lia. }
  clearbody n4 d3.
  set (n1 := Z.min 3 (d3 / 365)).
  assert (H1 : 0 <= n1 <= 3 /\ 0 <= d3 - 365 * n1 /\
               (d3 - 365 * n1 < 365 \/ n1 = 3 /\ d3 - 365 * n1 = 365)).
  { subst n1. destruct (Z.min_spec 3 (d3 / 365)) as [[? ->]|[? ->]];
    Z.div_mod_to_equations; lia. }
  clearbody n1.
  set (y := 400 * n400 + 100 * n100 + 4 * n4 + n1 + 1).
  assert (Hy : (y - 1) / 4 = 100 * n400 + 25 * n100 + n4 /\ (y - 1) / 100 = 4 * n400 + n100 /\
          (y - 1) / 400 = n400 /\ y mod 4 = (n1 + 1) mod 4 /\
          y mod 100 = (4 * n4 + n1 + 1) mod 100 /\ y mod 400 = (100 * n100 + 4 * n4 + n1 + 1) mod 400).
  { subst y. Z.div_mod_to_equations; lia. }
  destruct Hy as (E4 & E100 & E400 & M4 & M100 & M400).
  split.
  - unfold daysSinceEpoch. cbv zeta. rewrite E4, E100, E400. subst y. lia.
  - unfold yearLen, isLeap. rewrite M4, M100, M400.
    destruct ((n1 + 1) mod 4 =? 0) eqn:A; cbn [andb].
    + destruct ((4 * n4 + n1 + 1) mod 100 =? 0) eqn:B; cbn [negb orb].
      * destruct ((100 * n100 + 4 * n4 + n1 + 1) mod 400 =? 0) eqn:C.
        -- lia.
        -- apply Z.eqb_eq in A, B. apply Z.eqb_neq in C.
           Z.div_mod_to_equations; lia.
      * lia.
    + apply Z.eqb_neq in A. Z.div_mod_to_equations; lia.
Qed.

Lemma daysSinceEpoch_mono a b : a <= b -> daysSinceEpoch a <= daysSinceEpoch b.
Proof. unfold daysSinceEpoch. intros. Z.div_mod_to_equations; lia. Qed.

Lemma yearLen_pos y : 365 <= yearLen y <= 366.
Proof. unfold yearLen; destruct (isLeap y); lia. Qed.

Lemma civilYear_unique d y :
  daysSinceEpoch y <= d < daysSinceEpoch (y + 1) -> civilYear d = y.
Proof.
  intros H. unfold civilYear.
  destruct (yearOfDays_sum d) as [E B].
  set (y' := fst (yearOfDays d)) in *. set (yd := snd (yearOfDays d)) in *.
  pose proof (daysSinceEpoch_succ y') as S'.
  destruct (Z.lt_trichotomy y' y) as [L|[L|L]]; auto.
  - pose proof (daysSinceEpoch_mono (y' + 1) y ltac:(lia)). lia.
  - pose proof (daysSinceEpoch_mono (y + 1) y' ltac:(lia)). lia.
Qed.

Ltac month_cases m :=
  let H := fresh in
  assert (H : m = 1 \/ m = 2 \/ m = 3 \/ m = 4 \/ m = 5 \/ m = 6 \/ m = 7 \/
              m = 8 \/ m = 9 \/ m = 10 \/ m = 11 \/ m = 12) by lia;
  destruct H as [->|[->|[->|[->|[->|[->|[->|[->|[->|[->|[->| ->]]]]]]]]]]].

Lemma daysBeforeMonth_13 y : daysBeforeMonth y 13 = yearLen y.
Proof. unfold daysBeforeMonth, yearLen. destruct (isLeap y); reflexivity. Qed.

Lemma daysBeforeMonth_1 y : daysBeforeMonth y 1 = 0.
Proof. unfold daysBeforeMonth. rewrite andb_false_r. reflexivity. Qed.

Lemma daysIn_bounds y m : 1 <= m <= 12 -> 28 <= daysIn y m <= 31.
Proof.
  intros H. unfold daysIn, daysBeforeMonth.
  destruct (isLeap y); month_cases m; cbn; lia.
Qed.

Lemma daysBeforeMonth_bounds y m :
  1 <= m <= 12 -> 0 <= daysBeforeMonth y m /\ daysBeforeMonth y m + daysIn y m <= yearLen y.
Proof.
  intros H. unfold daysIn, daysBeforeMonth, yearLen.
  destruct (isLeap y); month_cases m; cbn; lia.
Qed.

Lemma monthOfYday_spec y yd :
  0 <= yd < yearLen y ->
  1 <= monthOfYday y yd <= 12 /\
  daysBeforeMonth y (monthOfYday y yd) <= yd
    < daysBeforeMonth y (monthOfYday y yd + 1).
Proof.
  intros H. unfold monthOfYday, yearLen, daysBeforeMonth in *.
  destruct (isLeap y); cbn in *;
  repeat match goal with
         | |- context [?a <? ?b] => destruct (Z.ltb_spec a b)
         end; cbn; lia.
Qed.

Lemma monthOfYday_unique y yd m :
  1 <= m <= 12 ->
  daysBeforeMonth y m <= yd < daysBeforeMonth y (m + 1) ->
  monthOfYday y yd = m.
Proof.
  intros Hm H. unfold monthOfYday, daysBeforeMonth in *.
  destruct (isLeap y); month_cases m; cbn in *;
  repeat match goal with
         | |- context [?a <? ?b] => destruct (Z.ltb_spec a b)
         end; lia.
Qed.

Lemma daysFromCivil_valid y m d :
  1 <= m <= 12 ->
  daysFromCivil y m d = daysSinceEpoch y + daysBeforeMonth y m + d - 1.
Proof.
  intros H. unfold daysFromCivil. cbv zeta.
  replace ((m - 1) / 12) with 0 by (Z.div_mod_to_equations; lia).
  replace ((m - 1) mod 12 + 1) with m by (Z.div_mod_to_equations; lia).
  rewrite Z.add_0_r. reflexivity.
Qed.

(** Month 13 is January of the next year. *)
Lemma daysFromCivil_13 y d : daysFromCivil y 13 d = daysFromCivil (y + 1) 1 d.
Proof.
  unfold daysFromCivil. cbv zeta.
  change ((13 - 1) / 12) with 1. change ((1 - 1) / 12) with 0.
  change ((13 - 1) mod 12 + 1) with 1. change ((1 - 1) mod 12 + 1) with 1.
  rewrite Z.add_0_r. reflexivity.
Qed.

Lemma civil_of_days d :
  1 <= civilMonth d <= 12 /\
  1 <= civilDay d <= daysIn (civilYear d) (civilMonth d) /\
  daysFromCivil (civilYear d) (civilMonth d) (civilDay d) = d.
Proof.
  destruct (yearOfDays_sum d) as [E B].
  unfold civilDay, civilMonth, civilYear.
  set (y := fst (yearOfDays d)) in *. set (yd := snd (yearOfDays d)) in *.
  destruct (monthOfYday_spec y yd B) as [Hm Hd].
  set (m := monthOfYday y yd) in *.
  split; [exact Hm|]. split.
  - unfold daysIn. lia.
  - rewrite daysFromCivil_valid by exact Hm. lia.
Qed.

Lemma days_of_civil y m d :
  1 <= m <= 12 -> 1 <= d <= daysIn y m ->
  civilYear (daysFromCivil y m d) = y /\
  civilMonth (daysFromCivil y m d) = m /\
  civilDay (daysFromCivil y m d) = d.
Proof.
  intros Hm Hd. rewrite daysFromCivil_valid by exact Hm.
  pose proof (daysBeforeMonth_bounds y m Hm) as Hb.
  set (n := daysSinceEpoch y + daysBeforeMonth y m + d - 1).
  assert (Hy : civilYear n = y).
  { apply civilYear_unique. rewrite daysSinceEpoch_succ. subst n. lia. }
  assert (Hyd : snd (yearOfDays n) = daysBeforeMonth y m + d - 1).
  { destruct (yearOfDays_sum n) as [E _]. unfold civilYear in Hy.
    rewrite Hy in E. subst n. lia. }
  assert (Hmo : civilMonth n = m).
  { unfold civilMonth. rewrite Hy, Hyd. apply monthOfYday_unique; auto.
    unfold daysIn in Hd. lia. }
  split; [exact Hy|]. split; [exact Hmo|].
  unfold civilDay. rewrite Hmo, Hy, Hyd. lia.
Qed.

Lemma daysBeforeMonth_succ y m :
  1 <= m <= 12 -> daysBeforeMonth y (m + 1) = daysBeforeMonth y m + daysIn y m.
Proof. unfold daysIn. lia. Qed.

(** The day number of the first of the month after month [m] of year [y]. *)
Lemma daysFromCivil_next_month y m :
  1 <= m <= 12 ->
  daysFromCivil y (m + 1) 1 = daysSinceEpoch y + daysBeforeMonth y (m + 1).
Proof.
  intros H. destruct (Z.eq_dec m 12) as [->|N].
  - change (12 + 1) with 13. rewrite daysFromCivil_13, daysFromCivil_valid by lia.
    rewrite daysSinceEpoch_succ, daysBeforeMonth_1, daysBeforeMonth_13. lia.
  - rewrite daysFromCivil_valid by lia. lia.
Qed.

Lemma civil_in_month y m n :
  1 <= m <= 12 ->
  daysSinceEpoch y + daysBeforeMonth y m <= n
    < daysSinceEpoch y + daysBeforeMonth y (m + 1) ->
  civilYear n = y /\ civilMonth n = m /\
  civilDay n = n - daysSinceEpoch y - daysBeforeMonth y m + 1.
Proof.
  intros Hm H.
  set (d := n - daysSinceEpoch y - daysBeforeMonth y m + 1).
  assert (E : n = daysFromCivil y m d).
  { rewrite daysFromCivil_valid by exact Hm. subst d. lia. }
  rewrite daysBeforeMonth_succ in H by exact Hm.
  rewrite E. apply days_of_civil; [exact Hm | subst d; lia].
Qed.

Lemma month_span n :
  let y := civilYear n in let m := civilMonth n in
  1 <= m <= 12 /\
  daysSinceEpoch y + daysBeforeMonth y m <= n
    < daysSinceEpoch y + daysBeforeMonth y (m + 1) /\
  civilDay n = n - daysSinceEpoch y - daysBeforeMonth y m + 1.
Proof.
  cbv zeta. destruct (civil_of_days n) as (Hm & Hd & E).
  rewrite daysFromCivil_valid in E by exact Hm.
  rewrite daysBeforeMonth_succ by exact Hm. lia.
Qed.

Lemma civilDay_bounds n : 1 <= civilDay n <= 31.
Proof.
  destruct (civil_of_days n) as (Hm & Hd & _).
  pose proof (daysIn_bounds (civilYear n) (civilMonth n) Hm). lia.
Qed.

(** The day after day [n] is either the first of a month or the next day of
    the same month. *)
Lemma civil_succ n :
  civilDay (n + 1) = 1 \/
  (civilYear (n + 1) = civilYear n /\ civilMonth (n + 1) = civilMonth n /\
   civilDay (n + 1) = civilDay n + 1).
Proof.
  destruct (month_span n) as (Hm & Hs & Hd).
  set (y := civilYear n) in *. set (m := civilMonth n) in *.
  destruct (Z_lt_ge_dec (n + 1) (daysSinceEpoch y + daysBeforeMonth y (m + 1)))
    as [L|G].
  - right. destruct (civil_in_month y m (n + 1) Hm ltac:(lia)) as (A & B & C).
    rewrite A, B, C, Hd. repeat split; lia.
  - left. assert (E : n + 1 = daysFromCivil y (m + 1) 1).
    { rewrite daysFromCivil_next_month by exact Hm. lia. }
    rewrite E. destruct (Z.eq_dec m 12) as [M|M].
    + rewrite M. change (12 + 1) with 13. rewrite daysFromCivil_13.
      apply days_of_civil; [lia|]. pose proof (daysIn_bounds (y + 1) 1). lia.
    + apply days_of_civil; [lia|]. pose proof (daysIn_bounds y (m + 1)). lia.
Qed.

(** Year and month of the first of the following month. *)
Lemma civil_next_month y m :
  1 <= m <= 12 ->
  let n := daysFromCivil y (m + 1) 1 in
  civilDay n = 1 /\ civilMonth n = m mod 12 + 1 /\
  civilYear n = (if m =? 12 then y + 1 else y).
Proof.
  intros Hm n. subst n. destruct (Z.eqb_spec m 12) as [->|N].
  - change (12 + 1) with 13. rewrite daysFromCivil_13.
    destruct (days_of_civil (y + 1) 1 1) as (A & B & C); [lia| |].
    + pose proof (daysIn_bounds (y + 1) 1). lia.
    + rewrite A, B, C. repeat split; reflexivity.
  - destruct (days_of_civil y (m + 1) 1) as (A & B & C); [lia| |].
    + pose proof (daysIn_bounds y (m + 1)). lia.
    + rewrite A, B, C. repeat split; try reflexivity.
      Z.div_mod_to_equations; lia.
Qed.

Ltac unfold_units := unfold nsPerDay, Hour, Minute, Second in *.
Ltac zdm := unfold_units; Z.div_mod_to_equations; lia.

(** ** Locations without transitions *)

Lemma lookup_fixed l sec :
  fixed l -> GoTime.lookup l sec = (locOffset l, None, None).
Proof. unfold fixed, GoTime.lookup. intros ->. reflexivity. Qed.

Lemma wall_fixed t :
  fixed (loc t) -> wall t = instant t + locOffset (loc t) * Second.
Proof.
  intros F. unfold wall, offsetAt. rewrite (lookup_fixed _ _ F). reflexivity.
Qed.

Lemma dateOffset_fixed l unix : fixed l -> dateOffset l unix = locOffset l.
Proof.
  intros F. unfold dateOffset. rewrite (lookup_fixed _ _ F). cbn.
  destruct (Z.eqb_spec (locOffset l) 0); congruence.
Qed.

Lemma Date_wall y m d h mi s ns l :
  fixed l ->
  wall (Date y m d h mi s ns l)
  = daysFromCivil y m d * nsPerDay + h * Hour + mi * Minute + s * Second + ns.
Proof.
  intros F. rewrite wall_fixed by exact F. unfold Date; cbn [instant loc].
  rewrite (dateOffset_fixed _ _ F). lia.
Qed.

Lemma Add_wall t d : fixed (loc t) -> wall (Add t d) = wall t + d.
Proof.
  intros F. rewrite (wall_fixed (Add t d)) by exact F.
  rewrite (wall_fixed t F). unfold Add; cbn [instant loc]. lia.
Qed.

Lemma Time_eq a b : wall a = wall b -> loc a = loc b -> fixed (loc a) -> a = b.
Proof.
  intros W L F. rewrite (wall_fixed a F) in W.
  rewrite (wall_fixed b) in W by (rewrite <- L; exact F).
  destruct a as [ia la], b as [ib lb]; cbn [instant loc] in *. subst lb.
  f_equal. lia.
Qed.

Lemma Before_same_wall a b :
  loc a = loc b -> fixed (loc a) -> Before a b = (wall a <? wall b).
Proof.
  intros L F. unfold Before. rewrite (wall_fixed a F).
  rewrite (wall_fixed b) by (rewrite <- L; exact F). rewrite L.
  destruct (Z.ltb_spec (instant a) (instant b));
    destruct (Z.ltb_spec (instant a + locOffset (loc b) * Second)
                (instant b + locOffset (loc b) * Second)); auto; lia.
Qed.

(** ** Fields of the wall clock *)

Lemma wall_decomp t :
  wall t = dayNumber t * nsPerDay + Hour_ t * Hour + Minute_ t * Minute
           + wall t mod Minute /\
  0 <= Hour_ t < 24 /\ 0 <= Minute_ t < 60 /\ 0 <= wall t mod Minute < Minute.
Proof. unfold dayNumber, Hour_, Minute_. zdm. Qed.

Lemma civil_dayNumber t :
  daysFromCivil (Year t) (Month t) (Day t) = dayNumber t.
Proof. apply civil_of_days. Qed.

Lemma daysFromCivil_day y m d k :
  daysFromCivil y m (d + k) = daysFromCivil y m d + k.
Proof. unfold daysFromCivil. cbv zeta. lia. Qed.

Lemma Second_Nanosecond t :
  Second_ t * Second + Nanosecond_ t = wall t mod Minute.
Proof. unfold Second_, Nanosecond_. zdm. Qed.

(** Truncations written with [time.Date], as in [Next]. *)
Lemma Date_trunc_minute t :
  fixed (loc t) ->
  wall (Date (Year t) (Month t) (Day t) (Hour_ t) (Minute_ t) 0 0 (Location_ t))
  = wall t - wall t mod Minute.
Proof.
  intros F. rewrite Date_wall by exact F. rewrite civil_dayNumber.
  pose proof (wall_decomp t). lia.
Qed.

Lemma Date_trunc_hour t :
  fixed (loc t) ->
  wall (Date (Year t) (Month t) (Day t) (Hour_ t) 0 0 0 (Location_ t))
  = wall t - wall t mod Hour.
Proof.
  intros F. rewrite Date_wall by exact F. rewrite civil_dayNumber.
  unfold dayNumber, Hour_. zdm.
Qed.

Lemma Date_trunc_day t :
  fixed (loc t) ->
  wall (Date (Year t) (Month t) (Day t) 0 0 0 0 (Location_ t))
  = dayNumber t * nsPerDay.
Proof.
  intros F. rewrite Date_wall by exact F. rewrite civil_dayNumber. lia.
Qed.

Lemma dayNumber_midnight t n : wall t = n * nsPerDay -> dayNumber t = n.
Proof. unfold dayNumber. intros ->. zdm. Qed.

Lemma AddDate_wall t y m d :
  fixed (loc t) ->
  wall (AddDate t y m d)
  = daysFromCivil (Year t + y) (Month t + m) (Day t + d) * nsPerDay
    + (wall t - dayNumber t * nsPerDay).
Proof.
  intros F. unfold AddDate. rewrite Date_wall by exact F.
  pose proof (wall_decomp t). pose proof (Second_Nanosecond t). lia.
Qed.

Lemma AddDate_loc t y m d : loc (AddDate t y m d) = loc t.
Proof. reflexivity. Qed.

(** The spec-level instants, on the wall clock. *)
Lemma daysEarlier_wall r k :
  fixed (loc r) ->
  wall (daysEarlier r k) = wall r - k * nsPerDay /\
  loc (daysEarlier r k) = loc r.
Proof.
  intros F. unfold daysEarlier. rewrite Add_wall by exact F.
  split; [lia|reflexivity].
Qed.

Lemma truncMinute_wall t :
  fixed (loc t) ->
  wall (truncMinute t) = wall t - wall t mod Minute /\
  loc (truncMinute t) = loc t.
Proof.
  intros F. unfold truncMinute. rewrite Add_wall by exact F.
  split; [lia|reflexivity].
Qed.

(** ** Matching never panics on non-zero steps *)

Lemma rangeSpec_matches_ok r i :
  step r <> 0 -> rangeSpec_matches r i = Ret (rangeSpec_matchesb r i).
Proof.
  intros H. unfold rangeSpec_matches, rangeSpec_matchesb.
  destruct ((start r <=? i) && (i <=? end_ r)); [|reflexivity].
  destruct (Z.eqb_spec (step r) 0); [contradiction|reflexivity].
Qed.

Lemma listSpec_matches_ok l i :
  steps_nonzero l -> listSpec_matches l i = Ret (listSpec_matchesb l i).
Proof.
  induction 1 as [|r l Hr Hl IH]; cbn; [reflexivity|].
  rewrite (rangeSpec_matches_ok r i Hr). cbn.
  destruct (rangeSpec_matchesb r i); [reflexivity|exact IH].
Qed.

Lemma dayMatches_pure s t :
  steps_nonzero (day s) -> steps_nonzero (weekday s) ->
  dayMatches s t = Ret (dayMatchesb s t).
Proof.
  intros Hd Hw. unfold dayMatches, dayMatchesb.
  rewrite (listSpec_matches_ok _ _ Hd), (listSpec_matches_ok _ _ Hw). cbn.
  destruct (_ || _); reflexivity.
Qed.

Lemma dayMatches_ok s t :
  Schedule_ok s -> dayMatches s t = Ret (dayMatchesb s t).
Proof.
  intros H. apply dayMatches_pure; [apply (ok_day s H)|apply (ok_weekday s H)].
Qed.

Lemma rangeSpec_matchesb_iff r i :
  rangeSpec_matchesb r i = true <-> in_range r i.
Proof.
  unfold rangeSpec_matchesb, in_range.
  rewrite !andb_true_iff, !Z.leb_le, Z.eqb_eq. tauto.
Qed.

Lemma listSpec_matchesb_iff l i : listSpec_matchesb l i = true <-> in_list l i.
Proof.
  unfold listSpec_matchesb, in_list. rewrite existsb_exists, Exists_exists.
  split; intros (r & Hr & H); exists r; split; auto;
    apply rangeSpec_matchesb_iff; exact H.
Qed.

(** ** [adv] is a preorder *)

Lemma adv_refl s t : adv s t t.
Proof. split; auto; try lia. intros u _ Hw; lia. Qed.

Lemma adv_trans s a b c : adv s a b -> adv s b c -> adv s a c.
Proof.
  intros [L1 O1 Q1 A1] [L2 O2 Q2 A2]. split; auto.
  - congruence.
  - lia.
  - intros u Lu Hw. destruct (Z_lt_ge_dec (wall u) (wall b)).
    + apply Q1; [exact Lu|lia].
    + apply Q2; [congruence|lia].
Qed.

(** ** Fields depend on the wall clock only *)

Lemma fires_month_false s t :
  listSpec_matchesb (month s) (Month t) = false -> fires s t = false.
Proof. unfold fires. intros ->. reflexivity. Qed.

Lemma fires_day_false s t : dayMatchesb s t = false -> fires s t = false.
Proof. unfold fires. intros ->. rewrite andb_false_r. reflexivity. Qed.

Lemma fires_hour_false s t :
  listSpec_matchesb (hour s) (Hour_ t) = false -> fires s t = false.
Proof. unfold fires. intros ->. rewrite andb_false_r. reflexivity. Qed.

Lemma fires_minute_false s t :
  listSpec_matchesb (minute s) (Minute_ t) = false -> fires s t = false.
Proof. unfold fires. intros ->. rewrite andb_false_r. reflexivity. Qed.

Lemma dayMatchesb_same_day s t u :
  dayNumber u = dayNumber t -> dayMatchesb s u = dayMatchesb s t.
Proof. intros E. unfold dayMatchesb, Day, Weekday. rewrite E. reflexivity. Qed.

Lemma Month_same_day t u : dayNumber u = dayNumber t -> Month u = Month t.
Proof. intros E. unfold Month. rewrite E. reflexivity. Qed.

(** ** One step of each loop *)

Lemma startOfNextMonth_wall t :
  fixed (loc t) ->
  wall (startOfNextMonth t)
  = daysFromCivil (Year t) (Month t + 1) 1 * nsPerDay /\
  loc (startOfNextMonth t) = loc t.
Proof.
  intros F. unfold startOfNextMonth. split; [|reflexivity].
  rewrite AddDate_wall by exact F.
  set (t1 := Date (Year t) (Month t) 1 0 0 0 0 (Location_ t)).
  destruct (civil_of_days (dayNumber t)) as (Hm & _ & _). fold (Month t) in Hm.
  assert (W1 : wall t1 = daysFromCivil (Year t) (Month t) 1 * nsPerDay).
  { unfold t1. rewrite Date_wall by exact F. lia. }
  assert (E1 : dayNumber t1 = daysFromCivil (Year t) (Month t) 1)
    by (apply dayNumber_midnight, W1).
  destruct (days_of_civil (Year t) (Month t) 1 Hm) as (A & B & C).
  { pose proof (daysIn_bounds (Year t) (Month t) Hm). lia. }
  unfold Year at 1, Month at 1, Day at 1. rewrite E1, A, B, C, W1.
  rewrite !Z.add_0_r. lia.
Qed.

Lemma month_step s t :
  fixed (loc t) ->
  listSpec_matchesb (month s) (Month t) = false ->
  adv s t (startOfNextMonth t) /\ wall t < wall (startOfNextMonth t) /\
  aligned (startOfNextMonth t) /\
  Month (startOfNextMonth t) = Month t mod 12 + 1.
Proof.
  intros F Hm. destruct (startOfNextMonth_wall t F) as [W L].
  revert W L. generalize (startOfNextMonth t). intros t' W L.
  destruct (month_span (dayNumber t)) as (Hr & Hs & _).
  fold (Year t) (Month t) in Hr, Hs.
  pose proof (daysFromCivil_next_month (Year t) (Month t) Hr) as E.
  assert (Hlt : wall t < wall t').
  { rewrite W, E. unfold dayNumber in Hs. zdm. }
  split; [|split; [exact Hlt|split]].
  - split; auto; [lia| |].
    + intros u _ Hw. apply fires_month_false.
      assert (Hn : dayNumber t <= dayNumber u
                   < daysFromCivil (Year t) (Month t + 1) 1).
      { rewrite W in Hw. unfold dayNumber. clear - Hw. zdm. }
      destruct (civil_in_month (Year t) (Month t) (dayNumber u) Hr
                  ltac:(lia)) as (_ & B & _).
      unfold Month at 1. rewrite B. exact Hm.
    + intros _. unfold aligned. rewrite W. clear. zdm.
  - unfold aligned. rewrite W. clear. zdm.
  - unfold Month at 1, dayNumber. rewrite W.
    replace (daysFromCivil (Year t) (Month t + 1) 1 * nsPerDay / nsPerDay)
      with (daysFromCivil (Year t) (Month t + 1) 1) by (clear; zdm).
    apply (civil_next_month (Year t) (Month t) Hr).
Qed.

Lemma startOfNextDay_wall t :
  fixed (loc t) ->
  wall (startOfNextDay t) = (dayNumber t + 1) * nsPerDay /\
  loc (startOfNextDay t) = loc t.
Proof.
  intros F. unfold startOfNextDay. split; [|reflexivity].
  pose proof (Date_trunc_day t F) as W1. revert W1.
  set (t1 := Date (Year t) (Month t) (Day t) 0 0 0 0 (Location_ t)).
  intros W1. rewrite AddDate_wall by exact F.
  pose proof (dayNumber_midnight _ _ W1) as E1.
  unfold Year, Month, Day. rewrite E1, W1.
  rewrite !Z.add_0_r, daysFromCivil_day.
  rewrite (proj2 (proj2 (civil_of_days (dayNumber t)))). lia.
Qed.

Lemma day_step s t :
  fixed (loc t) ->
  dayMatchesb s t = false ->
  adv s t (startOfNextDay t) /\ wall t < wall (startOfNextDay t) /\
  aligned (startOfNextDay t) /\
  dayNumber (startOfNextDay t) = dayNumber t + 1 /\
  Hour_ (startOfNextDay t) = 0 /\ Minute_ (startOfNextDay t) = 0 /\
  (Day (startOfNextDay t) = 1 \/
   (Month (startOfNextDay t) = Month t /\ Day (startOfNextDay t) = Day t + 1)).
Proof.
  intros F Hd. destruct (startOfNextDay_wall t F) as [W L].
  revert W L. generalize (startOfNextDay t). intros t' W L.
  assert (N : dayNumber t' = dayNumber t + 1).
  { unfold dayNumber. rewrite W. unfold dayNumber. clear. zdm. }
  assert (Hlt : wall t < wall t').
  { rewrite W. unfold dayNumber. clear. zdm. }
  split; [|split; [exact Hlt|split; [|split; [exact N|split; [|split]]]]].
  - split; auto; [lia| |].
    + intros u _ Hw. apply fires_day_false.
      rewrite <- Hd. apply dayMatchesb_same_day.
      rewrite W in Hw. unfold dayNumber in *. clear - Hw. zdm.
    + intros _. unfold aligned. rewrite W. clear. zdm.
  - unfold aligned. rewrite W. clear. zdm.
  - unfold Hour_. rewrite W. clear. zdm.
  - unfold Minute_. rewrite W. clear. zdm.
  - unfold Day, Month. rewrite N.
    destruct (civil_succ (dayNumber t)) as [A|(_ & B & C)]; [left|right]; auto.
Qed.

Lemma startOfNextHour_wall t :
  fixed (loc t) ->
  wall (startOfNextHour t) = wall t - wall t mod Hour + Hour /\
  loc (startOfNextHour t) = loc t.
Proof.
  intros F. unfold startOfNextHour. rewrite Add_wall by exact F.
  rewrite Date_trunc_hour by exact F. split; [lia|reflexivity].
Qed.

Lemma hour_step s t :
  fixed (loc t) ->
  listSpec_matchesb (hour s) (Hour_ t) = false ->
  adv s t (startOfNextHour t) /\ wall t < wall (startOfNextHour t) /\
  aligned (startOfNextHour t) /\ Minute_ (startOfNextHour t) = 0 /\
  wall (startOfNextHour t) - Hour <= wall t /\
  (Hour_ (startOfNextHour t) = 0 /\
   dayNumber (startOfNextHour t) = dayNumber t + 1 \/
   Hour_ (startOfNextHour t) = Hour_ t + 1 /\
   dayNumber (startOfNextHour t) = dayNumber t).
Proof.
  intros F Hh. destruct (startOfNextHour_wall t F) as [W L].
  revert W L. generalize (startOfNextHour t). intros t' W L.
  assert (Hlt : wall t < wall t') by (rewrite W; clear; zdm).
  split; [|split; [exact Hlt|split; [|split; [|split]]]].
  - split; auto; [lia| |].
    + intros u _ Hw. apply fires_hour_false. rewrite <- Hh. f_equal.
      rewrite W in Hw. unfold Hour_. clear - Hw. zdm.
    + intros _. unfold aligned. rewrite W. clear. zdm.
  - unfold aligned. rewrite W. clear. zdm.
  - unfold Minute_. rewrite W. clear. zdm.
  - rewrite W. clear. zdm.
  - unfold Hour_, dayNumber. rewrite W. clear. zdm.
Qed.

Lemma startOfNextMinute_wall t :
  fixed (loc t) ->
  wall (startOfNextMinute t) = wall t - wall t mod Minute + Minute /\
  loc (startOfNextMinute t) = loc t.
Proof.
  intros F. unfold startOfNextMinute. rewrite Add_wall by exact F.
  rewrite Date_trunc_minute by exact F. split; [lia|reflexivity].
Qed.

Lemma minute_step s t :
  fixed (loc t) ->
  listSpec_matchesb (minute s) (Minute_ t) = false ->
  adv s t (startOfNextMinute t) /\ wall t < wall (startOfNextMinute t) /\
  aligned (startOfNextMinute t) /\
  wall (startOfNextMinute t) - Minute <= wall t /\
  (Minute_ (startOfNextMinute t) = 0 \/
   Minute_ (startOfNextMinute t) = Minute_ t + 1 /\
   Hour_ (startOfNextMinute t) = Hour_ t /\
   dayNumber (startOfNextMinute t) = dayNumber t).
Proof.
  intros F Hh. destruct (startOfNextMinute_wall t F) as [W L].
  revert W L. generalize (startOfNextMinute t). intros t' W L.
  assert (Hlt : wall t < wall t') by (rewrite W; clear; zdm).
  split; [|split; [exact Hlt|split; [|split]]].
  - split; auto; [lia| |].
    + intros u _ Hw. apply fires_minute_false. rewrite <- Hh. f_equal.
      rewrite W in Hw. unfold Minute_. clear - Hw. zdm.
    + intros _. unfold aligned. rewrite W. clear. zdm.
  - unfold aligned. rewrite W. clear. zdm.
  - rewrite W. clear. zdm.
  - unfold Minute_, Hour_, dayNumber. rewrite W. clear. zdm.
Qed.

Lemma minute_step_aligned t :
  fixed (loc t) ->
  aligned (startOfNextMinute t) /\
  wall t - wall t mod Minute < wall (startOfNextMinute t).
Proof.
  intros F. destruct (startOfNextMinute_wall t F) as [W _].
  unfold aligned. rewrite W.
  split; zdm.
Qed.

(** ** A [for] loop with a measure *)

Section ForLoop.
Variable L : nat -> Time -> res flow.
Variable condb : Time -> bool.
Variable stp : Time -> Time.
Variable wr : Time -> bool.
Hypothesis L_S : forall f t,
  L (S f) t = if condb t then Ret (Through t)
              else if wr (stp t) then Ret (ContinueWrap (stp t))
              else L f (stp t).
Variable mu : Time -> Z.
Variable Inv : Time -> Prop.
Variable R : Time -> Time -> Prop.
Hypothesis R_refl : forall t, R t t.
Hypothesis R_trans : forall a b c, R a b -> R b c -> R a c.
Hypothesis mu_nonneg : forall t, Inv t -> 0 <= mu t.
Hypothesis step_ok : forall t, Inv t -> condb t = false ->
  R t (stp t) /\ (wr (stp t) = false -> Inv (stp t) /\ mu (stp t) < mu t).

Let outcome := loop_outcome condb stp wr Inv R.

Lemma forLoop_run_aux :
  forall n t, Inv t -> mu t <= Z.of_nat n ->
  exists fl, (forall fuel, (n < fuel)%nat -> L fuel t = Ret fl)
             /\ outcome t fl.
Proof.
  assert (Stop : forall n t, Inv t -> condb t = true ->
            exists fl, (forall fuel, (n < fuel)%nat -> L fuel t = Ret fl)
                       /\ outcome t fl).
  { intros n t Hi C. exists (Through t). split.
    - intros [|f] Hf; [lia|]. rewrite L_S, C. reflexivity.
    - cbn. auto. }
  assert (Wrap : forall n t, Inv t -> condb t = false ->
            wr (stp t) = true ->
            exists fl, (forall fuel, (n < fuel)%nat -> L fuel t = Ret fl)
                       /\ outcome t fl).
  { intros n t Hi C W. exists (ContinueWrap (stp t)). split.
    - intros [|f] Hf; [lia|]. rewrite L_S, C, W. reflexivity.
    - cbn. exists t. auto. }
  induction n as [|n IH]; intros t Hi Hmu;
    (destruct (condb t) eqn:C; [apply Stop; assumption|]);
    destruct (step_ok t Hi C) as [Hr Hs];
    (destruct (wr (stp t)) eqn:W; [apply Wrap; assumption|]);
    destruct (Hs eq_refl) as [Hi' Hlt].
  - pose proof (mu_nonneg _ Hi'). lia.
  - destruct (IH (stp t) Hi' ltac:(lia)) as (fl & Hrun & Hout).
    exists fl. split.
    + intros [|f] Hf; [lia|]. rewrite L_S, C, W. apply Hrun. lia.
    + destruct fl as [t'|c]; cbn in *.
      * destruct Hout as (A & B & D). eauto.
      * destruct Hout as (p & Ec & A & B & D & E).
        exists p. eauto 6.
Qed.

Lemma forLoop_run t (bound : nat) :
  Inv t -> mu t <= Z.of_nat bound ->
  exists fl, (forall fuel, (bound < fuel)%nat -> L fuel t = Ret fl)
             /\ loop_outcome condb stp wr Inv R t fl.
Proof. intros. eapply forLoop_run_aux; eauto. Qed.
End ForLoop.

(** ** The loops of [Next] on schedules without zero steps *)

Section Loops.
Variable s : Schedule.
Hypothesis Hok : Schedule_ok s.

Lemma monthLoop_S f t :
  monthLoop (S f) s t =
  if listSpec_matchesb (month s) (Month t) then Ret t
  else monthLoop f s (startOfNextMonth t).
Proof.
  cbn [monthLoop]. rewrite (listSpec_matches_ok _ _ (ok_month s Hok)).
  reflexivity.
Qed.

Lemma dayLoop_S f t :
  dayLoop (S f) s t =
  if dayMatchesb s t then Ret (Through t)
  else if Day (startOfNextDay t) =? 1
       then Ret (ContinueWrap (startOfNextDay t))
       else dayLoop f s (startOfNextDay t).
Proof. cbn [dayLoop]. rewrite (dayMatches_ok _ _ Hok). reflexivity. Qed.

Lemma hourLoop_S f t :
  hourLoop (S f) s t =
  if listSpec_matchesb (hour s) (Hour_ t) then Ret (Through t)
  else if Hour_ (startOfNextHour t) =? 0
       then Ret (ContinueWrap (startOfNextHour t))
       else hourLoop f s (startOfNextHour t).
Proof.
  cbn [hourLoop]. rewrite (listSpec_matches_ok _ _ (ok_hour s Hok)).
  reflexivity.
Qed.

Lemma minuteLoop_S f t :
  minuteLoop (S f) s t =
  if listSpec_matchesb (minute s) (Minute_ t) then Ret (Through t)
  else if Minute_ (startOfNextMinute t) =? 0
       then Ret (ContinueWrap (startOfNextMinute t))
       else minuteLoop f s (startOfNextMinute t).
Proof.
  cbn [minuteLoop]. rewrite (listSpec_matches_ok _ _ (ok_minute s Hok)).
  reflexivity.
Qed.

(** The month loop stops within twelve months, at the candidate itself or
    at the first instant of the first admitted month. *)
Lemma monthLoop_run_aux mm :
  1 <= mm <= 12 -> listSpec_matchesb (month s) mm = true ->
  forall n t, fixed (loc t) -> (mm - Month t) mod 12 = Z.of_nat n ->
  exists t', (forall fuel, (n < fuel)%nat -> monthLoop fuel s t = Ret t')
             /\ adv s t t'
             /\ listSpec_matchesb (month s) (Month t') = true.
Proof.
  intros Hmm Hm. induction n as [|n IH]; intros t F Hn.
  - exists t. assert (Month t = mm).
    { destruct (civil_of_days (dayNumber t)) as (Hr & _).
      fold (Month t) in Hr. Z.div_mod_to_equations. lia. }
    split; [|split; [apply adv_refl|congruence]].
    intros [|f] Hf; [lia|]. rewrite monthLoop_S. replace (Month t) with mm.
    rewrite Hm. reflexivity.
  - destruct (listSpec_matchesb (month s) (Month t)) eqn:C.
    + exists t. split; [|split; [apply adv_refl|exact C]].
      intros [|f] Hf; [lia|]. rewrite monthLoop_S, C. reflexivity.
    + destruct (month_step s t F C) as (A & Hlt & Hal & HM).
      destruct (IH (startOfNextMonth t) F) as (t' & Hrun & Hadv & Hmt).
      { rewrite HM. destruct (civil_of_days (dayNumber t)) as (Hr & _).
        fold (Month t) in Hr. Z.div_mod_to_equations. lia. }
      exists t'. split; [|split; [|exact Hmt]].
      * intros [|f] Hf; [lia|]. rewrite monthLoop_S, C. apply Hrun. lia.
      * eapply adv_trans; eauto.
Qed.

Lemma monthLoop_run t :
  fixed (loc t) ->
  exists t', (forall fuel, (12 < fuel)%nat -> monthLoop fuel s t = Ret t')
             /\ adv s t t'
             /\ listSpec_matchesb (month s) (Month t') = true.
Proof.
  intros F. destruct (ok_some_month s Hok) as (mm & Hmm & Hm).
  destruct (monthLoop_run_aux mm Hmm Hm
              (Z.to_nat ((mm - Month t) mod 12)) t F) as (t' & Hrun & H).
  { rewrite Z2Nat.id; [reflexivity|]. Z.div_mod_to_equations. lia. }
  exists t'. split; [|exact H].
  intros fuel Hf. apply Hrun.
  assert ((mm - Month t) mod 12 < 12) by (Z.div_mod_to_equations; lia).
  lia.
Qed.

Lemma dayLoop_run t :
  fixed (loc t) -> monthb s t = true ->
  exists fl, (forall fuel, (31 < fuel)%nat -> dayLoop fuel s t = Ret fl) /\
    match fl with
    | Through t' => adv s t t' /\ monthb s t' = true /\ dayMatchesb s t' = true
    | ContinueWrap c =>
        adv s t c /\ wall t < wall c /\ aligned c /\ Day c = 1
    end.
Proof.
  intros F Hm.
  destruct (forLoop_run (fun f t => dayLoop f s t) (dayMatchesb s)
              startOfNextDay (fun t => Day t =? 1) dayLoop_S
              (fun t => 31 - Day t)
              (fun t => fixed (loc t) /\ monthb s t = true) (adv s)
              (adv_refl s) (adv_trans s)) with (t := t) (bound := 31%nat)
    as (fl & Hrun & Hout).
  - intros u _. pose proof (civilDay_bounds (dayNumber u)). unfold Day. lia.
  - intros u [Fu Hu] C.
    destruct (day_step s u Fu C) as (A & _ & _ & N & _ & _ & D).
    split; [exact A|]. intros W. apply Z.eqb_neq in W.
    destruct D as [D|[D1 D2]]; [contradiction|].
    split; [split; [exact Fu|unfold monthb; rewrite D1; exact Hu] | lia].
  - split; [exact F|exact Hm].
  - pose proof (civilDay_bounds (dayNumber t)). unfold Day. lia.
  - exists fl. split; [exact Hrun|].
    destruct fl as [t'|c]; cbn in Hout.
    + destruct Hout as (A & [_ B] & C). auto.
    + destruct Hout as (p & -> & A & [Fp B] & C & D).
      destruct (day_step s p Fp C) as (A' & Hlt & Hal & _).
      apply Z.eqb_eq in D. pose proof (adv_le _ _ _ A).
      split; [eapply adv_trans; eauto|]. split; [lia|]. auto.
Qed.

Lemma hourLoop_run t :
  fixed (loc t) -> monthb s t = true -> dayMatchesb s t = true ->
  exists fl, (forall fuel, (24 < fuel)%nat -> hourLoop fuel s t = Ret fl) /\
    match fl with
    | Through t' => adv s t t' /\ monthb s t' = true /\
                    dayMatchesb s t' = true /\ hourb s t' = true
    | ContinueWrap c =>
        adv s t c /\ wall t < wall c /\ aligned c /\ recent_firing s c
    end.
Proof.
  intros F Hm Hd.
  destruct (forLoop_run (fun f t => hourLoop f s t) (hourb s)
              startOfNextHour (fun t => Hour_ t =? 0) hourLoop_S
              (fun t => 23 - Hour_ t)
              (fun t => fixed (loc t) /\ monthb s t = true
                        /\ dayMatchesb s t = true) (adv s)
              (adv_refl s) (adv_trans s)) with (t := t) (bound := 24%nat)
    as (fl & Hrun & Hout).
  - intros u _. pose proof (wall_decomp u). lia.
  - intros u (Fu & Hu1 & Hu2) C.
    destruct (hour_step s u Fu C) as (A & _ & _ & _ & _ & D).
    split; [exact A|]. intros W. apply Z.eqb_neq in W.
    destruct D as [[D _]|[D1 D2]]; [contradiction|].
    split; [|lia]. split; [exact Fu|]. split.
    + unfold monthb. rewrite (Month_same_day _ _ D2). exact Hu1.
    + rewrite (dayMatchesb_same_day _ _ _ D2). exact Hu2.
  - auto.
  - pose proof (wall_decomp t). lia.
  - exists fl. split; [exact Hrun|].
    destruct fl as [t'|c]; cbn in Hout.
    + destruct Hout as (A & (_ & B1 & B2) & C). auto.
    + destruct Hout as (p & -> & A & (Fp & B1 & B2) & C & D).
      destruct (hour_step s p Fp C) as (A' & Hlt & Hal & HM & _ & HD).
      assert (Fc : fixed (loc (startOfNextHour p))) by exact Fp.
      apply Z.eqb_eq in D. pose proof (adv_le _ _ _ A).
      destruct HD as [[_ HD]|[HD _]]; [|pose proof (wall_decomp p); lia].
      split; [eapply adv_trans; eauto|]. split; [lia|]. split; [exact Hal|].
      revert Fc Hal HM D HD. generalize (startOfNextHour p).
      intros c Fc Hal HM D HD.
      intros Hf. exists (Add c (- nsPerDay)).
      pose proof (Add_wall c (- nsPerDay) Fc) as Wq. revert Wq.
      generalize (eq_refl : loc (Add c (- nsPerDay)) = loc c).
      generalize (Add c (- nsPerDay)). intros q Lq Wq.
      assert (E : dayNumber q = dayNumber p
                  /\ Hour_ q = Hour_ c /\ Minute_ q = Minute_ c).
      { unfold dayNumber, Hour_, Minute_ in *. rewrite Wq. clear - HD. zdm. }
      destruct E as (E1 & E2 & E3).
      split; [exact Lq|]. split.
      { unfold aligned in *. rewrite Wq. clear - Hal. zdm. }
      split; [rewrite Wq; unfold_units; lia|].
      unfold fires in *. rewrite (Month_same_day _ _ E1), E2, E3.
      rewrite (dayMatchesb_same_day _ _ _ E1).
      unfold monthb in B1. rewrite B1, B2. cbn [andb].
      apply andb_true_iff in Hf. destruct Hf as [Hf Hf3].
      apply andb_true_iff in Hf. destruct Hf as [Hf Hf2].
      rewrite Hf2, Hf3. reflexivity.
Qed.

Lemma minuteLoop_run t :
  fixed (loc t) ->
  monthb s t = true -> dayMatchesb s t = true -> hourb s t = true ->
  exists fl, (forall fuel, (60 < fuel)%nat -> minuteLoop fuel s t = Ret fl) /\
    match fl with
    | Through t' => adv s t t' /\ fires s t' = true
    | ContinueWrap c =>
        adv s t c /\ wall t < wall c /\ aligned c /\ recent_firing s c
    end.
Proof.
  intros F Hm Hd Hh.
  destruct (forLoop_run (fun f t => minuteLoop f s t) (minuteb s)
              startOfNextMinute (fun t => Minute_ t =? 0) minuteLoop_S
              (fun t => 59 - Minute_ t)
              (fun t => fixed (loc t) /\ monthb s t = true
                        /\ dayMatchesb s t = true
                        /\ hourb s t = true) (adv s)
              (adv_refl s) (adv_trans s)) with (t := t) (bound := 60%nat)
    as (fl & Hrun & Hout).
  - intros u _. pose proof (wall_decomp u). lia.
  - intros u (Fu & Hu1 & Hu2 & Hu3) C.
    destruct (minute_step s u Fu C) as (A & _ & _ & _ & D).
    split; [exact A|]. intros W. apply Z.eqb_neq in W.
    destruct D as [D|(D1 & D2 & D3)]; [contradiction|].
    split; [|lia]. split; [exact Fu|]. split; [|split].
    + unfold monthb. rewrite (Month_same_day _ _ D3). exact Hu1.
    + rewrite (dayMatchesb_same_day _ _ _ D3). exact Hu2.
    + unfold hourb. rewrite D2. exact Hu3.
  - auto.
  - pose proof (wall_decomp t). lia.
  - exists fl. split; [exact Hrun|].
    destruct fl as [t'|c]; cbn in Hout;
      [destruct Hout as (A & (_ & B1 & B2 & B3) & C)
      |destruct Hout as (p & -> & A & (Fp & B1 & B2 & B3) & C & D)].
    + split; [exact A|]. unfold fires. unfold monthb in B1.
      unfold hourb in B3. unfold minuteb in C. rewrite B1, B2, B3, C.
      reflexivity.
    + destruct (minute_step s p Fp C) as (A' & Hlt & Hal & Hge & _).
      assert (Fc : fixed (loc (startOfNextMinute p))) by exact Fp.
      apply Z.eqb_eq in D. pose proof (adv_le _ _ _ A).
      split; [eapply adv_trans; eauto|]. split; [lia|]. split; [exact Hal|].
      revert Fc Hal Hlt Hge D. generalize (startOfNextMinute p).
      intros c Fc Hal Hlt Hge D.
      intros Hf. exists (Add c (- Hour)).
      pose proof (Add_wall c (- Hour) Fc) as Wq. revert Wq.
      generalize (eq_refl : loc (Add c (- Hour)) = loc c).
      generalize (Add c (- Hour)). intros q Lq Wq.
      assert (E : dayNumber q = dayNumber p
                  /\ Hour_ q = Hour_ p /\ Minute_ q = Minute_ c).
      { unfold dayNumber, Hour_, Minute_, aligned in *. rewrite Wq.
        clear - Hal Hlt Hge D. zdm. }
      destruct E as (E1 & E2 & E3).
      split; [exact Lq|]. split.
      { unfold aligned in *. rewrite Wq. clear - Hal. zdm. }
      split; [rewrite Wq; unfold_units; lia|].
      unfold fires in *. rewrite (Month_same_day _ _ E1), E2, E3.
      rewrite (dayMatchesb_same_day _ _ _ E1).
      unfold monthb in B1. unfold hourb in B3. rewrite B1, B2, B3.
      cbn [andb].
      apply andb_true_iff in Hf. destruct Hf as [_ Hf3]. exact Hf3.
Qed.

Section Wrap.
Variables horizon t0 : Time.
Hypothesis Hloc : loc horizon = loc t0.
Hypothesis Hfix : fixed (loc t0).

Lemma Before_same_loc (c : Time) :
  loc c = loc t0 -> Before c horizon = (wall c <? wall horizon).
Proof.
  intros E. apply Before_same_wall; [congruence|]. rewrite E. exact Hfix.
Qed.

Lemma wrapLoop_run :
  forall n c, adv s t0 c -> (c = t0 \/ wrapped s c) ->
  wall horizon - wall c <= Z.of_nat n ->
  exists r, (forall fuel, (n + 61 < fuel)%nat ->
                          wrapLoop fuel s horizon c = Ret r)
            /\ wrap_outcome s horizon t0 r.
Proof.
  induction n as [|n IH]; intros c Hadv Hc Hn;
    pose proof (Before_same_loc c (adv_loc _ _ _ Hadv)) as HB;
    destruct (Z.ltb_spec (wall c) (wall horizon)) as [Hlt|Hge];
    try lia.
  - exists zeroTime. split; [|right; split; [reflexivity|]; eauto].
    intros [|f] Hf; [lia|]. cbn [wrapLoop]. rewrite HB. reflexivity.
  - assert (IH' : forall c', adv s c c' -> wall c < wall c' -> wrapped s c' ->
              exists r, (forall fuel, (n + 61 < fuel)%nat ->
                           wrapLoop fuel s horizon c' = Ret r)
                        /\ wrap_outcome s horizon t0 r).
    { intros c' A L W. apply IH; [eapply adv_trans; eauto|auto|lia]. }
    assert (Fc : fixed (loc c))
      by (rewrite (adv_loc _ _ _ Hadv); exact Hfix).
    destruct (monthLoop_run c Fc) as (t1 & R1 & A1 & M1).
    assert (F1 : fixed (loc t1)) by (rewrite (adv_loc _ _ _ A1); exact Fc).
    destruct (dayLoop_run t1 F1 M1) as ([t2|c2] & R2 & P2).
    + destruct P2 as (A2 & M2 & D2).
      assert (F2 : fixed (loc t2))
        by (rewrite (adv_loc _ _ _ A2); exact F1).
      destruct (hourLoop_run t2 F2 M2 D2) as ([t3|c3] & R3 & P3).
      * destruct P3 as (A3 & M3 & D3 & H3).
        assert (F3 : fixed (loc t3))
          by (rewrite (adv_loc _ _ _ A3); exact F2).
        destruct (minuteLoop_run t3 F3 M3 D3 H3) as ([t4|c4] & R4 & P4).
        -- destruct P4 as (A4 & F4). exists t4. split.
           ++ intros [|f] Hf; [lia|]. cbn [wrapLoop]. rewrite HB.
              rewrite R1 by lia. cbn [bind]. rewrite R2 by lia.
              cbn [bind]. rewrite R3 by lia. cbn [bind].
              rewrite R4 by lia. reflexivity.
           ++ left. split; [|exact F4].
              exact (adv_trans _ _ _ _ Hadv (adv_trans _ _ _ _ A1
                       (adv_trans _ _ _ _ A2 (adv_trans _ _ _ _ A3 A4)))).
        -- destruct P4 as (A4 & L4 & _ & W4).
           pose proof (adv_le _ _ _ A1). pose proof (adv_le _ _ _ A2).
           pose proof (adv_le _ _ _ A3).
           destruct (IH' c4) as (r & Rr & Or).
           { exact (adv_trans _ _ _ _ A1 (adv_trans _ _ _ _ A2
                      (adv_trans _ _ _ _ A3 A4))). }
           { lia. } { right; exact W4. }
           exists r. split; [|exact Or].
           intros [|f] Hf; [lia|]. cbn [wrapLoop]. rewrite HB.
           rewrite R1 by lia. cbn [bind]. rewrite R2 by lia.
           cbn [bind]. rewrite R3 by lia. cbn [bind].
           rewrite R4 by lia. cbn [bind]. apply Rr. lia.
      * destruct P3 as (A3 & L3 & _ & W3).
        pose proof (adv_le _ _ _ A1). pose proof (adv_le _ _ _ A2).
        destruct (IH' c3) as (r & Rr & Or).
        { exact (adv_trans _ _ _ _ A1 (adv_trans _ _ _ _ A2 A3)). }
        { lia. } { right; exact W3. }
        exists r. split; [|exact Or].
        intros [|f] Hf; [lia|]. cbn [wrapLoop]. rewrite HB.
        rewrite R1 by lia. cbn [bind]. rewrite R2 by lia.
        cbn [bind]. rewrite R3 by lia. cbn [bind]. apply Rr. lia.
    + destruct P2 as (A2 & L2 & _ & W2).
      pose proof (adv_le _ _ _ A1).
      destruct (IH' c2) as (r & Rr & Or).
      { exact (adv_trans _ _ _ _ A1 A2). }
      { lia. } { left; exact W2. }
      exists r. split; [|exact Or].
      intros [|f] Hf; [lia|]. cbn [wrapLoop]. rewrite HB.
      rewrite R1 by lia. cbn [bind]. rewrite R2 by lia.
      cbn [bind]. apply Rr. lia.
  - exists zeroTime. split; [|right; split; [reflexivity|]; eauto].
    intros [|f] Hf; [lia|]. cbn [wrapLoop]. rewrite HB. reflexivity.
Qed.
End Wrap.
End Loops.

(** ** Calendar distances *)

Lemma isLeap_false y :
  isLeap y = false <-> ~ (y mod 4 = 0 /\ (y mod 100 <> 0 \/ y mod 400 = 0)).
Proof. rewrite <- isLeap_spec. destruct (isLeap y); split; congruence. Qed.

Ltac leap_cases y :=
  let E := fresh "E" in
  destruct (isLeap y) eqn:E;
  [apply isLeap_spec in E | apply isLeap_false in E].

Lemma daysSinceEpoch_diff y k :
  0 <= k -> 365 * k <= daysSinceEpoch (y + k) - daysSinceEpoch y <= 366 * k.
Proof. intros. unfold daysSinceEpoch. Z.div_mod_to_equations. lia. Qed.

Lemma eight_years y m :
  1 <= m <= 12 ->
  2921 <= daysSinceEpoch (y + 8) + daysBeforeMonth (y + 8) m
          - (daysSinceEpoch y + daysBeforeMonth y m) <= 2923.
Proof.
  intros Hm. unfold daysBeforeMonth.
  leap_cases y; leap_cases (y + 8); destruct (3 <=? m); cbn [andb];
    unfold daysSinceEpoch; Z.div_mod_to_equations; lia.
Qed.

Lemma daysIn_feb y : daysIn y 2 = if isLeap y then 29 else 28.
Proof. unfold daysIn, daysBeforeMonth. destruct (isLeap y); reflexivity. Qed.

Lemma daysIn_other y y' m : 1 <= m <= 12 -> m <> 2 -> daysIn y m = daysIn y' m.
Proof.
  intros Hm N. unfold daysIn, daysBeforeMonth.
  destruct (isLeap y), (isLeap y'); month_cases m; cbn; lia.
Qed.

Lemma previous_year y m d :
  1 <= m <= 12 -> 1 <= d <= daysIn y m -> ~ (m = 2 /\ d = 29) ->
  1 <= d <= daysIn (y - 1) m /\
  365 <= daysFromCivil y m d - daysFromCivil (y - 1) m d <= 366.
Proof.
  intros Hm Hd N. split.
  - destruct (Z.eq_dec m 2) as [->|M].
    + rewrite daysIn_feb in *. destruct (isLeap y), (isLeap (y - 1)); lia.
    + rewrite (daysIn_other (y - 1) y) by assumption. exact Hd.
  - rewrite !daysFromCivil_valid by exact Hm.
    pose proof (daysSinceEpoch_succ (y - 1)) as S1.
    replace (y - 1 + 1) with y in S1 by lia.
    unfold yearLen, daysBeforeMonth in *.
    leap_cases y; leap_cases (y - 1); destruct (3 <=? m) eqn:M3; cbn [andb];
      lia.
Qed.

Lemma previous_leap_day y :
  isLeap y = true ->
  (isLeap (y - 4) = true /\
   daysFromCivil y 2 29 - daysFromCivil (y - 4) 2 29 = 1461) \/
  (isLeap (y - 8) = true /\
   daysFromCivil y 2 29 - daysFromCivil (y - 8) 2 29 = 2921).
Proof.
  intros L. rewrite !daysFromCivil_valid by lia.
  unfold daysBeforeMonth. cbn [Z.leb Z.compare andb daysBefore].
  rewrite !andb_false_r. apply isLeap_spec in L.
  leap_cases (y - 4).
  - left. split; [reflexivity|]. unfold daysSinceEpoch.
    Z.div_mod_to_equations. lia.
  - right. assert (L8 : isLeap (y - 8) = true).
    { apply isLeap_spec. Z.div_mod_to_equations. lia. }
    split; [exact L8|]. unfold daysSinceEpoch. Z.div_mod_to_equations. lia.
Qed.

(** ** An earlier firing *)

Lemma daysEarlier_fields r k :
  fixed (loc r) ->
  dayNumber (daysEarlier r k) = dayNumber r - k /\
  Hour_ (daysEarlier r k) = Hour_ r /\
  Minute_ (daysEarlier r k) = Minute_ r /\
  (aligned r -> aligned (daysEarlier r k)).
Proof.
  intros F. destruct (daysEarlier_wall r k F) as [W _]. revert W.
  generalize (daysEarlier r k). intros q W.
  unfold dayNumber, Hour_, Minute_, aligned. rewrite W.
  repeat split; try intros ?; zdm.
Qed.

Lemma wildcard_matches l f i :
  listSpec_wildcard l f = true -> min f <= i <= max f ->
  listSpec_matchesb l i = true.
Proof.
  destruct l as [|r [|? ?]]; cbn; try discriminate.
  unfold rangeSpec_wildcard, rangeSpec_matchesb. intros H Hi.
  apply andb_true_iff in H. destruct H as [H H3].
  apply andb_true_iff in H. destruct H as [H1 H2].
  apply Z.eqb_eq in H1, H2, H3. rewrite H1, H2, H3, Z.rem_1_r.
  rewrite orb_false_r.
  destruct (Z.leb_spec (min f) i); [|lia].
  destruct (Z.leb_spec i (max f)); [|lia]. reflexivity.
Qed.

Lemma Weekday_bounds t : 0 <= Weekday t <= 6.
Proof. unfold Weekday. Z.div_mod_to_equations. lia. Qed.

Lemma Day_bounds t : 1 <= Day t <= 31.
Proof. apply civilDay_bounds. Qed.

(** A date with the same day of the month matches when the weekday field is
    a wildcard or neither field is. *)
Lemma dayMatchesb_day_route s r q :
  listSpec_matchesb (day s) (Day r) = true ->
  listSpec_wildcard (weekday s) weekdayField = true \/
  listSpec_wildcard (day s) dayField = false ->
  Day q = Day r -> dayMatchesb s q = true.
Proof.
  intros Hd Hw E. unfold dayMatchesb. rewrite E, Hd. cbn [andb orb].
  destruct (listSpec_wildcard (weekday s) weekdayField) eqn:WW.
  - rewrite orb_true_r.
    apply (wildcard_matches _ _ _ WW). apply (Weekday_bounds q).
  - destruct Hw as [? | ->]; [discriminate|]. reflexivity.
Qed.

(** A date with the same weekday matches when the day field is a wildcard or
    the weekday field is not. *)
Lemma dayMatchesb_weekday_route s r q :
  listSpec_matchesb (weekday s) (Weekday r) = true ->
  listSpec_wildcard (day s) dayField = true \/
  listSpec_wildcard (weekday s) weekdayField = false ->
  Weekday q = Weekday r -> dayMatchesb s q = true.
Proof.
  intros Hd Hw E. unfold dayMatchesb. rewrite E, Hd.
  destruct (listSpec_wildcard (day s) dayField) eqn:DW.
  - cbn [orb]. rewrite andb_true_r.
    apply (wildcard_matches _ _ _ DW). apply (Day_bounds q).
  - destruct Hw as [? | ->]; [discriminate|]. cbn [orb]. apply orb_true_r.
Qed.

Lemma dayMatchesb_routes s r :
  dayMatchesb s r = true ->
  (listSpec_matchesb (day s) (Day r) = true /\
   (listSpec_wildcard (weekday s) weekdayField = true \/
    listSpec_wildcard (day s) dayField = false)) \/
  (listSpec_matchesb (weekday s) (Weekday r) = true /\
   (listSpec_wildcard (day s) dayField = true \/
    listSpec_wildcard (weekday s) weekdayField = false)).
Proof.
  unfold dayMatchesb.
  destruct (listSpec_wildcard (weekday s) weekdayField),
           (listSpec_wildcard (day s) dayField),
           (listSpec_matchesb (day s) (Day r)),
           (listSpec_matchesb (weekday s) (Weekday r)); cbn;
    intros; try discriminate; auto.
Qed.

Lemma fires_daysEarlier s r k :
  fixed (loc r) ->
  fires s r = true ->
  Month (daysEarlier r k) = Month r ->
  dayMatchesb s (daysEarlier r k) = true ->
  fires s (daysEarlier r k) = true.
Proof.
  intros Fx F M D. destruct (daysEarlier_fields r k Fx) as (_ & H & Mi & _).
  unfold fires in *. rewrite M, D, H, Mi.
  destruct (listSpec_matchesb (month s) (Month r)); [|discriminate].
  destruct (dayMatchesb s r); [|discriminate]. exact F.
Qed.

(** Every firing is preceded by another one, at most four years earlier, or
    eight years earlier when it falls on a February 29. *)
Lemma earlier_firing s r :
  fixed (loc r) ->
  fires s r = true ->
  exists k, 0 < k /\ fires s (daysEarlier r k) = true /\
            (k <= 1461 \/ (Day r = 29 /\ k = 2921)).
Proof.
  intros Fx F.
  assert (HD : dayMatchesb s r = true).
  { unfold fires in F. destruct (dayMatchesb s r); [reflexivity|].
    rewrite andb_false_r in F. discriminate. }
  destruct (civil_of_days (dayNumber r)) as (Hm & Hd & E).
  fold (Year r) (Month r) (Day r) in Hm, Hd, E.
  destruct (dayMatchesb_routes s r HD) as [[Dm Dw]|[Wm Ww]].
  - (* same day of the month, an earlier year *)
    assert (G : exists k, 0 < k /\ civilMonth (dayNumber r - k) = Month r /\
                          civilDay (dayNumber r - k) = Day r /\
                          (k <= 1461 \/ (Day r = 29 /\ k = 2921))).
    { destruct (Z.eq_dec (Month r) 2) as [M2|M2];
        [destruct (Z.eq_dec (Day r) 29) as [D29|D29]|].
      - rewrite M2, D29 in *. rewrite daysIn_feb in Hd.
        destruct (isLeap (Year r)) eqn:L; [|lia].
        destruct (previous_leap_day (Year r) L) as [[L' K]|[L' K]].
        + exists 1461. replace (dayNumber r - 1461)
            with (daysFromCivil (Year r - 4) 2 29) by lia.
          destruct (days_of_civil (Year r - 4) 2 29) as (_ & B & C);
            [lia|rewrite daysIn_feb, L'; lia|].
          repeat split; auto; lia.
        + exists 2921. replace (dayNumber r - 2921)
            with (daysFromCivil (Year r - 8) 2 29) by lia.
          destruct (days_of_civil (Year r - 8) 2 29) as (_ & B & C);
            [lia|rewrite daysIn_feb, L'; lia|].
          repeat split; auto; lia.
      - destruct (previous_year (Year r) (Month r) (Day r) Hm Hd
                    ltac:(lia)) as [V K].
        exists (dayNumber r - daysFromCivil (Year r - 1) (Month r) (Day r)).
        replace (dayNumber r - (dayNumber r - daysFromCivil (Year r - 1) (Month r) (Day r)))
          with (daysFromCivil (Year r - 1) (Month r) (Day r)) by lia.
        destruct (days_of_civil (Year r - 1) (Month r) (Day r) Hm V)
          as (_ & B & C).
        repeat split; auto; lia.
      - destruct (previous_year (Year r) (Month r) (Day r) Hm Hd
                    ltac:(lia)) as [V K].
        exists (dayNumber r - daysFromCivil (Year r - 1) (Month r) (Day r)).
        replace (dayNumber r - (dayNumber r - daysFromCivil (Year r - 1) (Month r) (Day r)))
          with (daysFromCivil (Year r - 1) (Month r) (Day r)) by lia.
        destruct (days_of_civil (Year r - 1) (Month r) (Day r) Hm V)
          as (_ & B & C).
        repeat split; auto; lia. }
    destruct G as (k & Hk & GM & GD & GK).
    exists k. split; [exact Hk|]. split; [|exact GK].
    destruct (daysEarlier_fields r k Fx) as (N & _).
    apply fires_daysEarlier; [exact Fx|exact F| |].
    + unfold Month at 1. rewrite N. exact GM.
    + apply (dayMatchesb_day_route s r); auto.
      unfold Day at 1. rewrite N. exact GD.
  - (* same weekday, the same month of the previous year *)
    set (s0 := daysFromCivil (Year r - 1) (Month r) 1).
    set (n' := s0 + (dayNumber r - s0) mod 7).
    assert (V1 : 1 <= 1 <= daysIn (Year r) (Month r)).
    { pose proof (daysIn_bounds (Year r) (Month r) Hm). lia. }
    destruct (previous_year (Year r) (Month r) 1 Hm V1 ltac:(lia)) as [_ K].
    fold s0 in K.
    assert (E1 : daysFromCivil (Year r) (Month r) 1 = dayNumber r - Day r + 1).
    { rewrite <- E. rewrite !daysFromCivil_valid by exact Hm. lia. }
    pose proof (Day_bounds r) as DB.
    assert (Hn' : n' = daysFromCivil (Year r - 1) (Month r)
                         (1 + (dayNumber r - s0) mod 7)).
    { unfold n', s0. rewrite !daysFromCivil_valid by exact Hm. lia. }
    destruct (days_of_civil (Year r - 1) (Month r)
                (1 + (dayNumber r - s0) mod 7) Hm) as (_ & B & _).
    { pose proof (daysIn_bounds (Year r - 1) (Month r) Hm).
      Z.div_mod_to_equations. lia. }
    rewrite <- Hn' in B.
    exists (dayNumber r - n').
    assert (Hk : 0 < dayNumber r - n' <= 1461).
    { unfold n'. Z.div_mod_to_equations. lia. }
    split; [lia|]. split; [|left; lia].
    destruct (daysEarlier_fields r (dayNumber r - n') Fx) as (N & _).
    replace (dayNumber r - (dayNumber r - n')) with n' in N by lia.
    apply fires_daysEarlier; [exact Fx|exact F| |].
    + unfold Month at 1. rewrite N. exact B.
    + apply (dayMatchesb_weekday_route s r); auto.
      unfold Weekday. rewrite N. unfold n'. Z.div_mod_to_equations. lia.
Qed.

Lemma NextIs_unique s t r r' : NextIs s t r -> NextIs s t r' -> r = r'.
Proof.
  intros [n H] [n' H'].
  specialize (H (Nat.max n n') (Nat.le_max_l _ _)).
  specialize (H' (Nat.max n n') (Nat.le_max_r _ _)). congruence.
Qed.

Lemma horizon_days t :
  dayNumber t + 2921 <= daysFromCivil (Year t + 8) (Month t) (Day t)
    <= dayNumber t + 2923.
Proof.
  destruct (civil_of_days (dayNumber t)) as (Hm & Hd & E).
  fold (Year t) (Month t) (Day t) in Hm, Hd, E.
  pose proof (eight_years (Year t) (Month t) Hm) as H8.
  rewrite !daysFromCivil_valid in * by exact Hm. lia.
Qed.

Lemma horizon_wall t :
  fixed (loc t) ->
  loc (AddDate t 8 0 0) = loc t /\
  wall t + 2921 * nsPerDay <= wall (AddDate t 8 0 0)
    <= wall t + 2923 * nsPerDay.
Proof.
  intros Fx. split; [reflexivity|].
  rewrite AddDate_wall by exact Fx. rewrite !Z.add_0_r.
  pose proof (horizon_days t). unfold_units. nia.
Qed.

(** ** Locations with transitions: the first candidate is before the horizon *)

Lemma lookupFrom_In tx : forall sec o st,
  In (fst (fst (lookupFrom tx sec o st))) (o :: map snd tx).
Proof.
  induction tx as [|[w o'] tx IH]; intros sec o st; cbn [lookupFrom].
  - left. reflexivity.
  - destruct (sec <? w); [left; reflexivity|].
    right. apply (IH sec o' (Some w)).
Qed.

Lemma offsetAt_In t : In (offsetAt t) (offsets (loc t)).
Proof. apply lookupFrom_In. Qed.

Lemma dateOffset_In l unix : In (dateOffset l unix) (offsets l).
Proof.
  unfold dateOffset. pose proof (lookupFrom_In (locTx l) unix (locOffset l) None) as H.
  fold (GoTime.lookup l unix) in H.
  destruct (GoTime.lookup l unix) as [[offset start] end_]. cbn [fst] in H.
  destruct (Z.eqb_spec offset 0) as [E|E]; [rewrite <- E; exact H|].
  destruct (outside _ _ _); [apply lookupFrom_In|exact H].
Qed.

Lemma fixed_steady l : fixed l -> steady l.
Proof.
  unfold fixed, steady, offsets. intros -> a b [<-|[]] [<-|[]]. lia.
Qed.

Lemma first_candidate_before_horizon t :
  steady (loc t) -> Before (startOfNextMinute t) (AddDate t 8 0 0) = true.
Proof.
  intros St. unfold Before, startOfNextMinute, AddDate, Add, Date, Location_.
  cbn [instant loc]. apply Z.ltb_lt. rewrite !Z.add_0_r.
  match goal with
  | |- context [dateOffset (loc t) ?a] =>
      pose proof (dateOffset_In (loc t) a) as I1;
      set (o1 := dateOffset (loc t) a) in *
  end.
  match goal with
  | |- context [dateOffset (loc t) ?a] =>
      pose proof (dateOffset_In (loc t) a) as I8;
      set (o8 := dateOffset (loc t) a) in *
  end.
  pose proof (St o8 o1 I8 I1) as Hs.
  rewrite civil_dayNumber.
  pose proof (horizon_days t) as Hd.
  pose proof (wall_decomp t) as (Hw & Hh & Hmi & Hr).
  pose proof (Second_Nanosecond t) as Hsn.
  revert Hd.
  generalize (daysFromCivil (Year t + 8) (Month t) (Day t)). intros d8 Hd.
  clear - Hs Hd Hh Hmi Hr Hsn. unfold_units. nia.
Qed.

Lemma cand_fixed s t m : fixed (loc t) -> candidate s t m -> fixed (loc m).
Proof. intros F C. rewrite (cand_loc _ _ _ C). exact F. Qed.

Lemma adv_fixed s t t' : fixed (loc t) -> adv s t t' -> fixed (loc t').
Proof. intros F A. rewrite (adv_loc _ _ _ A). exact F. Qed.

(** [Before] on the wall clock, for two instants of [t]'s location. *)
Lemma Before_wall t a b :
  fixed (loc t) -> loc a = loc t -> loc b = loc t ->
  Before a b = (wall a <? wall b).
Proof.
  intros F La Lb. apply Before_same_wall; [congruence|].
  rewrite La. exact F.
Qed.

Lemma Next_unfold fuel s t :
  Next fuel s t = wrapLoop fuel s (AddDate t 8 0 0) (startOfNextMinute t).
Proof. reflexivity. Qed.

Lemma candidate_wall s t m :
  fixed (loc t) ->
  candidate s t m -> wall (startOfNextMinute t) <= wall m.
Proof.
  intros Fx [L A B _]. destruct (startOfNextMinute_wall t Fx) as [W _].
  destruct (truncMinute_wall t Fx) as [Wt Lt].
  rewrite (Before_wall t) in B by auto.
  apply Z.ltb_lt in B. rewrite Wt in B.
  unfold aligned in A. rewrite W. clear - A B. zdm.
Qed.

(** A candidate never lies in a stretch the search has passed over. *)
Lemma candidate_not_skipped s t c m :
  fixed (loc t) ->
  adv s (startOfNextMinute t) c -> candidate s t m -> wall c <= wall m.
Proof.
  intros Fx A Hm. pose proof (candidate_wall s t m Fx Hm) as Hw.
  destruct (Z_lt_ge_dec (wall m) (wall c)) as [L|G]; [|lia].
  pose proof (adv_quiet _ _ _ A m (cand_loc _ _ _ Hm) ltac:(lia)) as Q.
  rewrite (cand_fires _ _ _ Hm) in Q. discriminate Q.
Qed.

Section NextSpec.
Variable s : Schedule.
Hypothesis Hok : Schedule_ok s.
Variable t : Time.
Hypothesis Hfix : fixed (loc t).

Lemma found_is_candidate r :
  adv s (startOfNextMinute t) r -> fires s r = true -> candidate s t r.
Proof.
  intros A F. destruct (startOfNextMinute_wall t Hfix) as [W L].
  destruct (minute_step_aligned t Hfix) as [Al Lt].
  destruct (truncMinute_wall t Hfix) as [Wt Ltr].
  assert (Lr : loc r = loc t) by (rewrite (adv_loc _ _ _ A); exact L).
  split.
  - exact Lr.
  - apply (adv_aligned _ _ _ A). exact Al.
  - rewrite (Before_wall t) by auto.
    apply Z.ltb_lt. pose proof (adv_le _ _ _ A). lia.
  - exact F.
Qed.

Lemma daysEarlier_candidate c k :
  loc c = loc t -> aligned c -> fires s (daysEarlier c k) = true ->
  wall t < wall c - k * nsPerDay ->
  candidate s t (daysEarlier c k).
Proof.
  intros L A F W.
  assert (Fc : fixed (loc c)) by (rewrite L; exact Hfix).
  destruct (daysEarlier_fields c k Fc) as (_ & _ & _ & Al).
  destruct (daysEarlier_wall c k Fc) as [Wd Ld].
  destruct (truncMinute_wall t Hfix) as [Wt Ltr].
  assert (Lq : loc (daysEarlier c k) = loc t) by congruence.
  split; auto.
  rewrite (Before_wall t) by auto.
  apply Z.ltb_lt. rewrite Wt, Wd. clear - W. zdm.
Qed.

(** A firing returned by the search is not after the horizon: an earlier
    firing would have been met first. *)
Lemma found_within_horizon r :
  adv s (startOfNextMinute t) r -> fires s r = true -> within_horizon t r.
Proof.
  intros A F. pose proof (found_is_candidate r A F) as C.
  destruct (horizon_wall t Hfix) as [HL HW].
  pose proof (cand_fixed _ _ _ Hfix C) as Fr.
  unfold within_horizon. rewrite (Before_wall t)
    by (auto; apply (cand_loc _ _ _ C)).
  apply Z.ltb_ge.
  destruct (Z_lt_ge_dec (wall (AddDate t 8 0 0)) (wall r)) as [L|G]; [|lia].
  exfalso. destruct (earlier_firing s r Fr F) as (k & Hk & Fk & Kb).
  destruct (daysEarlier_wall r k Fr) as [Wd _].
  assert (Ck : candidate s t (daysEarlier r k)).
  { apply daysEarlier_candidate; auto.
    - apply (cand_loc _ _ _ C).
    - apply (cand_aligned _ _ _ C).
    - unfold_units. nia. }
  pose proof (candidate_not_skipped s t r _ Hfix A Ck) as N.
  rewrite Wd in N. unfold_units. nia.
Qed.

(** When the search gives up at the loop head, no candidate lies at or
    before the horizon. *)
Lemma exhausted_no_candidate c m :
  adv s (startOfNextMinute t) c ->
  wall (AddDate t 8 0 0) <= wall c ->
  c = startOfNextMinute t \/ wrapped s c ->
  candidate s t m -> within_horizon t m -> False.
Proof.
  intros A G Wc Cm Hm. destruct (horizon_wall t Hfix) as [HL HW].
  destruct (startOfNextMinute_wall t Hfix) as [W0 L0].
  destruct (truncMinute_wall t Hfix) as [Wt Ltr].
  unfold within_horizon in Hm. rewrite (Before_wall t) in Hm
    by (auto; apply (cand_loc _ _ _ Cm)).
  apply Z.ltb_ge in Hm.
  pose proof (candidate_not_skipped s t c m Hfix A Cm) as N.
  assert (E : m = c).
  { apply Time_eq; [lia| |apply (cand_fixed _ _ _ Hfix Cm)].
    rewrite (adv_loc _ _ _ A), L0. apply (cand_loc _ _ _ Cm). }
  subst m. pose proof (cand_fires _ _ _ Cm) as F.
  assert (Far : wall t + 2921 * nsPerDay <= wall c) by lia.
  assert (Hq : exists q, candidate s t q /\ wall q < wall c).
  { destruct Wc as [->|[D1|R]].
    - exfalso. rewrite W0 in Far. clear - Far. zdm.
    - pose proof (cand_fixed _ _ _ Hfix Cm) as Fc.
      destruct (earlier_firing s c Fc F) as (k & Hk & Fk & [Kb|[D29 _]]);
        [|lia].
      destruct (daysEarlier_wall c k Fc) as [Wd _].
      exists (daysEarlier c k). split.
      + apply daysEarlier_candidate; auto.
        * apply (cand_loc _ _ _ Cm).
        * apply (cand_aligned _ _ _ Cm).
        * unfold_units. nia.
      + rewrite Wd. unfold_units. nia.
    - destruct (R F) as (q & Lq & Aq & Wq & Fq).
      exists q. split; [|lia]. split; auto.
      + rewrite Lq. apply (cand_loc _ _ _ Cm).
      + rewrite (Before_wall t)
          by (auto; rewrite Lq; apply (cand_loc _ _ _ Cm)).
        apply Z.ltb_lt. rewrite Wt. clear - Wq Far. zdm. }
  destruct Hq as (q & Cq & Lq).
  pose proof (candidate_not_skipped s t c q Hfix A Cq). lia.
Qed.

(** The result of [Next]: the earliest candidate, which is not after the
    horizon, or the zero time when no candidate is at or before the
    horizon. *)
Lemma Next_cases :
  exists r, NextIs s t r /\
    ((candidate s t r /\ within_horizon t r /\
      adv s (startOfNextMinute t) r /\
      forall m, candidate s t m -> wall r <= wall m) \/
     (r = zeroTime /\
      forall m, candidate s t m -> within_horizon t m -> False)).
Proof.
  destruct (horizon_wall t Hfix) as [HL HW].
  destruct (startOfNextMinute_wall t Hfix) as [W0 L0].
  destruct (wrapLoop_run s Hok (AddDate t 8 0 0) (startOfNextMinute t)
              ltac:(congruence) Hfix
              (Z.to_nat (wall (AddDate t 8 0 0) - wall (startOfNextMinute t)))
              (startOfNextMinute t) (adv_refl _ _) (or_introl eq_refl)
              ltac:(lia)) as (r & Hrun & Hout).
  exists r. split.
  - exists (S (Z.to_nat (wall (AddDate t 8 0 0)
                           - wall (startOfNextMinute t)) + 61)).
    intros fuel Hf. rewrite Next_unfold. apply Hrun. lia.
  - destruct Hout as [[A F]|[-> (c & A & G & Wc)]].
    + left. split; [apply found_is_candidate; auto|].
      split; [apply found_within_horizon; auto|]. split; [exact A|].
      intros m Cm. eapply candidate_not_skipped; eauto.
    + right. split; [reflexivity|]. intros m Cm Hm.
      eapply exhausted_no_candidate; eauto.
Qed.
End NextSpec.

(** ** More fuel does not change a result *)

Lemma bind_settled {A B} (m : res A) (k : A -> res B) :
  settled (bind m k) -> settled m.
Proof. destruct m; cbn; unfold settled; congruence. Qed.

Lemma monthLoop_mono s f :
  forall f' t, (f <= f')%nat -> settled (monthLoop f s t) ->
  monthLoop f' s t = monthLoop f s t.
Proof.
  induction f as [|f IH]; intros f' t Hf H; [exfalso; apply H; reflexivity|].
  destruct f' as [|f']; [lia|]. cbn [monthLoop] in *.
  destruct (listSpec_matches (month s) (Month t)) as [[|]| |]; cbn in *;
    try reflexivity.
  apply IH; [lia|exact H].
Qed.

Section LoopMono.
Variable L : nat -> Time -> res flow.
Variable cond : Time -> res bool.
Variable stp : Time -> Time.
Variable wr : Time -> bool.
Hypothesis L_O : forall t, L O t = OutOfFuel.
Hypothesis L_S : forall f t,
  L (S f) t = (m <- cond t ;;
               if m then Ret (Through t)
               else if wr (stp t) then Ret (ContinueWrap (stp t))
               else L f (stp t)).

Lemma forLoop_mono f :
  forall f' t, (f <= f')%nat -> settled (L f t) -> L f' t = L f t.
Proof.
  induction f as [|f IH]; intros f' t Hf H.
  - exfalso. apply H. apply L_O.
  - destruct f' as [|f']; [lia|]. rewrite (L_S f') in *. rewrite (L_S f) in *.
    destruct (cond t) as [[|]| |]; cbn in *; try reflexivity.
    destruct (wr (stp t)); [reflexivity|]. apply IH; [lia|exact H].
Qed.

Lemma forLoop_loc (P : Time -> Time -> Prop) :
  (forall t, P t t) ->
  (forall a b, P a b -> P a (stp b)) ->
  forall f t fl, L f t = Ret fl ->
  match fl with Through t' | ContinueWrap t' => P t t' end.
Proof.
  intros Hr Hs. assert (G : forall f t0 t fl, P t0 t -> L f t = Ret fl ->
    match fl with Through t' | ContinueWrap t' => P t0 t' end).
  { induction f as [|f IH]; intros t0 t fl Hp H.
    - rewrite L_O in H. discriminate.
    - rewrite L_S in H. destruct (cond t) as [[|]| |]; cbn in H;
        try discriminate.
      + inversion H; subst. exact Hp.
      + destruct (wr (stp t)).
        * inversion H; subst. apply Hs, Hp.
        * eapply IH; [|exact H]. apply Hs, Hp. }
  intros f t fl. apply G, Hr.
Qed.
End LoopMono.

Lemma dayLoop_eq s f t :
  dayLoop (S f) s t =
  (m <- dayMatches s t ;;
   if m then Ret (Through t)
   else if Day (startOfNextDay t) =? 1
        then Ret (ContinueWrap (startOfNextDay t))
        else dayLoop f s (startOfNextDay t)).
Proof. reflexivity. Qed.

Lemma hourLoop_eq s f t :
  hourLoop (S f) s t =
  (m <- listSpec_matches (hour s) (Hour_ t) ;;
   if m then Ret (Through t)
   else if Hour_ (startOfNextHour t) =? 0
        then Ret (ContinueWrap (startOfNextHour t))
        else hourLoop f s (startOfNextHour t)).
Proof. reflexivity. Qed.

Lemma minuteLoop_eq s f t :
  minuteLoop (S f) s t =
  (m <- listSpec_matches (minute s) (Minute_ t) ;;
   if m then Ret (Through t)
   else if Minute_ (startOfNextMinute t) =? 0
        then Ret (ContinueWrap (startOfNextMinute t))
        else minuteLoop f s (startOfNextMinute t)).
Proof. reflexivity. Qed.

Lemma dayLoop_mono s f f' t :
  (f <= f')%nat -> settled (dayLoop f s t) -> dayLoop f' s t = dayLoop f s t.
Proof.
  apply (forLoop_mono (fun f t => dayLoop f s t) (dayMatches s)
           startOfNextDay (fun t => Day t =? 1) (fun _ => eq_refl)
           (dayLoop_eq s)).
Qed.

Lemma hourLoop_mono s f f' t :
  (f <= f')%nat -> settled (hourLoop f s t) ->
  hourLoop f' s t = hourLoop f s t.
Proof.
  apply (forLoop_mono (fun f t => hourLoop f s t)
           (fun t => listSpec_matches (hour s) (Hour_ t))
           startOfNextHour (fun t => Hour_ t =? 0) (fun _ => eq_refl)
           (hourLoop_eq s)).
Qed.

Lemma minuteLoop_mono s f f' t :
  (f <= f')%nat -> settled (minuteLoop f s t) ->
  minuteLoop f' s t = minuteLoop f s t.
Proof.
  apply (forLoop_mono (fun f t => minuteLoop f s t)
           (fun t => listSpec_matches (minute s) (Minute_ t))
           startOfNextMinute (fun t => Minute_ t =? 0) (fun _ => eq_refl)
           (minuteLoop_eq s)).
Qed.

Lemma dayLoop_loc s f t fl :
  dayLoop f s t = Ret fl ->
  match fl with Through t' | ContinueWrap t' => loc t' = loc t end.
Proof.
  apply (forLoop_loc (fun f t => dayLoop f s t) (dayMatches s)
           startOfNextDay (fun t => Day t =? 1) (fun _ => eq_refl)
           (dayLoop_eq s) (fun a b => loc b = loc a)); auto.
Qed.

Lemma hourLoop_loc s f t fl :
  hourLoop f s t = Ret fl ->
  match fl with Through t' | ContinueWrap t' => loc t' = loc t end.
Proof.
  apply (forLoop_loc (fun f t => hourLoop f s t)
           (fun t => listSpec_matches (hour s) (Hour_ t))
           startOfNextHour (fun t => Hour_ t =? 0) (fun _ => eq_refl)
           (hourLoop_eq s) (fun a b => loc b = loc a)); auto.
Qed.

Lemma minuteLoop_loc s f t fl :
  minuteLoop f s t = Ret fl ->
  match fl with Through t' | ContinueWrap t' => loc t' = loc t end.
Proof.
  apply (forLoop_loc (fun f t => minuteLoop f s t)
           (fun t => listSpec_matches (minute s) (Minute_ t))
           startOfNextMinute (fun t => Minute_ t =? 0) (fun _ => eq_refl)
           (minuteLoop_eq s) (fun a b => loc b = loc a)); auto.
Qed.

Lemma bind_mono {A B} (m m' : res A) (k k' : A -> res B) :
  settled (bind m k) ->
  (settled m -> m' = m) ->
  (forall a, m = Ret a -> settled (k a) -> k' a = k a) ->
  bind m' k' = bind m k.
Proof.
  intros H Hm Hk. pose proof (bind_settled _ _ H) as Sm.
  rewrite (Hm Sm). destruct m; cbn in *; try reflexivity.
  apply Hk; auto.
Qed.

Lemma wrapLoop_mono s horizon f :
  forall f' t, (f <= f')%nat -> settled (wrapLoop f s horizon t) ->
  wrapLoop f' s horizon t = wrapLoop f s horizon t.
Proof.
  induction f as [|f IH]; intros f' t Hf H; [exfalso; apply H; reflexivity|].
  destruct f' as [|f']; [lia|]. cbn [wrapLoop] in *.
  destruct (Before t horizon); [|reflexivity].
  apply bind_mono; [exact H| |].
  { apply monthLoop_mono. lia. }
  intros t1 _ H1. apply bind_mono; [exact H1| |].
  { apply dayLoop_mono. lia. }
  intros [t2|c2] _ H2; [|apply IH; [lia|exact H2]].
  apply bind_mono; [exact H2| |].
  { apply hourLoop_mono. lia. }
  intros [t3|c3] _ H3; [|apply IH; [lia|exact H3]].
  apply bind_mono; [exact H3| |].
  { apply minuteLoop_mono. lia. }
  intros [t4|c4] _ H4; [reflexivity|apply IH; [lia|exact H4]].
Qed.

(** A result or a panic obtained with some fuel is obtained with any larger
    fuel. *)
Lemma Next_mono s t f f' :
  (f <= f')%nat -> settled (Next f s t) -> Next f' s t = Next f s t.
Proof. intros. apply wrapLoop_mono; assumption. Qed.

Lemma Next_fuel_NextIs s t f r : Next f s t = Ret r -> NextIs s t r.
Proof.
  intros H. exists f. intros fuel Hf. rewrite <- H.
  apply Next_mono; [exact Hf|]. rewrite H. discriminate.
Qed.

(** ** The location of the candidate never changes *)

Lemma monthLoop_loc s f :
  forall t r, monthLoop f s t = Ret r -> loc r = loc t.
Proof.
  induction f as [|f IH]; intros t r H; [discriminate|].
  cbn [monthLoop] in H.
  destruct (listSpec_matches (month s) (Month t)) as [[|]| |]; cbn in H;
    try discriminate.
  - inversion H. reflexivity.
  - apply IH in H. rewrite H. reflexivity.
Qed.

Lemma wrapLoop_loc s horizon f :
  forall t r, wrapLoop f s horizon t = Ret r -> r = zeroTime \/ loc r = loc t.
Proof.
  induction f as [|f IH]; intros t r H; [discriminate|].
  cbn [wrapLoop] in H. destruct (Before t horizon);
    [|inversion H; left; reflexivity].
  destruct (monthLoop f s t) as [t1| |] eqn:E1; cbn in H; try discriminate.
  apply monthLoop_loc in E1.
  destruct (dayLoop f s t1) as [fl2| |] eqn:E2; cbn in H; try discriminate.
  apply dayLoop_loc in E2.
  destruct fl2 as [t2|c2];
    [|apply IH in H; destruct H as [H|H]; [left; exact H|right; congruence]].
  destruct (hourLoop f s t2) as [fl3| |] eqn:E3; cbn in H; try discriminate.
  apply hourLoop_loc in E3.
  destruct fl3 as [t3|c3];
    [|apply IH in H; destruct H as [H|H]; [left; exact H|right; congruence]].
  destruct (minuteLoop f s t3) as [fl4| |] eqn:E4; cbn in H; try discriminate.
  apply minuteLoop_loc in E4.
  destruct fl4 as [t4|c4];
    [|apply IH in H; destruct H as [H|H]; [left; exact H|right; congruence]].
  inversion H; subst. right. congruence.
Qed.

(** ** The example schedules *)

Lemma everyFiveMinutes_parsed :
  ParseSchedule ["*/5"; "*"; "*"; "*"; "*"]%string = Ok everyFiveMinutes.
Proof. reflexivity. Qed.

Lemma thirteenthOrFriday_parsed :
  ParseSchedule ["0"; "0"; "13"; "*"; "5"]%string = Ok thirteenthOrFriday.
Proof. reflexivity. Qed.

Lemma februaryThirtyFirst_parsed :
  ParseSchedule ["0"; "0"; "31"; "2"; "*"]%string = Ok februaryThirtyFirst.
Proof. reflexivity. Qed.

Ltac schedule_ok :=
  split; [repeat constructor; cbn; lia ..| ];
  cbn [month everyFiveMinutes thirteenthOrFriday februaryThirtyFirst].

Lemma everyFiveMinutes_ok : Schedule_ok everyFiveMinutes.
Proof. schedule_ok. exists 1. split; [lia|reflexivity]. Qed.

Lemma thirteenthOrFriday_ok : Schedule_ok thirteenthOrFriday.
Proof. schedule_ok. exists 1. split; [lia|reflexivity]. Qed.

Lemma februaryThirtyFirst_ok : Schedule_ok februaryThirtyFirst.
Proof. schedule_ok. exists 2. split; [lia|reflexivity]. Qed.

Lemma only_matchesb i j : listSpec_matchesb (only i) j = true -> j = i.
Proof.
  unfold only, listSpec_matchesb, rangeSpec_matchesb; cbn.
  rewrite orb_false_r, !andb_true_iff, !Z.leb_le. lia.
Qed.

(** No date is a February 31. *)
Lemma februaryThirtyFirst_never r : fires februaryThirtyFirst r = false.
Proof.
  destruct (fires februaryThirtyFirst r) eqn:F; [exfalso|reflexivity].
  unfold fires in F. rewrite !andb_true_iff in F.
  destruct F as [[[Fm Fd] _] _].
  apply only_matchesb in Fm.
  unfold dayMatchesb in Fd. cbn [day weekday februaryThirtyFirst] in Fd.
  change (listSpec_wildcard (only 31) dayField) with false in Fd.
  change (listSpec_wildcard (full weekdayField) weekdayField) with true in Fd.
  cbn [orb] in Fd. apply andb_true_iff in Fd. destruct Fd as [Fd _].
  apply only_matchesb in Fd.
  destruct (civil_of_days (dayNumber r)) as (_ & Hd & _).
  fold (Year r) (Month r) (Day r) in Hd. rewrite Fm, daysIn_feb in Hd.
  destruct (isLeap (Year r)); lia.
Qed.

Lemma februaryThirtyFirst_Next t :
  fixed (loc t) -> NextIs februaryThirtyFirst t zeroTime.
Proof.
  intros Fx.
  destruct (Next_cases _ februaryThirtyFirst_ok t Fx)
    as (r & N & [(C & _)|[-> _]]).
  - pose proof (cand_fires _ _ _ C) as F.
    rewrite februaryThirtyFirst_never in F. discriminate.
  - exact N.
Qed.

(** * The schedule evaluator *)

(** The parsed schedules of the examples. *)
Lemma everyMinute_parsed :
  ParseSchedule ["*"; "*"; "*"; "*"; "*"]%string = Ok everyMinute.
Proof. reflexivity. Qed.

Lemma threeOClock_parsed :
  ParseSchedule ["0"; "3"; "*"; "*"; "*"]%string = Ok threeOClock.
Proof. reflexivity. Qed.

Lemma halfPastTwo_parsed :
  ParseSchedule ["30"; "2"; "*"; "*"; "*"]%string = Ok halfPastTwo.
Proof. reflexivity. Qed.

Ltac by_evaluation := vm_compute; reflexivity.

Ltac candidate_by_evaluation := split; by_evaluation.

(** C1.  [Next] does not return the earliest firing after its argument in a
    location whose clock is set back.  In America/New_York the hour from
    01:00 to 02:00 occurs twice on 2000-10-29, first in EDT, then in EST.
    From [t] = 01:30 EST the schedule [* * * * *] gives 01:31 EDT, which is
    59 minutes before [t], although 01:31 EST, one minute after [t],
    satisfies the five constraints: [time.Date] takes the first occurrence
    of the reading 01:30.  In Europe/Berlin, where [time.Date] takes the
    second occurrence, [30 2 * * *] from 01:00 CEST gives 02:30 CET and
    passes over 02:30 CEST, an hour before it.  In UTC, [*/5 * * * *] gives
    2000-01-01 00:05 from 2000-01-01 00:00 and 01:00 from 00:55. *)
Theorem Next_in_repeated_hour :
  (exists s, ParseSchedule ["*"; "*"; "*"; "*"; "*"]%string = Ok s /\
     exists t r,
       t = Add (Date 2000 10 29 1 30 0 0 newYork) (1 * Hour) /\
       r = Date 2000 10 29 1 31 0 0 newYork /\
       (Hour_ t, Minute_ t, offsetAt t) = (1, 30, -18000) /\
       (Hour_ r, Minute_ r, offsetAt r) = (1, 31, -14400) /\
       NextIs s t r /\
       Before r t = true /\
       candidate s t (Add t (1 * Minute))) /\
  (exists s, ParseSchedule ["30"; "2"; "*"; "*"; "*"]%string = Ok s /\
     exists t r m,
       t = Date 2000 10 29 1 0 0 0 berlin /\
       r = Date 2000 10 29 2 30 0 0 berlin /\
       m = Add t (90 * Minute) /\
       (Hour_ t, Minute_ t, offsetAt t) = (1, 0, 7200) /\
       (Hour_ r, Minute_ r, offsetAt r) = (2, 30, 3600) /\
       (Hour_ m, Minute_ m, offsetAt m) = (2, 30, 7200) /\
       NextIs s t r /\
       candidate s t m /\
       Before m r = true) /\
  (exists s, ParseSchedule ["*/5"; "*"; "*"; "*"; "*"]%string = Ok s /\
     NextIs s (Date 2000 1 1 0 0 0 0 UTC) (Date 2000 1 1 0 5 0 0 UTC) /\
     NextIs s (Date 2000 1 1 0 55 0 0 UTC) (Date 2000 1 1 1 0 0 0 UTC)).
Proof.
  split; [|split].
  - exists everyMinute. split; [reflexivity|].
    eexists; eexists. split; [reflexivity|]. split; [reflexivity|].
    split; [by_evaluation|]. split; [by_evaluation|].
    split; [apply (Next_fuel_NextIs _ _ 100); by_evaluation|].
    split; [by_evaluation|candidate_by_evaluation].
  - exists halfPastTwo. split; [reflexivity|].
    eexists; eexists; eexists.
    split; [reflexivity|]. split; [reflexivity|]. split; [reflexivity|].
    split; [by_evaluation|]. split; [by_evaluation|].
    split; [by_evaluation|].
    split; [apply (Next_fuel_NextIs _ _ 200); by_evaluation|].
    split; [candidate_by_evaluation|by_evaluation].
  - exists everyFiveMinutes. split; [reflexivity|].
    split; apply (Next_fuel_NextIs _ _ 100); by_evaluation.
Qed.

Lemma rangeSpec_matches_Ret r i b :
  rangeSpec_matches r i = Ret b -> (b = true <-> in_range r i).
Proof.
  unfold rangeSpec_matches, in_range.
  destruct (Z.leb_spec (start r) i) as [A|A],
           (Z.leb_spec i (end_ r)) as [B|B]; cbn [andb];
    try (intros E; inversion E; subst; split; [discriminate|lia]).
  destruct (Z.eqb_spec (step r) 0) as [Z|Z]; [discriminate|].
  intros E; inversion E; subst. rewrite Z.eqb_eq. split; [auto|tauto].
Qed.

Lemma listSpec_matches_Ret l i :
  forall b, listSpec_matches l i = Ret b -> (b = true <-> in_list l i).
Proof.
  unfold in_list. induction l as [|r l IH]; intros b; cbn [listSpec_matches].
  - intros H; inversion H; subst. rewrite Exists_nil. split; [discriminate|tauto].
  - destruct (rangeSpec_matches r i) as [br| |] eqn:E; cbn [bind];
      try discriminate.
    apply rangeSpec_matches_Ret in E. rewrite Exists_cons.
    destruct br.
    + intros H; inversion H; subst. split; [|auto]. intros _. left.
      apply E. reflexivity.
    + intros H. specialize (IH b H). rewrite IH. split; [auto|].
      intros [H1|H1]; [|exact H1]. apply E in H1. discriminate H1.
Qed.

Lemma listSpec_wildcard_iff l f :
  listSpec_wildcard l f = true <-> is_wildcard l f.
Proof.
  unfold listSpec_wildcard, is_wildcard, rangeSpec_wildcard. split.
  - destruct l as [|r [|r' l]]; try discriminate.
    rewrite !andb_true_iff, !Z.eqb_eq. intros [[A B] C]. exists r. auto.
  - intros (r & -> & A & B & C). rewrite !andb_true_iff, !Z.eqb_eq. auto.
Qed.

(** C2.  [dayMatches] returns a boolean whenever no step of the day and
    weekday lists is zero.  Whenever it returns one: if the day list or the
    weekday list is a wildcard (a single range of step 1 over the whole
    field), the boolean is true exactly when the day of the month lies in the
    day list and the weekday in the weekday list; if neither is, exactly when
    one of the two does.  The schedule [0 0 13 * 5] matches 2000-01-13, a
    Thursday, and 2000-01-14, a Friday, and not 2000-01-15; [0 0 13 * *]
    matches the 13th and not the 14th; [0 0 * * 5] matches the 14th and not
    the 13th. *)
Theorem dayMatches_rule :
  (forall s t, steps_nonzero (day s) -> steps_nonzero (weekday s) ->
     exists b, dayMatches s t = Ret b) /\
  (forall s t b, dayMatches s t = Ret b ->
     (is_wildcard (day s) dayField \/ is_wildcard (weekday s) weekdayField ->
      (b = true <->
       in_list (day s) (Day t) /\ in_list (weekday s) (Weekday t))) /\
     (~ is_wildcard (day s) dayField ->
      ~ is_wildcard (weekday s) weekdayField ->
      (b = true <->
       in_list (day s) (Day t) \/ in_list (weekday s) (Weekday t)))) /\
  (exists s, ParseSchedule ["0"; "0"; "13"; "*"; "5"]%string = Ok s /\
     Weekday (Date 2000 1 13 0 0 0 0 UTC) = 4 /\
     dayMatches s (Date 2000 1 13 0 0 0 0 UTC) = Ret true /\
     Weekday (Date 2000 1 14 0 0 0 0 UTC) = 5 /\
     dayMatches s (Date 2000 1 14 0 0 0 0 UTC) = Ret true /\
     dayMatches s (Date 2000 1 15 0 0 0 0 UTC) = Ret false /\
     NextIs s (Date 2000 1 12 0 0 0 0 UTC) (Date 2000 1 13 0 0 0 0 UTC) /\
     NextIs s (Date 2000 1 13 0 0 0 0 UTC) (Date 2000 1 14 0 0 0 0 UTC)) /\
  (exists s, ParseSchedule ["0"; "0"; "13"; "*"; "*"]%string = Ok s /\
     dayMatches s (Date 2000 1 13 0 0 0 0 UTC) = Ret true /\
     dayMatches s (Date 2000 1 14 0 0 0 0 UTC) = Ret false) /\
  (exists s, ParseSchedule ["0"; "0"; "*"; "*"; "5"]%string = Ok s /\
     dayMatches s (Date 2000 1 13 0 0 0 0 UTC) = Ret false /\
     dayMatches s (Date 2000 1 14 0 0 0 0 UTC) = Ret true).
Proof.
  split; [|split; [|split; [|split]]].
  - intros s t Hd Hw. exists (dayMatchesb s t).
    apply dayMatches_pure; assumption.
  - intros s t b H. unfold dayMatches in H.
    destruct (listSpec_matches (day s) (Day t)) as [bd| |] eqn:Ed;
      cbn [bind] in H; try discriminate H.
    destruct (listSpec_matches (weekday s) (Weekday t)) as [bw| |] eqn:Ew;
      cbn [bind] in H; try discriminate H.
    apply listSpec_matches_Ret in Ed, Ew.
    pose proof (listSpec_wildcard_iff (day s) dayField) as Wd.
    pose proof (listSpec_wildcard_iff (weekday s) weekdayField) as Ww.
    destruct (listSpec_wildcard (day s) dayField),
             (listSpec_wildcard (weekday s) weekdayField);
      cbn [orb] in H; inversion H; subst; clear H;
      rewrite ?andb_true_iff, ?orb_true_iff.
    + split; [intros _; tauto|]. intros N. exfalso. apply N, Wd. reflexivity.
    + split; [intros _; tauto|]. intros N. exfalso. apply N, Wd. reflexivity.
    + split; [intros _; tauto|].
      intros _ N. exfalso. apply N, Ww. reflexivity.
    + split; [|intros _ _; tauto].
      intros [N|N]; [apply Wd in N|apply Ww in N]; discriminate N.
  - exists thirteenthOrFriday. split; [reflexivity|].
    do 5 (split; [by_evaluation|]).
    split; apply (Next_fuel_NextIs _ _ 100); by_evaluation.
  - exists thirteenth. repeat split; by_evaluation.
  - exists fridays. repeat split; by_evaluation.
Qed.

Lemma dayMatches_rule_witness :
  dayMatches thirteenth (Date 2000 1 14 0 0 0 0 UTC) = Ret false /\
  (is_wildcard (day thirteenth) dayField \/
   is_wildcard (weekday thirteenth) weekdayField) /\
  (false = true <->
   in_list (day thirteenth) (Day (Date 2000 1 14 0 0 0 0 UTC)) /\
   in_list (weekday thirteenth) (Weekday (Date 2000 1 14 0 0 0 0 UTC))) /\
  dayMatches thirteenthOrFriday (Date 2000 1 14 0 0 0 0 UTC) = Ret true /\
  ~ is_wildcard (day thirteenthOrFriday) dayField /\
  ~ is_wildcard (weekday thirteenthOrFriday) weekdayField /\
  (true = true <->
   in_list (day thirteenthOrFriday) (Day (Date 2000 1 14 0 0 0 0 UTC)) \/
   in_list (weekday thirteenthOrFriday)
           (Weekday (Date 2000 1 14 0 0 0 0 UTC))).
Proof.
  assert (E1 : dayMatches thirteenth (Date 2000 1 14 0 0 0 0 UTC) = Ret false)
    by (vm_compute; reflexivity).
  assert (W1 : is_wildcard (day thirteenth) dayField \/
               is_wildcard (weekday thirteenth) weekdayField).
  { right. exists (mkRange 0 6 1). repeat split. }
  assert (E2 : dayMatches thirteenthOrFriday (Date 2000 1 14 0 0 0 0 UTC)
               = Ret true) by (vm_compute; reflexivity).
  assert (N1 : ~ is_wildcard (day thirteenthOrFriday) dayField).
  { intros (r & E & _ & S & _). inversion E; subst. discriminate S. }
  assert (N2 : ~ is_wildcard (weekday thirteenthOrFriday) weekdayField).
  { intros (r & E & _ & S & _). inversion E; subst. discriminate S. }
  split; [exact E1|]. split; [exact W1|].
  split; [exact (proj1 (proj1 (proj2 dayMatches_rule) thirteenth _ _ E1) W1)|].
  split; [exact E2|]. split; [exact N1|]. split; [exact N2|].
  exact (proj2 (proj1 (proj2 dayMatches_rule) thirteenthOrFriday _ _ E2)
           N1 N2).
Defined.

(** The instant at which the hour loop of [Next] stays in America/New_York
    on 2000-10-29: 01:00 EST.  Truncating it with [time.Date] gives
    01:00 EDT, an hour earlier, and adding the hour gives 01:00 EST again. *)
Definition oneOClockEST : Time := Add (Date 2000 10 29 1 0 0 0 newYork) (1 * Hour).

Lemma hourLoop_stuck fuel : hourLoop fuel threeOClock oneOClockEST = OutOfFuel.
Proof.
  induction fuel as [|fuel IH]; [reflexivity|].
  cbn [hourLoop].
  replace (listSpec_matches (hour threeOClock) (Hour_ oneOClockEST))
    with (Ret false) by (vm_compute; reflexivity).
  cbn [bind].
  replace (Add (Date (Year oneOClockEST) (Month oneOClockEST)
                     (Day oneOClockEST) (Hour_ oneOClockEST) 0 0 0
                     (Location_ oneOClockEST)) (1 * Hour))
    with oneOClockEST by (vm_compute; reflexivity).
  replace (Hour_ oneOClockEST =? 0) with false by (vm_compute; reflexivity).
  exact IH.
Qed.

(** C3.  [Next] does not terminate on every schedule and instant.  In
    America/New_York, from 2000-10-29 00:30 EDT, it never returns on the
    schedule [0 3 * * *], which has no zero step and fires every day at
    03:00: the loop over the hours reaches 01:00 EDT, [time.Date] and
    [Add(1 * time.Hour)] take it to 01:00 EST, whose hour is still 1, and
    from 01:00 EST the same two statements lead to 01:00 EST again. *)
Theorem Next_hangs_in_repeated_hour :
  exists s, ParseSchedule ["0"; "3"; "*"; "*"; "*"]%string = Ok s /\
    Schedule_ok s /\
    exists t,
      t = Date 2000 10 29 0 30 0 0 newYork /\
      (Hour_ t, Minute_ t, offsetAt t) = (0, 30, -14400) /\
      fires s (Date 2000 10 29 3 0 0 0 newYork) = true /\
      Before t (Date 2000 10 29 3 0 0 0 newYork) = true /\
      startOfNextHour (startOfNextHour (startOfNextMinute t)) = oneOClockEST /\
      startOfNextHour oneOClockEST = oneOClockEST /\
      (Hour_ oneOClockEST, Minute_ oneOClockEST, offsetAt oneOClockEST)
      = (1, 0, -18000) /\
      forall fuel, Next fuel s t = OutOfFuel.
Proof.
  exists threeOClock. split; [reflexivity|]. split.
  { split; [repeat constructor; cbn; lia ..|].
    exists 1. split; [lia|reflexivity]. }
  eexists. split; [reflexivity|].
  do 6 (split; [by_evaluation|]).
  intros fuel. rewrite Next_unfold.
  destruct fuel as [|fuel]; [reflexivity|]. cbn [wrapLoop].
  replace (Before _ _) with true by (vm_compute; reflexivity).
  destruct fuel as [|fuel]; [reflexivity|].
  replace (monthLoop (S fuel) threeOClock _)
    with (Ret (startOfNextMinute (Date 2000 10 29 0 30 0 0 newYork)))
    by (cbn [monthLoop]; vm_compute; reflexivity).
  cbn [bind].
  replace (dayLoop (S fuel) threeOClock _)
    with (Ret (Through (startOfNextMinute (Date 2000 10 29 0 30 0 0 newYork))))
    by (cbn [dayLoop]; vm_compute; reflexivity).
  cbn [bind].
  destruct fuel as [|fuel]; [vm_compute; reflexivity|].
  destruct fuel as [|fuel]; [vm_compute; reflexivity|].
  replace (hourLoop (S (S (S fuel))) threeOClock _)
    with (hourLoop (S fuel) threeOClock oneOClockEST);
    [rewrite hourLoop_stuck; reflexivity|].
  symmetry. cbn [hourLoop].
  replace (listSpec_matches (hour threeOClock)
             (Hour_ (startOfNextMinute (Date 2000 10 29 0 30 0 0 newYork))))
    with (Ret false) by (vm_compute; reflexivity).
  cbn [bind].
  match goal with
  | |- context [Hour_ ?u =? 0] =>
      replace (Hour_ u =? 0) with false by (vm_compute; reflexivity);
      set (u1 := u)
  end.
  replace (listSpec_matches (hour threeOClock) (Hour_ u1))
    with (Ret false) by (vm_compute; reflexivity).
  cbn [bind].
  match goal with
  | |- context [Hour_ ?u =? 0] =>
      replace (Hour_ u =? 0) with false by (vm_compute; reflexivity);
      replace u with oneOClockEST by (vm_compute; reflexivity)
  end.
  reflexivity.
Qed.

(** The interval from 02:45 CEST to 02:30 CET of 2000-10-29 in
    Europe/Berlin holds no instant whose minute is 30. *)
Lemma berlin_quiet m :
  loc m = berlin ->
  Before (Add (Date 2000 10 29 2 30 0 0 berlin) (- (45 * Minute))) m = true ->
  Before m (Date 2000 10 29 2 30 0 0 berlin) = true ->
  Minute_ m <> 30.
Proof.
  destruct m as [i l]. cbn [loc]. intros ->.
  unfold Before. cbn [instant Add].
  set (r := instant (Date 2000 10 29 2 30 0 0 berlin)).
  vm_compute in r. subst r. rewrite !Z.ltb_lt. intros B1 B2.
  unfold Minute_, wall, offsetAt, GoTime.lookup.
  cbn [loc instant berlin locTx locOffset lookupFrom].
  set (w1 := utcSeconds 2000 3 26 1 0 0). vm_compute in w1. subst w1.
  set (w2 := utcSeconds 2000 10 29 1 0 0). vm_compute in w2. subst w2.
  destruct (Z.ltb_spec (i / Second) 63089629200) as [H1|H1];
    [exfalso; clear - B1 H1; zdm|].
  destruct (Z.ltb_spec (i / Second) 63108378000) as [H2|H2];
    cbn [fst]; clear - B1 B2 H2; zdm.
Qed.

(** C9.  Re-evaluating before a firing does not always give that firing.  In
    Europe/Berlin, [30 2 * * *] from 2000-10-29 02:00 CET gives [r] = 02:30
    CET.  The instant 45 minutes before [r] is 02:45 CEST, and no instant of
    the location strictly between the two satisfies the constraints.  From
    02:45 CEST, [time.Date] takes the reading 02:45 in CET, which is after
    [r], and [Next] gives 02:30 of the next day. *)
Theorem Next_not_idempotent :
  exists s, ParseSchedule ["30"; "2"; "*"; "*"; "*"]%string = Ok s /\
    Schedule_ok s /\
    exists t r eps,
      t = Date 2000 10 29 2 0 0 0 berlin /\
      r = Date 2000 10 29 2 30 0 0 berlin /\
      eps = 45 * Minute /\
      (Hour_ r, Minute_ r, offsetAt r) = (2, 30, 3600) /\
      (Hour_ (Add r (- eps)), Minute_ (Add r (- eps)), offsetAt (Add r (- eps)))
      = (2, 45, 7200) /\
      NextIs s t r /\ r <> zeroTime /\ 0 < eps /\
      (forall m, loc m = loc r -> fires s m = true ->
                 Before (Add r (- eps)) m = true -> Before m r = true ->
                 False) /\
      NextIs s (Add r (- eps)) (Date 2000 10 30 2 30 0 0 berlin) /\
      Date 2000 10 30 2 30 0 0 berlin <> r.
Proof.
  exists halfPastTwo. split; [reflexivity|]. split.
  { split; [repeat constructor; cbn; lia ..|].
    exists 1. split; [lia|reflexivity]. }
  eexists; eexists; eexists.
  split; [reflexivity|]. split; [reflexivity|]. split; [reflexivity|].
  split; [by_evaluation|]. split; [by_evaluation|].
  split; [apply (Next_fuel_NextIs _ _ 200); by_evaluation|].
  split; [intros H; vm_compute in H; discriminate H|].
  split; [reflexivity|]. split.
  - intros m L F B1 B2. apply (berlin_quiet m L B1 B2).
    unfold fires in F. rewrite !andb_true_iff in F. destruct F as [_ F].
    apply only_matchesb in F. exact F.
  - split; [apply (Next_fuel_NextIs _ _ 200); by_evaluation|].
    intros H; vm_compute in H; discriminate H.
Qed.

(** C10.  An instant returned by [Next] other than the zero time is in the
    location of the argument. *)
Theorem Next_keeps_location fuel s t r :
  Next fuel s t = Ret r -> r <> zeroTime -> Location_ r = Location_ t.
Proof.
  intros H Hr. rewrite Next_unfold in H.
  apply wrapLoop_loc in H. destruct H as [H|H]; [contradiction|].
  unfold Location_. rewrite H. reflexivity.
Qed.

Lemma Next_keeps_location_witness :
  Next 100 everyFiveMinutes (Date 2000 1 1 0 0 0 0 berlin)
  = Ret (Date 2000 1 1 0 5 0 0 berlin) /\
  Location_ (Date 2000 1 1 0 5 0 0 berlin)
  = Location_ (Date 2000 1 1 0 0 0 0 berlin).
Proof.
  assert (N : Next 100 everyFiveMinutes (Date 2000 1 1 0 0 0 0 berlin)
              = Ret (Date 2000 1 1 0 5 0 0 berlin)).
  { vm_compute. reflexivity. }
  split; [exact N|].
  apply (Next_keeps_location 100 everyFiveMinutes
           (Date 2000 1 1 0 0 0 0 berlin)
           (Date 2000 1 1 0 5 0 0 berlin) N).
  intro H. vm_compute in H. discriminate H.
Defined.

(** * The supervisor *)

Lemma executeEntry_timer fuel e now ch woke finished next next' :
  Next fuel (entrySchedule e) now = Ret next ->
  Next fuel (entrySchedule e) next = Ret next' ->
  executeEntry fuel e now ch [TimerFired woke finished]
  = Ret (Execute (Command e)
         :: (if negb (Before finished next') then [LogOverrun (Command e)]
             else []) ++ []).
Proof. intros H H'. cbn [executeEntry]. rewrite H. cbn. rewrite H'. reflexivity. Qed.

(** C4.  The entry [0 0 31 2 * cmd] has no next instant: [Next] returns the
    zero time from every [now] of a location without transitions.
    [executeEntry] does not test for it: the
    timer armed with [next.Sub(time.Now())] has fired as soon as it is armed,
    at any clock reading not before the zero time, and the timer case runs
    the command. *)
Theorem sentinel_taken_as_due :
  exists e,
    ParseEntry exactFit "0 0 31 2 * cmd" = Ret (Ok e) /\
    (forall now, fixed (Location_ now) ->
                 NextIs (entrySchedule e) now zeroTime) /\
    (forall clock, Before clock zeroTime = false ->
                   timerFired zeroTime clock clock = true) /\
    (forall now woke finished ch,
       fixed (Location_ now) ->
       exists fuel rest,
         executeEntry fuel e now ch [TimerFired woke finished]
         = Ret (Execute "cmd" :: rest)).
Proof.
  exists (mkEntry februaryThirtyFirst "cmd").
  split; [reflexivity|]. split; [exact februaryThirtyFirst_Next|]. split.
  - intros clock H. unfold timerFired, Sub, Before in *.
    apply Z.ltb_ge in H. apply Z.leb_le. lia.
  - intros now woke finished ch Fx.
    destruct (februaryThirtyFirst_Next now Fx) as [n1 H1].
    destruct (februaryThirtyFirst_Next zeroTime eq_refl) as [n2 H2].
    exists (Nat.max n1 n2).
    exists ((if negb (Before finished zeroTime)
             then [LogOverrun "cmd"%string] else []) ++ []).
    apply (executeEntry_timer _ (mkEntry februaryThirtyFirst "cmd") _ _ _ _
             zeroTime zeroTime); cbn [entrySchedule].
    + apply H1. apply Nat.le_max_l.
    + apply H2. apply Nat.le_max_r.
Qed.

Lemma run_onUpdate_spawns_only updates :
  forall sup, stopTime sup = None ->
  forall a, In a (snd (run onUpdate sup updates)) ->
            exists entry now c, a = Spawn entry now c.
Proof.
  induction updates as [|[entries now] rest IH]; intros sup Hs a Ha.
  - destruct Ha.
  - cbn [run] in Ha. unfold onUpdate at 1 in Ha.
    destruct (run onUpdate (mkSupervisor (stopTime sup) (S (fresh sup))) rest)
      as [sup'' acts'] eqn:E.
    cbn [snd] in Ha. unfold stopPrevious in Ha. rewrite Hs in Ha.
    cbn [app] in Ha. apply in_app_or in Ha. destruct Ha as [Ha|Ha].
    + apply in_map_iff in Ha. destruct Ha as (entry & <- & _). eauto.
    + apply (IH (mkSupervisor (stopTime sup) (S (fresh sup))) Hs).
      rewrite E. exact Ha.
Qed.

(** C5.  [executeCrontab] of crony.go never sends a stop signal, whatever
    updates it receives: the channel it makes is stored in a variable local
    to the [case], and the [stopTime] it tests stays nil.  On two updates it
    spawns both generations and stops none, where the copy with the
    assignment sends the second acceptance time to the first generation's
    channel before it spawns the second. *)
Theorem executeCrontab_never_stops :
  (forall updates c t, ~ In (SendStop c t) (executeCrontab updates)) /\
  (forall e1 e2 t1 t2,
     executeCrontab [([e1], t1); ([e2], t2)]
     = [Spawn e1 t1 0%nat; Spawn e2 t2 1%nat] /\
     executeCrontab_assign [([e1], t1); ([e2], t2)]
     = [Spawn e1 t1 0%nat; SendStop 0%nat t2; Spawn e2 t2 1%nat]).
Proof.
  split.
  - intros updates c t H.
    destruct (run_onUpdate_spawns_only updates initial eq_refl _ H)
      as (entry & now & c' & E).
    discriminate E.
  - intros. split; reflexivity.
Qed.

(** C6.  A task whose pending fire time is [next] and that receives the
    cutoff [tcut] on its stop channel puts the cutoff back and returns; it
    runs its command once before, if [tcut] is not before [next], and not at
    all if it is. *)
Theorem stop_signal_cutoff fuel e now ch tcut later next :
  Next fuel (entrySchedule e) now = Ret next ->
  (Before tcut next = false ->
   executeEntry fuel e now ch (StopReceived tcut :: later)
   = Ret [SendStop ch tcut; Execute (Command e)]) /\
  (Before tcut next = true ->
   executeEntry fuel e now ch (StopReceived tcut :: later)
   = Ret [SendStop ch tcut]).
Proof.
  intros H. cbn [executeEntry]. rewrite H. cbn [bind].
  split; intros ->; reflexivity.
Qed.

Lemma stop_signal_cutoff_witness :
  Next 100 everyFiveMinutes (Date 2000 1 1 0 0 0 0 UTC)
  = Ret (Date 2000 1 1 0 5 0 0 UTC) /\
  executeEntry 100 (mkEntry everyFiveMinutes "cmd")
    (Date 2000 1 1 0 0 0 0 UTC) 0%nat
    [StopReceived (Date 2000 1 1 0 5 0 0 UTC)]
  = Ret [SendStop 0%nat (Date 2000 1 1 0 5 0 0 UTC); Execute "cmd"] /\
  executeEntry 100 (mkEntry everyFiveMinutes "cmd")
    (Date 2000 1 1 0 0 0 0 UTC) 0%nat
    [StopReceived (Date 2000 1 1 0 4 59 0 UTC)]
  = Ret [SendStop 0%nat (Date 2000 1 1 0 4 59 0 UTC)].
Proof.
  assert (N : Next 100 (entrySchedule (mkEntry everyFiveMinutes "cmd"))
                (Date 2000 1 1 0 0 0 0 UTC)
              = Ret (Date 2000 1 1 0 5 0 0 UTC)).
  { vm_compute. reflexivity. }
  split; [exact N|]. split.
  - apply (proj1 (stop_signal_cutoff 100 (mkEntry everyFiveMinutes "cmd")
                    (Date 2000 1 1 0 0 0 0 UTC) 0%nat
                    (Date 2000 1 1 0 5 0 0 UTC) []
                    (Date 2000 1 1 0 5 0 0 UTC) N)).
    vm_compute. reflexivity.
  - apply (proj2 (stop_signal_cutoff 100 (mkEntry everyFiveMinutes "cmd")
                    (Date 2000 1 1 0 0 0 0 UTC) 0%nat
                    (Date 2000 1 1 0 4 59 0 UTC) []
                    (Date 2000 1 1 0 5 0 0 UTC) N)).
    vm_compute. reflexivity.
Defined.

(** * The parser *)

Lemma bindR_Err {A B} (m : result A) (k : A -> result B) e :
  bindR m k = Err e -> m = Err e \/ exists a, m = Ok a /\ k a = Err e.
Proof.
  destruct m; cbn; intros H; [right; eauto|left; inversion H; reflexivity].
Qed.

Lemma bindR_Ok {A B} (m : result A) (k : A -> result B) b :
  bindR m k = Ok b -> exists a, m = Ok a /\ k a = Ok b.
Proof. destruct m; cbn; intros H; [eauto|discriminate]. Qed.

Lemma parseValue_error s subs e0 e : parseValue s subs e0 = Err e -> e = e0.
Proof.
  unfold parseValue. destruct (lookup subs s); [discriminate|].
  destruct (Atoi s); [discriminate|]. intros H; inversion H; reflexivity.
Qed.

Lemma parseRangeSpec_error s f subs e :
  parseRangeSpec s f subs = Err e -> range_error f e.
Proof.
  unfold parseRangeSpec, range_error. intros H.
  apply bindR_Err in H. destruct H as [H|(stp & _ & H)].
  - left. destruct (SplitN2 s "/") as [|? [|p1 [|? ?]]]; try discriminate H.
    destruct (Atoi p1); inversion H; reflexivity.
  - apply bindR_Err in H. destruct H as [H|(bounds & _ & H)].
    + destruct (_ || _); [discriminate|].
      apply bindR_Err in H. destruct H as [H|(st & _ & H)].
      * apply parseValue_error in H. auto.
      * apply bindR_Err in H. destruct H as [H|(en & _ & H)];
          [|discriminate].
        destruct (SplitN2 _ "-") as [|? [|d1 ?]]; try discriminate H.
        apply parseValue_error in H. auto.
    + destruct (negb _); inversion H. auto.
Qed.

Lemma parseRanges_error l f subs e :
  parseRanges l f subs = Err e -> range_error f e.
Proof.
  induction l as [|s l IH]; cbn; [discriminate|].
  destruct (parseRangeSpec s f subs) eqn:E; cbn.
  - destruct (parseRanges l f subs); cbn; [discriminate|].
    intros H; inversion H; subst. apply IH. reflexivity.
  - intros H; inversion H; subst. eapply parseRangeSpec_error; eauto.
Qed.

Lemma parseListSpec_error s f subs e :
  parseListSpec s f subs = Err e -> range_error f e.
Proof. apply parseRanges_error. Qed.

Lemma range_error_not_count f : ~ range_error f ErrFieldCount.
Proof. unfold range_error. intros [H|[H|[H|H]]]; discriminate H. Qed.

(** On five fields [ParseSchedule] never reports a wrong field count. *)
Lemma ParseSchedule_five a b c d e :
  ParseSchedule [a; b; c; d; e] <> Err ErrFieldCount.
Proof.
  unfold ParseSchedule, bindR.
  repeat match goal with
         | |- context [parseListSpec ?x ?f ?s] =>
             let E := fresh "E" in
             destruct (parseListSpec x f s) eqn:E;
             [|apply parseListSpec_error in E; intros H; inversion H; subst;
               exact (range_error_not_count _ E)]
         end.
  discriminate.
Qed.

Lemma slice_prefix_length a n l :
  slice_prefix a n = Ret l -> List.length l = n.
Proof.
  unfold slice_prefix.
  destruct (Nat.leb_spec n (List.length (elems a) + List.length (spare a)))
    as [Hle|Hgt]; [|discriminate].
  intros E; inversion E; subst. rewrite length_firstn, length_app. lia.
Qed.

(** C7.  [ParseEntry] never returns the wrong-field-count error: it hands
    [ParseSchedule] the slice [fields[0:5]], which has five elements whenever
    the slice expression does not panic.  On the line [lol] it panics when
    [FieldsN] returns a slice without spare capacity, and reports an
    unparsable start value when the spare cells hold empty strings;
    [ParseSchedule] itself reports the field count on the one field. *)
Theorem ParseEntry_field_count_unreachable :
  (forall unused line, ParseEntry unused line <> Ret (Err ErrFieldCount)) /\
  ParseEntry exactFit "lol" = Panic /\
  ParseEntry roomy "lol" = Ret (Err ErrStart) /\
  ParseEntry roomy "0 1 2 3" = Ret (Err ErrStart) /\
  ParseSchedule ["lol"%string] = Err ErrFieldCount.
Proof.
  split; [|repeat split; reflexivity].
  intros unused line. unfold ParseEntry.
  destruct line as [|c line]; [discriminate|].
  destruct (Ascii.eqb c "@").
  - destruct (FieldsN (String c line) 2) as [|label rest]; [discriminate|].
    destruct (lookup predefinedLabels label) as [[sch| |]|]; cbn; discriminate.
  - destruct (slice_prefix _ 5) as [five| |] eqn:E; cbn; try discriminate.
    apply slice_prefix_length in E.
    destruct five as [|a [|b [|c' [|d [|e [|x five]]]]]]; try discriminate E.
    pose proof (ParseSchedule_five a b c' d e) as P.
    destruct (ParseSchedule [a; b; c'; d; e]); [discriminate|].
    intros H; inversion H; subst. apply P. reflexivity.
Qed.

Lemma full_matches f i :
  min f <= i <= max f -> listSpec_matches (full f) i = Ret true.
Proof.
  intros H. unfold full. rewrite listSpec_matches_ok
    by (repeat constructor; cbn; lia).
  f_equal. apply (wildcard_matches _ f); [|exact H].
  cbn. unfold rangeSpec_wildcard; cbn. rewrite !Z.eqb_refl. reflexivity.
Qed.

Lemma Month_bounds t : 1 <= Month t <= 12.
Proof. apply civil_of_days. Qed.

(** [Next] panics on [*/0 * * * *], from every [t]. *)
Lemma everyZeroMinutes_panics fuel t :
  steady (Location_ t) -> Next (S (S fuel)) everyZeroMinutes t = Panic.
Proof.
  intros St. rewrite Next_unfold. cbn [wrapLoop].
  rewrite first_candidate_before_horizon by exact St.
  set (t0 := startOfNextMinute t).
  cbn [monthLoop month everyZeroMinutes].
  rewrite (full_matches monthField) by apply Month_bounds. cbn [bind].
  cbn [dayLoop]. unfold dayMatches. cbn [day weekday everyZeroMinutes].
  rewrite (full_matches dayField) by apply Day_bounds.
  rewrite (full_matches weekdayField) by apply Weekday_bounds. cbn [bind].
  change (listSpec_wildcard (full dayField) dayField) with true.
  cbn [orb andb bind]. cbn [hourLoop hour everyZeroMinutes].
  rewrite (full_matches hourField)
    by (pose proof (wall_decomp t0); cbn; lia).
  cbn [bind]. cbn [minuteLoop minute everyZeroMinutes listSpec_matches].
  unfold rangeSpec_matches; cbn [start end_ step].
  pose proof (wall_decomp t0) as (_ & _ & Hm & _).
  destruct (Z.leb_spec 0 (Minute_ t0)); [|lia].
  destruct (Z.leb_spec (Minute_ t0) 59); [|lia]. reflexivity.
Qed.

(** C8.  The field parser accepts the tokens [*/0] and [*/-5]: the range it
    returns has step 0, respectively -5, and [valid] does not look at the
    step.  Matching a value inside a range of step 0 panics (division by
    zero), and so does [Next] on the entry [*/0 * * * * x], from every
    [t] of a location, with or without transitions, whose offsets lie within
    a day of each other. *)
Theorem zero_step_accepted :
  parseRangeSpec "*/0" minuteField [] = Ok (mkRange 0 59 0) /\
  parseRangeSpec "*/-5" minuteField [] = Ok (mkRange 0 59 (-5)) /\
  rangeSpec_valid (mkRange 0 59 0) minuteField = true /\
  rangeSpec_matches (mkRange 0 59 0) 7 = Panic /\
  exists e, ParseEntry exactFit "*/0 * * * * x" = Ret (Ok e) /\
            forall fuel t, steady (Location_ t) ->
                           Next (S (S fuel)) (entrySchedule e) t = Panic.
Proof.
  do 4 (split; [reflexivity|]).
  exists (mkEntry everyZeroMinutes "x"). split; [reflexivity|].
  intros fuel t St. apply everyZeroMinutes_panics. exact St.
Qed.

(** * Further properties of the evaluator *)

(** X1.  [rangeSpec.matches]: a division by zero exactly on a value inside a range
    of step zero; otherwise true exactly on the values of the range that lie
    a multiple of the step after its start. *)
Theorem rangeSpec_matches_spec r i :
  (step r = 0 /\ start r <= i <= end_ r -> rangeSpec_matches r i = Panic) /\
  (~ (step r = 0 /\ start r <= i <= end_ r) ->
   exists b, rangeSpec_matches r i = Ret b /\
             (b = true <-> start r <= i <= end_ r /\ (step r | i - start r))).
Proof.
  unfold rangeSpec_matches. split.
  - intros (Hs & H1 & H2).
    destruct (Z.leb_spec (start r) i); [|lia].
    destruct (Z.leb_spec i (end_ r)); [|lia]. cbn [andb].
    rewrite Hs. reflexivity.
  - intros N.
    destruct (Z.leb_spec (start r) i); cbn [andb];
      [destruct (Z.leb_spec i (end_ r))|].
    + destruct (Z.eqb_spec (step r) 0) as [E|E]; [exfalso; apply N; lia|].
      eexists. split; [reflexivity|].
      rewrite Z.eqb_eq, (Z.rem_divide _ _ E). intuition lia.
    + exists false. split; [reflexivity|]. intuition (try discriminate; lia).
    + exists false. split; [reflexivity|]. intuition (try discriminate; lia).
Qed.

Lemma rangeSpec_matches_spec_witness :
  rangeSpec_matches (mkRange 0 59 0) 7 = Panic /\
  exists b, rangeSpec_matches (mkRange 0 10 5) 10 = Ret b /\
            (b = true <-> 0 <= 10 <= 10 /\ (5 | 10 - 0)).
Proof.
  split.
  - apply (proj1 (rangeSpec_matches_spec (mkRange 0 59 0) 7)). cbn. lia.
  - apply (proj2 (rangeSpec_matches_spec (mkRange 0 10 5) 10)). cbn. lia.
Defined.

(** X2.  [listSpec.matches] on a list without zero step: true exactly when some
    range of the list contains the value; the empty list contains none. *)
Theorem listSpec_matches_union l i :
  steps_nonzero l ->
  exists b, listSpec_matches l i = Ret b /\
            (b = true <-> exists r, In r l /\ start r <= i <= end_ r /\
                                    (step r | i - start r)).
Proof.
  intros H. exists (listSpec_matchesb l i).
  split; [apply listSpec_matches_ok, H|].
  rewrite listSpec_matchesb_iff. unfold in_list. rewrite Exists_exists.
  unfold steps_nonzero in H. rewrite Forall_forall in H.
  split; intros (r & Hr & Hi); exists r; (split; [exact Hr|]);
    unfold in_range in *; rewrite (Z.rem_divide _ _ (H r Hr)) in *; exact Hi.
Qed.

Lemma listSpec_matches_union_witness :
  exists b, listSpec_matches [mkRange 0 3 2; mkRange 4 4 1] 4 = Ret b /\
            (b = true <-> exists r, In r [mkRange 0 3 2; mkRange 4 4 1] /\
                                    start r <= 4 <= end_ r /\
                                    (step r | 4 - start r)).
Proof.
  apply (listSpec_matches_union [mkRange 0 3 2; mkRange 4 4 1] 4).
  repeat constructor; cbn; lia.
Defined.

(** X3.  A wildcard list matches exactly the values within the bounds of its
    field. *)
Theorem wildcard_matches_exactly l f i :
  listSpec_wildcard l f = true ->
  listSpec_matches l i = Ret ((min f <=? i) && (i <=? max f)).
Proof.
  destruct l as [|r [|? ?]]; cbn; try discriminate.
  unfold rangeSpec_wildcard, rangeSpec_matches. intros H.
  apply andb_true_iff in H. destruct H as [H H3].
  apply andb_true_iff in H. destruct H as [H1 H2].
  apply Z.eqb_eq in H1, H2, H3. rewrite H1, H2, H3.
  destruct ((min f <=? i) && (i <=? max f)); [|reflexivity].
  cbn. rewrite Z.rem_1_r. reflexivity.
Qed.

Lemma wildcard_matches_exactly_witness :
  listSpec_matches [mkRange 1 31 1] 31 = Ret ((1 <=? 31) && (31 <=? 31)).
Proof.
  apply (wildcard_matches_exactly [mkRange 1 31 1] dayField 31). reflexivity.
Defined.

Lemma NextIs_found s t r :
  Schedule_ok s -> fixed (loc t) -> NextIs s t r -> r <> zeroTime ->
  candidate s t r /\ within_horizon t r /\
  forall m, candidate s t m -> wall r <= wall m.
Proof.
  intros Hok Fx N Hr.
  destruct (Next_cases s Hok t Fx) as (r0 & N0 & [(C & W & _ & E)|[-> _]]);
    rewrite (NextIs_unique _ _ _ _ N N0) in *; [auto|contradiction].
Qed.

Lemma candidate_after s t m :
  fixed (loc t) -> candidate s t m -> Before t m = true.
Proof.
  intros Fx [L A B _]. destruct (truncMinute_wall t Fx) as [Wt Lt].
  rewrite (Before_wall t) in * by auto.
  apply Z.ltb_lt. apply Z.ltb_lt in B. rewrite Wt in B.
  unfold aligned in A. clear - A B. zdm.
Qed.

(** A candidate of [t'] is one of [t] when [t] is not after [t']. *)
Lemma candidate_weaken s t t' m :
  fixed (loc t) -> loc t' = loc t -> wall t <= wall t' ->
  candidate s t' m -> candidate s t m.
Proof.
  intros Fx L Le [Lm Am Bm Fm].
  assert (Fx' : fixed (loc t')) by (rewrite L; exact Fx).
  destruct (truncMinute_wall t Fx) as [Wt Lt].
  destruct (truncMinute_wall t' Fx') as [Wt' Lt'].
  split; auto; [congruence|].
  rewrite (Before_wall t) in * by (auto; congruence).
  apply Z.ltb_lt. apply Z.ltb_lt in Bm. rewrite Wt. rewrite Wt' in Bm.
  clear - Bm Le. zdm.
Qed.

(** An aligned instant of [t]'s location after [t] is after the start of the
    minute of [t]. *)
Lemma candidate_intro s t r :
  fixed (loc t) -> loc r = loc t -> aligned r -> wall t < wall r ->
  fires s r = true -> candidate s t r.
Proof.
  intros Fx L A Lt F. destruct (truncMinute_wall t Fx) as [Wt Ltr].
  split; auto. rewrite (Before_wall t) by auto.
  apply Z.ltb_lt. rewrite Wt. clear - Lt. zdm.
Qed.

(** X4.  In a location without transitions, on a schedule without zero
    step whose month list admits a month: an instant returned by [Next]
    satisfies the five constraints, has zero seconds and nanoseconds, is
    strictly after [t] and not after [t.AddDate(8, 0, 0)]. *)
Theorem Next_result_fires s t r :
  Schedule_ok s -> fixed (Location_ t) -> NextIs s t r -> r <> zeroTime ->
  fires s r = true /\ Second_ r = 0 /\ Nanosecond_ r = 0 /\
  Before t r = true /\ Before (AddDate t 8 0 0) r = false.
Proof.
  intros Hok Fx N Hr. destruct (NextIs_found s t r Hok Fx N Hr) as (C & W & _).
  split; [apply (cand_fires _ _ _ C)|].
  pose proof (cand_aligned _ _ _ C) as A. unfold aligned in A.
  split; [unfold Second_; rewrite A; reflexivity|].
  split; [unfold Nanosecond_; clear - A; zdm|].
  split; [apply (candidate_after s _ _ Fx), C|exact W].
Qed.

Lemma everyFiveMinutes_first :
  NextIs everyFiveMinutes (Date 2000 1 1 0 0 0 0 UTC)
         (Date 2000 1 1 0 5 0 0 UTC) /\
  Date 2000 1 1 0 5 0 0 UTC <> zeroTime.
Proof.
  split.
  - apply (Next_fuel_NextIs _ _ 100). vm_compute. reflexivity.
  - intro H. vm_compute in H. discriminate H.
Qed.

Lemma Next_result_fires_witness :
  fires everyFiveMinutes (Date 2000 1 1 0 5 0 0 UTC) = true /\
  Second_ (Date 2000 1 1 0 5 0 0 UTC) = 0 /\
  Nanosecond_ (Date 2000 1 1 0 5 0 0 UTC) = 0 /\
  Before (Date 2000 1 1 0 0 0 0 UTC) (Date 2000 1 1 0 5 0 0 UTC) = true /\
  Before (AddDate (Date 2000 1 1 0 0 0 0 UTC) 8 0 0)
         (Date 2000 1 1 0 5 0 0 UTC) = false.
Proof.
  exact (Next_result_fires everyFiveMinutes (Date 2000 1 1 0 0 0 0 UTC)
           (Date 2000 1 1 0 5 0 0 UTC) everyFiveMinutes_ok eq_refl
           (proj1 everyFiveMinutes_first) (proj2 everyFiveMinutes_first)).
Defined.

(** The next firing from [t'] is [r] when [r] is a candidate of [t'], every
    candidate of [t'] is one of [t], and [r] is the next firing from [t]. *)
Lemma Next_from_between s t t' r :
  Schedule_ok s -> fixed (loc t) -> loc t' = loc t ->
  NextIs s t r -> r <> zeroTime ->
  (forall m, candidate s t' m -> candidate s t m) ->
  candidate s t' r ->
  (forall k, 0 < k -> fires s (daysEarlier r k) = true ->
             wall t' < wall r - k * nsPerDay -> False) ->
  NextIs s t' r.
Proof.
  intros Hok Fx L N Hr Sub C' Hno.
  assert (Fx' : fixed (loc t')) by (rewrite L; exact Fx).
  destruct (NextIs_found s t r Hok Fx N Hr) as (C & W & E).
  pose proof (cand_fixed _ _ _ Fx C) as Fr.
  destruct (Next_cases s Hok t' Fx') as (r' & N' & [(Cr & _ & _ & E')|[-> Z]]).
  - pose proof (E' r C'). pose proof (E r' (Sub _ Cr)).
    replace r with r'; [exact N'|].
    apply Time_eq; [lia| |apply (cand_fixed _ _ _ Fx' Cr)].
    rewrite (cand_loc _ _ _ Cr), (cand_loc _ _ _ C). exact L.
  - exfalso. destruct (horizon_wall t' Fx') as [HL HW].
    destruct (Z_lt_ge_dec (wall (AddDate t' 8 0 0)) (wall r)) as [Lt|G].
    + destruct (earlier_firing s r Fr (cand_fires _ _ _ C))
        as (k & Hk & Fk & Kb).
      destruct (daysEarlier_wall r k Fr) as [Wd Ld].
      apply (Hno k Hk Fk); unfold_units; nia.
    + apply (Z r C'). unfold within_horizon.
      rewrite (Before_wall t')
        by (auto; rewrite (cand_loc _ _ _ C); auto).
      apply Z.ltb_ge. lia.
Qed.

(** X5.  In a location without transitions, on a schedule without zero step
    whose month list admits a month: evaluating again at any instant from
    [t] up to, but excluding, the result gives the same result; no firing is
    skipped and none is repeated. *)
Theorem Next_stable s t t' r :
  Schedule_ok s -> fixed (Location_ t) -> NextIs s t r -> r <> zeroTime ->
  loc t' = loc t -> Before t' t = false -> Before t' r = true ->
  NextIs s t' r.
Proof.
  intros Hok Fx N Hr L Ht Hr'.
  assert (Fx' : fixed (loc t')) by (rewrite L; exact Fx).
  destruct (NextIs_found s t r Hok Fx N Hr) as (C & W & E).
  pose proof (cand_fixed _ _ _ Fx C) as Fr.
  rewrite (Before_wall t) in Ht by auto. apply Z.ltb_ge in Ht.
  rewrite (Before_wall t) in Hr' by (auto; apply (cand_loc _ _ _ C)).
  apply Z.ltb_lt in Hr'.
  assert (Sub : forall m, candidate s t' m -> candidate s t m)
    by (intros m; apply candidate_weaken; auto).
  assert (C' : candidate s t' r).
  { apply candidate_intro; auto.
    - rewrite (cand_loc _ _ _ C). auto.
    - apply (cand_aligned _ _ _ C).
    - apply (cand_fires _ _ _ C). }
  apply (Next_from_between s t t' r Hok Fx L N Hr Sub C').
  intros k Hk Fk Lk.
  destruct (daysEarlier_wall r k Fr) as [Wd Ld].
  assert (Ck : candidate s t' (daysEarlier r k)).
  { destruct (daysEarlier_fields r k Fr) as (_ & _ & _ & Al).
    apply candidate_intro; auto.
    - rewrite Ld, (cand_loc _ _ _ C). auto.
    - apply Al, (cand_aligned _ _ _ C).
    - rewrite Wd. exact Lk. }
  pose proof (E _ (Sub _ Ck)) as Le. rewrite Wd in Le. unfold_units. nia.
Qed.

Lemma Next_stable_witness :
  NextIs everyFiveMinutes (Date 2000 1 1 0 4 59 999 UTC)
         (Date 2000 1 1 0 5 0 0 UTC).
Proof.
  apply (Next_stable everyFiveMinutes (Date 2000 1 1 0 0 0 0 UTC)
           (Date 2000 1 1 0 4 59 999 UTC) (Date 2000 1 1 0 5 0 0 UTC)
           everyFiveMinutes_ok eq_refl (proj1 everyFiveMinutes_first)
           (proj2 everyFiveMinutes_first)).
  - reflexivity.
  - vm_compute. reflexivity.
  - vm_compute. reflexivity.
Defined.

Lemma truncMinute_fields t :
  fixed (loc t) ->
  loc (truncMinute t) = loc t /\
  dayNumber (truncMinute t) = dayNumber t /\
  wall (truncMinute t) mod Minute = 0 /\
  wall t - wall (truncMinute t) = wall t mod Minute.
Proof.
  intros Fx. destruct (truncMinute_wall t Fx) as [W L].
  unfold dayNumber. rewrite W. split; [exact L|].
  repeat split; clear; zdm.
Qed.

Lemma candidate_truncMinute s t m :
  fixed (loc t) -> (candidate s (truncMinute t) m <-> candidate s t m).
Proof.
  intros Fx. destruct (truncMinute_wall t Fx) as [W L].
  assert (E : truncMinute (truncMinute t) = truncMinute t).
  { assert (Fx' : fixed (loc (truncMinute t))) by exact Fx.
    destruct (truncMinute_wall _ Fx') as [W' L'].
    apply Time_eq; [|exact L'|exact Fx]. rewrite W', W. clear. zdm. }
  split; intros [Lm A B F]; split; auto; congruence.
Qed.

Lemma within_horizon_truncMinute t m :
  fixed (loc t) -> loc m = loc t -> aligned m ->
  (within_horizon (truncMinute t) m <-> within_horizon t m).
Proof.
  intros Fx L A. destruct (truncMinute_fields t Fx) as (Lt & Dt & At & Wt).
  assert (Fx' : fixed (loc (truncMinute t))) by exact Fx.
  unfold within_horizon.
  rewrite (Before_wall t (AddDate (truncMinute t) 8 0 0) m) by auto.
  rewrite (Before_wall t (AddDate t 8 0 0) m) by auto.
  rewrite !Z.ltb_ge. rewrite (AddDate_wall _ _ _ _ Fx').
  rewrite (AddDate_wall _ _ _ _ Fx).
  unfold Year, Month, Day. rewrite Dt. unfold aligned in A.
  generalize (daysFromCivil (civilYear (dayNumber t) + 8)
                (civilMonth (dayNumber t) + 0) (civilDay (dayNumber t) + 0)).
  intros d. clear - A At Wt. zdm.
Qed.

(** Two instants with the same candidates, the same ones within the
    horizon, have the same [Next]. *)
Lemma Next_same s t t' r :
  Schedule_ok s -> fixed (loc t) -> loc t' = loc t ->
  (forall m, candidate s t m <-> candidate s t' m) ->
  (forall m, candidate s t m -> (within_horizon t m <-> within_horizon t' m)) ->
  NextIs s t r -> NextIs s t' r.
Proof.
  intros Hok Fx L Hc Hw N.
  assert (Fx' : fixed (loc t')) by (rewrite L; exact Fx).
  destruct (Next_cases s Hok t Fx) as (r0 & N0 & H0).
  rewrite <- (NextIs_unique _ _ _ _ N N0) in H0. clear N0 r0.
  destruct (Next_cases s Hok t' Fx') as (r' & N' & H').
  replace r with r'; [exact N'|].
  destruct H0 as [(C & W & _ & E)|[-> Z]], H' as [(C' & W' & _ & E')|[-> Z']].
  - pose proof (E r' (proj2 (Hc _) C')). pose proof (E' r (proj1 (Hc _) C)).
    apply Time_eq; [lia| |apply (cand_fixed _ _ _ Fx' C')].
    rewrite (cand_loc _ _ _ C'), (cand_loc _ _ _ (proj1 (Hc _) C)).
    reflexivity.
  - exfalso. apply (Z' r (proj1 (Hc _) C)). apply (Hw r C), W.
  - exfalso. apply (Z r' (proj2 (Hc _) C')).
    apply (Hw r' (proj2 (Hc _) C')), W'.
  - reflexivity.
Qed.

(** X6.  In a location without transitions, [Next] discards the seconds and
    nanoseconds of its argument: the zero time included, the result from [t]
    is the result from the start of the minute containing [t]. *)
Theorem Next_ignores_seconds s t r :
  Schedule_ok s -> fixed (Location_ t) ->
  NextIs s t r -> NextIs s (truncMinute t) r.
Proof.
  intros Hok Fx. apply Next_same; [exact Hok|exact Fx|reflexivity| |].
  - intros m. symmetry. apply candidate_truncMinute. exact Fx.
  - intros m C. symmetry.
    apply within_horizon_truncMinute;
      [exact Fx|apply (cand_loc _ _ _ C)|apply (cand_aligned _ _ _ C)].
Qed.

Lemma Next_ignores_seconds_witness :
  NextIs everyFiveMinutes (truncMinute (Date 2000 1 1 0 4 59 999 UTC))
         (Date 2000 1 1 0 5 0 0 UTC).
Proof.
  apply (Next_ignores_seconds everyFiveMinutes
           (Date 2000 1 1 0 4 59 999 UTC) (Date 2000 1 1 0 5 0 0 UTC)
           everyFiveMinutes_ok eq_refl).
  apply (Next_fuel_NextIs _ _ 100). vm_compute. reflexivity.
Defined.

Lemma monthLoop_no_month s :
  steps_nonzero (month s) ->
  (forall m, 1 <= m <= 12 -> listSpec_matchesb (month s) m = false) ->
  forall fuel t, monthLoop fuel s t = OutOfFuel.
Proof.
  intros Hs Hn. induction fuel as [|fuel IH]; intros t; [reflexivity|].
  cbn [monthLoop]. rewrite (listSpec_matches_ok _ _ Hs).
  rewrite (Hn _ (Month_bounds t)). cbn [bind]. apply IH.
Qed.

(** X7.  On a schedule whose month list admits no month of the year (the zero
    value [Schedule{}], with its empty lists, is one), [Next] never returns:
    the loop over the months has no exit, and every fuel is exhausted.  This
    holds from every [t] of a location, with or without transitions, whose
    offsets lie within a day of each other. *)
Theorem Next_spins_without_month s :
  steps_nonzero (month s) ->
  (forall m, 1 <= m <= 12 -> listSpec_matchesb (month s) m = false) ->
  forall fuel t, steady (Location_ t) -> Next fuel s t = OutOfFuel.
Proof.
  intros Hs Hn fuel t St. rewrite Next_unfold.
  destruct fuel as [|fuel]; [reflexivity|]. cbn [wrapLoop].
  rewrite first_candidate_before_horizon by exact St.
  rewrite (monthLoop_no_month s Hs Hn). reflexivity.
Qed.

Lemma steady_newYork : steady newYork.
Proof.
  intros a b Ha Hb. cbn in Ha, Hb.
  repeat match goal with H : _ \/ _ |- _ => destruct H as [<-|H] end;
    try contradiction; lia.
Qed.

Lemma Next_spins_without_month_witness :
  Next 1000 (mkSchedule [] [] [] [] []) (Date 2000 10 29 0 30 0 0 newYork)
  = OutOfFuel.
Proof.
  apply (Next_spins_without_month (mkSchedule [] [] [] [] [])).
  - constructor.
  - intros m _. reflexivity.
  - exact steady_newYork.
Defined.

Lemma next_year y m d :
  1 <= m <= 12 -> 1 <= d <= daysIn y m -> ~ (m = 2 /\ d = 29) ->
  1 <= d <= daysIn (y + 1) m /\
  365 <= daysFromCivil (y + 1) m d - daysFromCivil y m d <= 366.
Proof.
  intros Hm Hd N. split.
  - destruct (Z.eq_dec m 2) as [->|M].
    + rewrite daysIn_feb in *. destruct (isLeap y), (isLeap (y + 1)); lia.
    + rewrite (daysIn_other (y + 1) y) by assumption. exact Hd.
  - rewrite !daysFromCivil_valid by exact Hm.
    pose proof (daysSinceEpoch_succ y) as S1.
    unfold yearLen, daysBeforeMonth in *.
    leap_cases y; leap_cases (y + 1); destruct (3 <=? m) eqn:M3; cbn [andb];
      lia.
Qed.

Lemma next_leap_day y :
  isLeap y = true ->
  (isLeap (y + 4) = true /\
   daysFromCivil (y + 4) 2 29 - daysFromCivil y 2 29 = 1461) \/
  (isLeap (y + 8) = true /\
   daysFromCivil (y + 8) 2 29 - daysFromCivil y 2 29 = 2921).
Proof.
  intros L. rewrite !daysFromCivil_valid by lia.
  unfold daysBeforeMonth. cbn [Z.leb Z.compare andb daysBefore].
  rewrite !andb_false_r. apply isLeap_spec in L.
  leap_cases (y + 4).
  - left. split; [reflexivity|]. unfold daysSinceEpoch.
    Z.div_mod_to_equations. lia.
  - right. assert (L8 : isLeap (y + 8) = true).
    { apply isLeap_spec. Z.div_mod_to_equations. lia. }
    split; [exact L8|]. unfold daysSinceEpoch. Z.div_mod_to_equations. lia.
Qed.

(** Every firing is followed by another one. *)
Lemma later_firing s r :
  fixed (loc r) ->
  fires s r = true ->
  exists k, 0 < k /\ fires s (daysEarlier r (- k)) = true.
Proof.
  intros Fx F.
  assert (HD : dayMatchesb s r = true).
  { unfold fires in F. destruct (dayMatchesb s r); [reflexivity|].
    rewrite andb_false_r in F. discriminate. }
  destruct (civil_of_days (dayNumber r)) as (Hm & Hd & E).
  fold (Year r) (Month r) (Day r) in Hm, Hd, E.
  assert (Move : forall k, 0 < k ->
            civilMonth (dayNumber r + k) = Month r ->
            dayMatchesb s (daysEarlier r (- k)) = true ->
            exists k, 0 < k /\ fires s (daysEarlier r (- k)) = true).
  { intros k Hk M D. exists k. split; [exact Hk|].
    destruct (daysEarlier_fields r (- k) Fx) as (N & _).
    apply fires_daysEarlier; [exact Fx|exact F| |exact D].
    unfold Month at 1. rewrite N. replace (dayNumber r - - k)
      with (dayNumber r + k) by lia. exact M. }
  assert (Nk : forall k, dayNumber (daysEarlier r (- k)) = dayNumber r + k).
  { intros k. destruct (daysEarlier_fields r (- k) Fx) as (N & _). lia. }
  destruct (dayMatchesb_routes s r HD) as [[Dm Dw]|[Wm Ww]].
  - assert (G : exists k, 0 < k /\ civilMonth (dayNumber r + k) = Month r /\
                          civilDay (dayNumber r + k) = Day r).
    { destruct (Z.eq_dec (Month r) 2) as [M2|M2];
        [destruct (Z.eq_dec (Day r) 29) as [D29|D29]|].
      - rewrite M2, D29 in *. rewrite daysIn_feb in Hd.
        destruct (isLeap (Year r)) eqn:L; [|lia].
        destruct (next_leap_day (Year r) L) as [[L' K]|[L' K]].
        + exists 1461. replace (dayNumber r + 1461)
            with (daysFromCivil (Year r + 4) 2 29) by lia.
          destruct (days_of_civil (Year r + 4) 2 29) as (_ & B & C);
            [lia|rewrite daysIn_feb, L'; lia|].
          repeat split; auto; lia.
        + exists 2921. replace (dayNumber r + 2921)
            with (daysFromCivil (Year r + 8) 2 29) by lia.
          destruct (days_of_civil (Year r + 8) 2 29) as (_ & B & C);
            [lia|rewrite daysIn_feb, L'; lia|].
          repeat split; auto; lia.
      - destruct (next_year (Year r) (Month r) (Day r) Hm Hd
                    ltac:(lia)) as [V K].
        exists (daysFromCivil (Year r + 1) (Month r) (Day r) - dayNumber r).
        replace (dayNumber r + (daysFromCivil (Year r + 1) (Month r) (Day r) - dayNumber r))
          with (daysFromCivil (Year r + 1) (Month r) (Day r)) by lia.
        destruct (days_of_civil (Year r + 1) (Month r) (Day r) Hm V)
          as (_ & B & C).
        repeat split; auto; lia.
      - destruct (next_year (Year r) (Month r) (Day r) Hm Hd
                    ltac:(lia)) as [V K].
        exists (daysFromCivil (Year r + 1) (Month r) (Day r) - dayNumber r).
        replace (dayNumber r + (daysFromCivil (Year r + 1) (Month r) (Day r) - dayNumber r))
          with (daysFromCivil (Year r + 1) (Month r) (Day r)) by lia.
        destruct (days_of_civil (Year r + 1) (Month r) (Day r) Hm V)
          as (_ & B & C).
        repeat split; auto; lia. }
    destruct G as (k & Hk & GM & GD).
    apply (Move k Hk GM).
    apply (dayMatchesb_day_route s r); auto.
    unfold Day at 1. rewrite Nk. exact GD.
  - set (s0 := daysFromCivil (Year r + 1) (Month r) 1).
    set (n' := s0 + (dayNumber r - s0) mod 7).
    assert (V1 : 1 <= 1 <= daysIn (Year r) (Month r)).
    { pose proof (daysIn_bounds (Year r) (Month r) Hm). lia. }
    destruct (next_year (Year r) (Month r) 1 Hm V1 ltac:(lia)) as [_ K].
    fold s0 in K.
    assert (E1 : daysFromCivil (Year r) (Month r) 1 = dayNumber r - Day r + 1).
    { rewrite <- E. rewrite !daysFromCivil_valid by exact Hm. lia. }
    pose proof (Day_bounds r) as DB.
    assert (Hn' : n' = daysFromCivil (Year r + 1) (Month r)
                         (1 + (dayNumber r - s0) mod 7)).
    { unfold n', s0. rewrite !daysFromCivil_valid by exact Hm. lia. }
    destruct (days_of_civil (Year r + 1) (Month r)
                (1 + (dayNumber r - s0) mod 7) Hm) as (_ & B & _).
    { pose proof (daysIn_bounds (Year r + 1) (Month r) Hm).
      Z.div_mod_to_equations. lia. }
    rewrite <- Hn' in B.
    assert (Hk : 0 < n' - dayNumber r).
    { unfold n'. Z.div_mod_to_equations. lia. }
    apply (Move (n' - dayNumber r) Hk).
    + replace (dayNumber r + (n' - dayNumber r)) with n' by lia. exact B.
    + apply (dayMatchesb_weekday_route s r); auto.
      unfold Weekday. rewrite Nk.
      replace (dayNumber r + (n' - dayNumber r)) with n' by lia.
      unfold n'. Z.div_mod_to_equations. lia.
Qed.

Lemma fires_wall s a b : wall a = wall b -> fires s a = fires s b.
Proof.
  intros E. unfold fires, dayMatchesb, Month, Day, Weekday, Hour_, Minute_,
    dayNumber. rewrite E. reflexivity.
Qed.

(** In a location without transitions every reading of the wall clock is
    the reading of an instant. *)
Lemma reading_exists l w : fixed l -> exists u, loc u = l /\ wall u = w.
Proof.
  intros Fx. exists (mkTime (w - locOffset l * Second) l).
  split; [reflexivity|]. rewrite wall_fixed by exact Fx.
  cbn [instant loc]. lia.
Qed.

(** If [s] fires at some instant, it fires at a candidate of every [t]. *)
Lemma candidate_exists s q t :
  fixed (loc t) -> fires s q = true -> exists c, candidate s t c.
Proof.
  intros Fx F.
  destruct (reading_exists (loc t) (wall q) Fx) as (q0 & L0 & W0).
  rewrite <- (fires_wall s q0 q W0) in F. clear W0 q.
  assert (Fw : forall n q, loc q = loc t -> fires s q = true ->
            wall t + Minute - wall q < Z.of_nat n * nsPerDay ->
            exists q', loc q' = loc t /\ fires s q' = true /\
                       wall t + Minute < wall q').
  { induction n as [|n IH]; intros q Lq Fq H;
      [exists q; split; [auto|split; [auto|lia]]|].
    destruct (Z_lt_ge_dec (wall t + Minute) (wall q)) as [L|G];
      [exists q; auto|].
    assert (Fxq : fixed (loc q)) by (rewrite Lq; exact Fx).
    destruct (later_firing s q Fxq Fq) as (k & Hk & Fk).
    destruct (daysEarlier_wall q (- k) Fxq) as [Wd Ld].
    apply (IH (daysEarlier q (- k))); [congruence|exact Fk|].
    rewrite Wd. unfold_units. nia. }
  destruct (Fw (Z.to_nat (wall t + Minute - wall q0 + 1)) q0 L0 F)
    as (q' & L' & F' & Lt').
  { unfold_units. nia. }
  destruct (reading_exists (loc t) (wall q' - wall q' mod Minute) Fx)
    as (c & Lc & Wc).
  exists c. apply candidate_intro; auto.
  - unfold aligned. rewrite Wc. clear. zdm.
  - rewrite Wc. clear - Lt'. zdm.
  - rewrite <- F'. unfold fires, dayMatchesb, Month, Day, Weekday, Hour_,
      Minute_, dayNumber. rewrite Wc.
    replace ((wall q' - wall q' mod Minute) / nsPerDay)
      with (wall q' / nsPerDay) by (clear; zdm).
    replace ((wall q' - wall q' mod Minute) mod nsPerDay / Hour)
      with (wall q' mod nsPerDay / Hour) by (clear; zdm).
    replace ((wall q' - wall q' mod Minute) mod Hour / Minute)
      with (wall q' mod Hour / Minute) by (clear; zdm).
    reflexivity.
Qed.

(** X8.  In a location without transitions, on a schedule without zero step
    whose month list admits a month, the eight-year horizon never cuts off a
    schedule that fires: if the readings of any instant at all satisfy the
    five constraints, [Next] returns, from every [t], a later instant that
    does.  The zero time therefore is returned only for schedules that no
    instant satisfies. *)
Theorem Next_finds_every_schedule_that_fires s q t :
  Schedule_ok s -> fixed (Location_ t) -> fires s q = true ->
  exists r, NextIs s t r /\ fires s r = true /\ Before t r = true.
Proof.
  intros Hok Fx F.
  destruct (candidate_exists s q t Fx F) as (c0 & C0).
  destruct (Next_cases s Hok t Fx) as (r & N & [(C & _)|[-> Z]]).
  - exists r. split; [exact N|]. split; [apply (cand_fires _ _ _ C)|].
    apply (candidate_after s _ _ Fx), C.
  - exfalso. destruct (horizon_wall t Fx) as [HL HW].
    assert (Bw : forall n c, candidate s t c ->
              wall c - wall (AddDate t 8 0 0) < Z.of_nat n * nsPerDay ->
              False).
    { assert (In : forall c, candidate s t c ->
                wall c <= wall (AddDate t 8 0 0) -> False).
      { intros c C Le. apply (Z c C). unfold within_horizon.
        rewrite (Before_wall t) by (auto; apply (cand_loc _ _ _ C)).
        apply Z.ltb_ge. exact Le. }
      induction n as [|n IH]; intros c C H; [apply (In c C); lia|].
      destruct (Z_lt_ge_dec (wall (AddDate t 8 0 0)) (wall c)) as [L|G];
        [|apply (In c C); lia].
      pose proof (cand_fixed _ _ _ Fx C) as Fc.
      destruct (earlier_firing s c Fc (cand_fires _ _ _ C))
        as (k & Hk & Fk & Kb).
      destruct (daysEarlier_wall c k Fc) as [Wd Ld].
      apply (IH (daysEarlier c k)).
      - apply daysEarlier_candidate; auto.
        + apply (cand_loc _ _ _ C).
        + apply (cand_aligned _ _ _ C).
        + unfold_units. nia.
      - rewrite Wd. unfold_units. nia. }
    apply (Bw (Z.to_nat (wall c0 - wall (AddDate t 8 0 0) + 1)) c0 C0).
    unfold_units. nia.
Qed.

Lemma Next_finds_every_schedule_that_fires_witness :
  exists r, NextIs thirteenthOrFriday (Date 2000 1 1 0 0 0 0 UTC) r /\
            fires thirteenthOrFriday r = true /\
            Before (Date 2000 1 1 0 0 0 0 UTC) r = true.
Proof.
  apply (Next_finds_every_schedule_that_fires thirteenthOrFriday
           (Date 1999 8 13 0 0 0 0 UTC) (Date 2000 1 1 0 0 0 0 UTC)
           thirteenthOrFriday_ok eq_refl).
  vm_compute. reflexivity.
Defined.

(** X9.  The day and weekday columns are alternatives when both are
    restricted.  Let the day list of [s] be no wildcard, and let [dayMatches]
    return true at [t] for [s] with the wildcard weekday list.  Then it
    returns true at [t] for [s] with any weekday list [l] that is no wildcard
    and has no zero step: restricting the weekday removes no day. *)
Theorem weekday_restriction_broadens s l t :
  listSpec_wildcard (day s) dayField = false ->
  listSpec_wildcard l weekdayField = false ->
  steps_nonzero l ->
  dayMatches (withWeekday s (full weekdayField)) t = Ret true ->
  dayMatches (withWeekday s l) t = Ret true.
Proof.
  intros Hd Hl Hs. unfold dayMatches, withWeekday. cbn [day weekday].
  rewrite Hd, Hl. cbn [orb].
  rewrite (listSpec_matches_ok l _ Hs).
  rewrite (full_matches weekdayField) by apply Weekday_bounds.
  destruct (listSpec_matches (day s) (Day t)) as [[|]| |]; cbn [bind];
    try discriminate.
  intros _. reflexivity.
Qed.

Lemma weekday_restriction_broadens_witness :
  dayMatches (withWeekday thirteenthOrFriday (only 5))
             (Date 2000 1 13 0 0 0 0 UTC) = Ret true.
Proof.
  apply (weekday_restriction_broadens thirteenthOrFriday (only 5)
           (Date 2000 1 13 0 0 0 0 UTC)).
  - reflexivity.
  - reflexivity.
  - repeat constructor. cbn. lia.
  - vm_compute. reflexivity.
Defined.

(** X10.  In a location without transitions, on a schedule without zero step
    whose month list admits a month, [Next] is monotone: from a later instant
    of the same location it does not return an earlier firing. *)
Theorem Next_monotone s t t' r r' :
  Schedule_ok s -> fixed (Location_ t) ->
  loc t' = loc t -> Before t' t = false ->
  NextIs s t r -> NextIs s t' r' -> r <> zeroTime -> r' <> zeroTime ->
  Before r' r = false.
Proof.
  intros Hok Fx L Ht N N' Hr Hr'.
  assert (Fx' : fixed (loc t')) by (rewrite L; exact Fx).
  destruct (NextIs_found s t r Hok Fx N Hr) as (C & _ & E).
  destruct (NextIs_found s t' r' Hok Fx' N' Hr') as (C' & _ & _).
  rewrite (Before_wall t) in Ht by auto. apply Z.ltb_ge in Ht.
  pose proof (candidate_weaken s t t' r' Fx L Ht C') as Ct.
  pose proof (cand_loc _ _ _ Ct) as Lr'. pose proof (cand_loc _ _ _ C) as Lr.
  rewrite (Before_wall t) by auto.
  apply Z.ltb_ge. apply E, Ct.
Qed.

Lemma Next_monotone_witness :
  Before (Date 2000 1 1 0 10 0 0 UTC) (Date 2000 1 1 0 5 0 0 UTC) = false.
Proof.
  apply (Next_monotone everyFiveMinutes (Date 2000 1 1 0 0 0 0 UTC)
           (Date 2000 1 1 0 5 0 0 UTC) (Date 2000 1 1 0 5 0 0 UTC)
           (Date 2000 1 1 0 10 0 0 UTC) everyFiveMinutes_ok).
  - reflexivity.
  - reflexivity.
  - vm_compute. reflexivity.
  - apply (proj1 everyFiveMinutes_first).
  - apply (Next_fuel_NextIs _ _ 100). vm_compute. reflexivity.
  - apply (proj2 everyFiveMinutes_first).
  - intro H. vm_compute in H. discriminate H.
Defined.

(** X11.  Go's [%] takes the sign of the dividend: a range with a negative step
    matches the same values as the range with the opposite step. *)
Theorem negative_step_matches r i :
  rangeSpec_matches (mkRange (start r) (end_ r) (- step r)) i
  = rangeSpec_matches r i.
Proof.
  unfold rangeSpec_matches; cbn [start end_ step].
  destruct ((start r <=? i) && (i <=? end_ r)); [|reflexivity].
  destruct (Z.eqb_spec (step r) 0) as [E|E].
  - rewrite E. reflexivity.
  - destruct (Z.eqb_spec (- step r) 0); [lia|].
    rewrite Z.rem_opp_r by exact E. reflexivity.
Qed.

(** X26.  The contract of [Next] in a location without transitions, on a
    schedule without zero step whose month list admits a month: [Next(t)]
    returns a result [r]; when some instant at minute resolution, strictly
    after the start of the minute containing [t] and not after
    [t.AddDate(8, 0, 0)], satisfies the five constraints, [r] is the earliest
    such instant; when there is none, [r] is the zero time. *)
Theorem Next_contract s t :
  Schedule_ok s -> fixed (Location_ t) ->
  exists r, NextIs s t r /\
    ((exists m, candidate s t m /\ within_horizon t m) ->
     candidate s t r /\ within_horizon t r /\
     forall m, candidate s t m -> Before m r = false) /\
    ((forall m, candidate s t m -> ~ within_horizon t m) ->
     r = zeroTime).
Proof.
  intros Hok Fx.
  destruct (Next_cases s Hok t Fx) as (r & N & [(C & W & _ & E)|[-> Z]]).
  - exists r. split; [exact N|]. split.
    + intros _. split; [exact C|]. split; [exact W|].
      intros m Cm. pose proof (cand_loc _ _ _ Cm). pose proof (cand_loc _ _ _ C).
      rewrite (Before_wall t) by auto.
      apply Z.ltb_ge. apply E, Cm.
    + intros H. exfalso. exact (H r C W).
  - exists zeroTime. split; [exact N|]. split.
    + intros (m & Cm & Wm). exfalso. exact (Z m Cm Wm).
    + reflexivity.
Qed.

Lemma Next_contract_witness :
  exists r, NextIs everyFiveMinutes (Date 2000 1 1 0 0 0 0 UTC) r /\
    ((exists m, candidate everyFiveMinutes (Date 2000 1 1 0 0 0 0 UTC) m /\
                within_horizon (Date 2000 1 1 0 0 0 0 UTC) m) ->
     candidate everyFiveMinutes (Date 2000 1 1 0 0 0 0 UTC) r /\
     within_horizon (Date 2000 1 1 0 0 0 0 UTC) r /\
     forall m, candidate everyFiveMinutes (Date 2000 1 1 0 0 0 0 UTC) m ->
               Before m r = false) /\
    ((forall m, candidate everyFiveMinutes (Date 2000 1 1 0 0 0 0 UTC) m ->
                ~ within_horizon (Date 2000 1 1 0 0 0 0 UTC) m) ->
     r = zeroTime).
Proof.
  exact (Next_contract everyFiveMinutes (Date 2000 1 1 0 0 0 0 UTC)
           everyFiveMinutes_ok eq_refl).
Defined.

(** X27.  In a location without transitions, [Next] returns on every schedule
    without zero step whose month list admits a month, on every fuel from
    some bound on: the zero time, or an instant that fires and is not after
    the horizon.  On [0 0 31 2 *], which no date satisfies, it returns the
    zero time. *)
Theorem Next_terminates :
  (forall s t, Schedule_ok s -> fixed (Location_ t) ->
     exists r, NextIs s t r /\
               (r = zeroTime \/ (candidate s t r /\ within_horizon t r))) /\
  (exists s, ParseSchedule ["0"; "0"; "31"; "2"; "*"]%string = Ok s /\
     Schedule_ok s /\ (forall m, fires s m = false) /\
     forall t, fixed (Location_ t) -> NextIs s t zeroTime).
Proof.
  split.
  - intros s t Hok Fx.
    destruct (Next_cases s Hok t Fx) as (r & N & [(C & W & _)|[-> _]]).
    + exists r. auto.
    + exists zeroTime. auto.
  - exists februaryThirtyFirst. split; [reflexivity|].
    split; [exact februaryThirtyFirst_ok|].
    split; [exact februaryThirtyFirst_never|exact februaryThirtyFirst_Next].
Qed.

Lemma Next_terminates_witness :
  exists r, NextIs februaryThirtyFirst (Date 2000 1 1 0 0 0 0 UTC) r /\
    (r = zeroTime \/
     (candidate februaryThirtyFirst (Date 2000 1 1 0 0 0 0 UTC) r /\
      within_horizon (Date 2000 1 1 0 0 0 0 UTC) r)).
Proof.
  exact (proj1 Next_terminates februaryThirtyFirst
           (Date 2000 1 1 0 0 0 0 UTC) februaryThirtyFirst_ok eq_refl).
Defined.

(** X28.  Re-evaluation before a firing in a location without transitions, on
    a schedule without zero step whose month list admits a month.  Let
    [Next(S, t)] be an instant [r] other than the zero time, and let [eps] be
    a positive duration such that no instant at minute resolution strictly
    between [r - eps] and [r] satisfies the constraints.  Then
    [Next(S, r - eps)] is [r]. *)
Theorem Next_idempotent s t r eps :
  Schedule_ok s -> fixed (Location_ t) ->
  NextIs s t r -> r <> zeroTime -> 0 < eps ->
  (forall m, loc m = loc r -> aligned m -> fires s m = true ->
             Before (Add r (- eps)) m = true -> Before m r = true -> False) ->
  NextIs s (Add r (- eps)) r.
Proof.
  intros Hok Fx N Hr He Hq.
  destruct (NextIs_found s t r Hok Fx N Hr) as (C & _ & _).
  pose proof (cand_fixed _ _ _ Fx C) as Fr.
  set (t' := Add r (- eps)) in *.
  assert (Wt : wall t' = wall r - eps)
    by (unfold t'; rewrite Add_wall by exact Fr; lia).
  assert (Lt : loc t' = loc r) by reflexivity.
  assert (Fx' : fixed (loc t')) by exact Fr.
  assert (C' : candidate s t' r).
  { apply candidate_intro; auto;
      [apply (cand_aligned _ _ _ C)|lia|apply (cand_fires _ _ _ C)]. }
  destruct (Next_cases s Hok t' Fx') as (r' & N' & [(Cr & _ & _ & E)|[-> Z]]).
  - pose proof (E r C') as Le. pose proof (cand_loc _ _ _ Cr) as Lr'.
    destruct (Z_lt_ge_dec (wall r') (wall r)) as [L|G].
    + exfalso. apply (Hq r').
      * congruence.
      * apply (cand_aligned _ _ _ Cr).
      * apply (cand_fires _ _ _ Cr).
      * apply (candidate_after s _ _ Fx'), Cr.
      * rewrite (Before_wall t') by auto. apply Z.ltb_lt. exact L.
    + replace r with r'; [exact N'|].
      apply Time_eq; [lia|congruence|apply (cand_fixed _ _ _ Fx' Cr)].
  - exfalso. destruct (horizon_wall t' Fx') as [HL HW].
    destruct (Z_lt_ge_dec (wall (AddDate t' 8 0 0)) (wall r)) as [L|G].
    + destruct (earlier_firing s r Fr (cand_fires _ _ _ C))
        as (k & Hk & Fk & Kb).
      destruct (daysEarlier_fields r k Fr) as (_ & _ & _ & Al).
      destruct (daysEarlier_wall r k Fr) as [Wd Ld].
      apply (Hq (daysEarlier r k)); auto.
      * apply Al, (cand_aligned _ _ _ C).
      * rewrite (Before_wall t') by auto. apply Z.ltb_lt.
        rewrite Wd, Wt. unfold_units. nia.
      * rewrite (Before_wall t') by auto. apply Z.ltb_lt.
        rewrite Wd. unfold_units. nia.
    + apply (Z r C'). unfold within_horizon.
      rewrite (Before_wall t') by auto.
      apply Z.ltb_ge. lia.
Qed.

Lemma no_instant_within_a_nanosecond r m :
  Before (Add r (- 1)) m = true -> Before m r = true -> False.
Proof.
  unfold Before, Add; cbn [instant]. rewrite !Z.ltb_lt. lia.
Qed.

Lemma Next_idempotent_witness :
  NextIs everyFiveMinutes (Add (Date 2000 1 1 0 5 0 0 UTC) (- 1))
         (Date 2000 1 1 0 5 0 0 UTC).
Proof.
  apply (Next_idempotent everyFiveMinutes (Date 2000 1 1 0 0 0 0 UTC)
           (Date 2000 1 1 0 5 0 0 UTC) 1 everyFiveMinutes_ok eq_refl
           (proj1 everyFiveMinutes_first) (proj2 everyFiveMinutes_first)).
  - lia.
  - intros m _ _ _. apply no_instant_within_a_nanosecond.
Defined.

(** * Further properties of the parser *)

Lemma parseRangeSpec_Ok s f subs r :
  parseRangeSpec s f subs = Ok r ->
  min f <= start r <= end_ r /\ end_ r <= max f.
Proof.
  unfold parseRangeSpec. intros H.
  apply bindR_Ok in H. destruct H as (stp & _ & H).
  apply bindR_Ok in H. destruct H as (bounds & _ & H).
  destruct (rangeSpec_valid _ f) eqn:V; cbn in H; [|discriminate].
  inversion H; subst. unfold rangeSpec_valid in V. cbn [start end_] in *.
  rewrite !andb_true_iff, !Z.leb_le in V. lia.
Qed.

(** X12.  A range returned by [parseRangeSpec] lies within the bounds of its
    field, start not after end. *)
Theorem parseRangeSpec_bounds s f subs r :
  parseRangeSpec s f subs = Ok r ->
  min f <= start r <= end_ r /\ end_ r <= max f.
Proof. apply parseRangeSpec_Ok. Qed.

Lemma parseRangeSpec_bounds_witness :
  min weekdayField <= start (mkRange 0 3 2) <= end_ (mkRange 0 3 2) /\
  end_ (mkRange 0 3 2) <= max weekdayField.
Proof.
  apply (parseRangeSpec_bounds "7-wed/2" weekdayField weekdaySubstitutions).
  reflexivity.
Defined.

Lemma Split_nonempty s sep : Split s sep <> [].
Proof.
  destruct s as [|c s]; cbn; [discriminate|].
  destruct (Ascii.eqb c sep); [discriminate|].
  destruct (Split s sep); discriminate.
Qed.

Lemma parseRanges_Ok l f subs rs :
  parseRanges l f subs = Ok rs ->
  List.length rs = List.length l /\
  Forall (fun r => min f <= start r <= end_ r /\ end_ r <= max f) rs.
Proof.
  revert rs. induction l as [|s l IH]; cbn; intros rs H.
  - inversion H. split; [reflexivity|constructor].
  - apply bindR_Ok in H. destruct H as (r & Hr & H).
    apply bindR_Ok in H. destruct H as (rs' & Hrs & H).
    inversion H; subst. destruct (IH _ Hrs) as [L F].
    split; [cbn; lia|]. constructor; [|exact F].
    eapply parseRangeSpec_Ok; eauto.
Qed.

Lemma parseListSpec_Ok s f subs l :
  parseListSpec s f subs = Ok l ->
  List.length l = List.length (Split s ",") /\ listSpec_wf l f.
Proof.
  intros H. apply parseRanges_Ok in H. destruct H as [L F].
  split; [exact L|]. split; [|exact F].
  intros ->. apply (Split_nonempty s ","). 
  destruct (Split s ","); [reflexivity|discriminate L].
Qed.

(** X13.  A list returned by [parseListSpec] has one range for each
    comma-separated token of the field, hence at least one, each within the
    bounds of the field. *)
Theorem parseListSpec_wf s f subs l :
  parseListSpec s f subs = Ok l ->
  List.length l = List.length (Split s ",") /\ listSpec_wf l f.
Proof. apply parseListSpec_Ok. Qed.

Lemma parseListSpec_wf_witness :
  List.length [mkRange 0 3 2; mkRange 4 4 1]
  = List.length (Split "7-wed/2,thu" ",") /\
  listSpec_wf [mkRange 0 3 2; mkRange 4 4 1] weekdayField.
Proof.
  apply (parseListSpec_wf "7-wed/2,thu" weekdayField weekdaySubstitutions).
  reflexivity.
Defined.

(** X14.  [parseListSpec] reports no other error than the four range errors, the
    bounds error naming the field that is parsed. *)
Theorem parseListSpec_errors s f subs e :
  parseListSpec s f subs = Err e ->
  e = ErrStep \/ e = ErrStart \/ e = ErrEnd \/ e = ErrBounds f.
Proof. apply parseListSpec_error. Qed.

Lemma parseListSpec_errors_witness :
  ErrBounds minuteField = ErrStep \/ ErrBounds minuteField = ErrStart \/
  ErrBounds minuteField = ErrEnd \/
  ErrBounds minuteField = ErrBounds minuteField.
Proof.
  apply (parseListSpec_errors "0,60" minuteField []). reflexivity.
Defined.

Lemma ParseSchedule_Ok fields :
  (List.length fields <> 5%nat -> ParseSchedule fields = Err ErrFieldCount) /\
  (forall s, ParseSchedule fields = Ok s ->
     List.length fields = 5%nat /\
     listSpec_wf (minute s) minuteField /\ listSpec_wf (hour s) hourField /\
     listSpec_wf (day s) dayField /\ listSpec_wf (month s) monthField /\
     listSpec_wf (weekday s) weekdayField).
Proof.
  split.
  - intros H. destruct fields as [|a [|b [|c [|d [|e [|x fields]]]]]];
      try reflexivity. exfalso. apply H. reflexivity.
  - intros s H.
    destruct fields as [|a [|b [|c [|d [|e [|x fields]]]]]];
      try discriminate H.
    unfold ParseSchedule in H.
    apply bindR_Ok in H. destruct H as (mi & Hmi & H).
    apply bindR_Ok in H. destruct H as (ho & Hho & H).
    apply bindR_Ok in H. destruct H as (da & Hda & H).
    apply bindR_Ok in H. destruct H as (mo & Hmo & H).
    apply bindR_Ok in H. destruct H as (we & Hwe & H).
    inversion H; subst. cbn [minute hour day month weekday].
    split; [reflexivity|].
    repeat split; eapply parseListSpec_Ok; eauto.
Qed.

(** X15.  [ParseSchedule] rejects every slice that has not five elements; the
    schedule it returns for five has five non-empty lists, each range within
    the bounds of its column. *)
Theorem ParseSchedule_wf fields :
  (List.length fields <> 5%nat -> ParseSchedule fields = Err ErrFieldCount) /\
  (forall s, ParseSchedule fields = Ok s ->
     List.length fields = 5%nat /\
     listSpec_wf (minute s) minuteField /\ listSpec_wf (hour s) hourField /\
     listSpec_wf (day s) dayField /\ listSpec_wf (month s) monthField /\
     listSpec_wf (weekday s) weekdayField).
Proof. apply ParseSchedule_Ok. Qed.

Lemma ParseSchedule_wf_witness :
  ParseSchedule ["0"; "0"; "13"; "*"]%string = Err ErrFieldCount /\
  listSpec_wf (weekday thirteenthOrFriday) weekdayField.
Proof.
  split.
  - apply (proj1 (ParseSchedule_wf ["0"; "0"; "13"; "*"]%string)).
    cbn. lia.
  - apply (proj2 (ParseSchedule_wf ["0"; "0"; "13"; "*"; "5"]%string)
             thirteenthOrFriday).
    reflexivity.
Defined.

Lemma listSpec_wf_start l f :
  listSpec_wf l f -> steps_nonzero l ->
  exists i, min f <= i <= max f /\ listSpec_matchesb l i = true.
Proof.
  intros [N F] S. destruct l as [|r l]; [contradiction|].
  inversion F; subst. inversion S; subst.
  exists (start r). split; [lia|]. cbn.
  unfold rangeSpec_matchesb. rewrite Z.sub_diag, Z.rem_0_l by assumption.
  destruct (Z.leb_spec (start r) (start r)); [|lia].
  destruct (Z.leb_spec (start r) (end_ r)); [|lia]. reflexivity.
Qed.

(** X16.  Parsing composes with evaluation: on a schedule [ParseSchedule]
    returned and that has no zero step, [Next] returns from every [t] of a
    location without transitions. *)
Theorem parsed_schedule_evaluates fields s t :
  ParseSchedule fields = Ok s -> no_zero_step s -> fixed (Location_ t) ->
  Schedule_ok s /\ exists r, NextIs s t r.
Proof.
  intros H (S1 & S2 & S3 & S4 & S5) Fx.
  destruct (proj2 (ParseSchedule_Ok fields) s H) as (_ & _ & _ & _ & Wm & _).
  assert (Hok : Schedule_ok s).
  { split; auto. apply (listSpec_wf_start _ monthField); assumption. }
  split; [exact Hok|].
  destruct (Next_cases s Hok t Fx) as (r & N & _). exists r. exact N.
Qed.

Lemma parsed_schedule_evaluates_witness :
  Schedule_ok thirteenthOrFriday /\
  exists r, NextIs thirteenthOrFriday (Date 2000 1 1 0 0 0 0 UTC) r.
Proof.
  apply (parsed_schedule_evaluates ["0"; "0"; "13"; "*"; "5"]%string).
  - reflexivity.
  - repeat split; repeat constructor; cbn; lia.
  - reflexivity.
Defined.

(** X17.  The tokens [*] and [?] both stand for the whole field, in every column:
    the list they parse to is the wildcard of the field. *)
Theorem star_and_question_mark f subs :
  min f <= max f ->
  parseListSpec "*" f subs = Ok (full f) /\
  parseListSpec "?" f subs = Ok (full f) /\
  listSpec_wildcard (full f) f = true.
Proof.
  intros H.
  assert (V : rangeSpec_valid (mkRange (min f) (max f) 1) f = true).
  { unfold rangeSpec_valid; cbn [start end_].
    rewrite !andb_true_iff, !Z.leb_le. lia. }
  unfold parseListSpec, parseRangeSpec, full. cbn. rewrite V. cbn.
  repeat split. unfold rangeSpec_wildcard; cbn. rewrite !Z.eqb_refl.
  reflexivity.
Qed.

Lemma star_and_question_mark_witness :
  parseListSpec "*" dayField [] = Ok (full dayField) /\
  parseListSpec "?" dayField [] = Ok (full dayField) /\
  listSpec_wildcard (full dayField) dayField = true.
Proof. apply (star_and_question_mark dayField []). cbn. lia. Defined.

(** X18.  A token that is neither [*] nor [?], has no slash and no dash, is no key
    of the substitution table and no integer is rejected for its start
    value.  Keys are compared byte by byte: [JAN] is not [jan]. *)
Theorem unknown_value_rejected s f subs :
  cut "/" s = None -> cut "-" s = None ->
  s <> "*"%string -> s <> "?"%string ->
  lookup subs s = None -> Atoi s = None ->
  parseRangeSpec s f subs = Err ErrStart.
Proof.
  intros C1 C2 N1 N2 L A. unfold parseRangeSpec, SplitN2. rewrite C1.
  cbn [bindR hd]. apply String.eqb_neq in N1, N2. rewrite N1, N2.
  cbn [orb]. rewrite C2. cbn [hd]. unfold parseValue. rewrite L, A.
  reflexivity.
Qed.

Lemma unknown_value_rejected_witness :
  parseRangeSpec "JAN" monthField monthSubstitutions = Err ErrStart.
Proof.
  apply (unknown_value_rejected "JAN" monthField monthSubstitutions);
    try reflexivity; discriminate.
Defined.

Lemma lookup_In {V} (m : list (string * V)) k v :
  lookup m k = Some v -> In (k, v) m.
Proof.
  induction m as [|[k' v'] m IH]; cbn; [discriminate|].
  destruct (String.eqb_spec k k') as [->|N].
  - intros H; inversion H; auto.
  - auto.
Qed.

(** X19.  Every name of the month and weekday tables, and the alias [7], parses on
    its own to the single value the table gives for it. *)
Theorem symbolic_names_parse k n :
  (lookup monthSubstitutions k = Some n ->
   parseRangeSpec k monthField monthSubstitutions = Ok (mkRange n n 1)) /\
  (lookup weekdaySubstitutions k = Some n ->
   parseRangeSpec k weekdayField weekdaySubstitutions = Ok (mkRange n n 1)).
Proof.
  split; intros H; apply lookup_In in H; cbn in H;
    repeat (destruct H as [H|H]; [inversion H; subst; reflexivity|]);
    destruct H.
Qed.

Lemma symbolic_names_parse_witness :
  parseRangeSpec "7" weekdayField weekdaySubstitutions = Ok (mkRange 0 0 1).
Proof.
  apply (proj2 (symbolic_names_parse "7" 0)). reflexivity.
Defined.

Lemma parseLines_app unused l1 l2 :
  parseLines unused (l1 ++ l2)
  = thenParsed (parseLines unused l1) (parseLines unused l2).
Proof.
  induction l1 as [|line l1 IH]; cbn [app parseLines].
  - destruct (parseLines unused l2) as [[?|?]| |]; reflexivity.
  - destruct (TrimLeftSpace line) as [|c rest]; [exact IH|].
    destruct (Ascii.eqb c "#"); [exact IH|].
    destruct (ParseEntry unused (String c rest)) as [[entry|err]| |];
      cbn [bind]; try reflexivity.
    rewrite IH.
    destruct (parseLines unused l1) as [[ea|?]| |]; cbn; try reflexivity.
    destruct (parseLines unused l2) as [[eb|?]| |]; reflexivity.
Qed.

Lemma Split_app a b sep :
  Split (a ++ String sep b) sep = Split a sep ++ Split b sep.
Proof.
  induction a as [|c a IH]; cbn.
  - rewrite Ascii.eqb_refl. reflexivity.
  - destruct (Ascii.eqb c sep); [rewrite IH; reflexivity|].
    rewrite IH. pose proof (Split_nonempty a sep).
    destruct (Split a sep); [contradiction|reflexivity].
Qed.

(** X20.  Documents compose: a crontab made of two documents joined by a line
    feed parses to the first failure (error or panic) met in reading order,
    the second document not being looked at when the first fails, and else
    to the entries of the first followed by those of the second. *)
Theorem ParseCrontab_app unused s1 s2 :
  ParseCrontab unused (s1 ++ String "010" s2)
  = thenParsed (ParseCrontab unused s1) (ParseCrontab unused s2).
Proof. unfold ParseCrontab. rewrite Split_app. apply parseLines_app. Qed.

(** X21.  Lines that are empty or whose first byte after the leading white space
    is [#] are skipped: a document of such lines parses to no entry, and
    adding it before or after another document changes nothing. *)
Theorem comments_are_skipped unused lines :
  Forall (fun line => TrimLeftSpace line = EmptyString \/
                      exists rest, TrimLeftSpace line = String "#" rest)
         lines ->
  parseLines unused lines = Ret (Ok []) /\
  forall others,
    parseLines unused (lines ++ others) = parseLines unused others /\
    parseLines unused (others ++ lines) = parseLines unused others.
Proof.
  intros H.
  assert (E : parseLines unused lines = Ret (Ok [])).
  { induction H as [|line lines [Hl|[rest Hl]] _ IH]; cbn [parseLines];
      [reflexivity|rewrite Hl; exact IH|rewrite Hl; exact IH]. }
  split; [exact E|]. intros others. rewrite !parseLines_app, E.
  destruct (parseLines unused others) as [[es|?]| |]; cbn;
    rewrite ?app_nil_r; auto.
Qed.

Lemma comments_are_skipped_witness :
  parseLines roomy ["# a comment"; ""; "   "; "     # another"]%string
  = Ret (Ok []).
Proof.
  apply (comments_are_skipped roomy
           ["# a comment"; ""; "   "; "     # another"]%string).
  apply Forall_cons; [right; eexists; reflexivity|].
  apply Forall_cons; [left; reflexivity|].
  apply Forall_cons; [left; reflexivity|].
  apply Forall_cons; [right; eexists; reflexivity|].
  apply Forall_nil.
Defined.

Lemma predefinedLabels_ok label ms :
  lookup predefinedLabels label = Some ms ->
  exists s, ms = Ret s /\ Schedule_ok s.
Proof.
  intros H. apply lookup_In in H. cbn [predefinedLabels In] in H.
  repeat (destruct H as [H|H];
          [inversion H; subst; eexists; split; [vm_compute; reflexivity|];
           split; [repeat constructor; cbn; lia ..|];
           exists 1; split; [lia|reflexivity]|]).
  destruct H.
Qed.

(** X22.  A line that starts with [@] never panics and never depends on how
    [FieldsN] allocates: it is rejected for its unknown label, or it gives
    an entry whose schedule [Next] can evaluate. *)
Theorem label_line unused rest :
  (exists label,
     ParseEntry unused (String "@" rest) = Ret (Err (ErrUnknownLabel label)) /\
     lookup predefinedLabels label = None) \/
  (exists e, ParseEntry unused (String "@" rest) = Ret (Ok e) /\
             Schedule_ok (entrySchedule e)).
Proof.
  unfold ParseEntry. cbn [Ascii.eqb Bool.eqb]. cbn [FieldsN TrimLeftSpace].
  change (IsSpace "@") with false. cbn iota.
  destruct (spanField (String "@" rest)) as [label after].
  destruct (lookup predefinedLabels label) as [ms|] eqn:L.
  - right. destruct (predefinedLabels_ok _ _ L) as (s & -> & Hok).
    cbn [bind]. eexists. split; [reflexivity|exact Hok].
  - left. exists label. auto.
Qed.

(** * Further properties of the supervisor *)

Lemma run_assign_from i updates :
  snd (run onUpdate_assign (mkSupervisor (Some i) (S i)) updates)
  = generationsFrom (S i) updates.
Proof.
  revert i. induction updates as [|[entries now] rest IH]; intros i;
    [reflexivity|].
  cbn [run generationsFrom]. unfold onUpdate_assign at 1.
  cbn [fresh stopTime].
  specialize (IH (S i)).
  destruct (run onUpdate_assign _ rest) as [sup acts].
  cbn [snd] in *. subst acts. reflexivity.
Qed.

(** X23.  In the copy of crony.go that assigns the new channel to [stopTime], the
    supervisor does, update after update: send the acceptance time of the
    update to the channel of the generation before (none for the first),
    then spawn one task per entry, each with that same time and the channel
    made for this update. *)
Theorem executeCrontab_assign_trace updates :
  executeCrontab_assign updates = generationsFrom 0%nat updates.
Proof.
  unfold executeCrontab_assign.
  destruct updates as [|[entries now] rest]; [reflexivity|].
  cbn [run generationsFrom]. unfold onUpdate_assign at 1, initial.
  cbn [fresh stopTime]. pose proof (run_assign_from 0%nat rest) as H.
  destruct (run onUpdate_assign _ rest) as [sup acts].
  cbn [snd] in *. subst acts. reflexivity.
Qed.

Lemma last_cons {A} (l : list A) x d : last (x :: l) d = last l x.
Proof.
  revert x d. induction l as [|y l IH]; intros x d; [reflexivity|].
  change (last (x :: y :: l) d) with (last (y :: l) d).
  rewrite !IH. reflexivity.
Qed.

Lemma runs_app a b : runs (a ++ b) = (runs a + runs b)%nat.
Proof. unfold runs. rewrite filter_app, length_app. reflexivity. Qed.

Lemma Next_returns_fixed s t :
  Schedule_ok s -> fixed (loc t) ->
  exists r, NextIs s t r /\ fixed (loc r).
Proof.
  intros Hok Fx.
  destruct (Next_cases s Hok t Fx) as (r & N & [(C & _)|[-> _]]).
  - exists r. split; [exact N|apply (cand_fixed _ _ _ Fx C)].
  - exists zeroTime. split; [exact N|reflexivity].
Qed.

(** X24.  A task whose schedule has no zero step and admits a month, and
    whose clock readings are in locations without transitions: when it takes
    the timer case for each of [clocks] and then receives the cutoff [tcut],
    it has run its command once per timer case, and once more exactly when
    [tcut] is not before the fire time pending at that moment; it has put
    the cutoff back once, and what its [select] could take later is never
    looked at. *)
Theorem executeEntry_runs e now ch clocks tcut later :
  Schedule_ok (entrySchedule e) ->
  fixed (Location_ now) ->
  Forall (fun c => fixed (Location_ (snd c))) clocks ->
  exists next n acts,
    NextIs (entrySchedule e) (nowAfter now clocks) next /\
    (forall fuel, (n <= fuel)%nat ->
       executeEntry fuel e now ch
         (timerCases clocks ++ StopReceived tcut :: later) = Ret acts) /\
    runs acts = (List.length clocks
                 + if Before tcut next then 0 else 1)%nat /\
    In (SendStop ch tcut) acts.
Proof.
  intros Hok Fx Fc. revert now Fx.
  induction clocks as [|[woke finished] clocks IH]; intros now Fx.
  - destruct (Next_returns_fixed _ now Hok Fx) as (next & [n N] & _).
    exists next, n.
    exists (SendStop ch tcut ::
            if negb (Before tcut next) then [Execute (Command e)] else []).
    split; [exists n; exact N|]. split; [|split].
    + intros fuel Hf. cbn [timerCases map app executeEntry].
      rewrite (N fuel Hf). reflexivity.
    + destruct (Before tcut next); reflexivity.
    + left. reflexivity.
  - inversion Fc as [|c cs Ff Fcs]; subst. cbn [snd] in Ff.
    destruct (IH Fcs finished Ff) as (next & n & acts & N & R & C & I).
    destruct (Next_returns_fixed _ now Hok Fx) as (next1 & [n1 N1] & F1).
    destruct (Next_returns_fixed _ next1 Hok F1) as (next2 & [n2 N2] & _).
    exists next, (Nat.max n (Nat.max n1 n2)).
    exists (Execute (Command e)
            :: (if negb (Before finished next2)
                then [LogOverrun (Command e)] else []) ++ acts).
    split; [|split; [|split]].
    + replace (nowAfter now ((woke, finished) :: clocks))
        with (nowAfter finished clocks); [exact N|].
      unfold nowAfter. cbn [map snd]. symmetry. apply last_cons.
    + intros fuel Hf. cbn [timerCases map app executeEntry fst snd].
      rewrite (N1 fuel) by lia. cbn [bind]. rewrite (N2 fuel) by lia.
      cbn [bind]. fold (timerCases clocks). rewrite (R fuel) by lia.
      reflexivity.
    + change (Execute (Command e) :: ?x) with ([Execute (Command e)] ++ x).
      rewrite !runs_app, C. cbn [List.length].
      destruct (negb (Before finished next2)); cbn; lia.
    + right. apply in_or_app. right. exact I.
Qed.

Lemma executeEntry_runs_witness :
  exists next n acts,
    NextIs (entrySchedule (mkEntry everyFiveMinutes "cmd"))
           (nowAfter (Date 2000 1 1 0 0 0 0 UTC)
                     [(Date 2000 1 1 0 5 0 0 UTC, Date 2000 1 1 0 5 1 0 UTC)])
           next /\
    (forall fuel, (n <= fuel)%nat ->
       executeEntry fuel (mkEntry everyFiveMinutes "cmd")
         (Date 2000 1 1 0 0 0 0 UTC) 0%nat
         (timerCases [(Date 2000 1 1 0 5 0 0 UTC, Date 2000 1 1 0 5 1 0 UTC)]
          ++ StopReceived (Date 2000 1 1 0 7 0 0 UTC) :: []) = Ret acts) /\
    runs acts = (List.length [(Date 2000 1 1 0 5 0 0 UTC,
                               Date 2000 1 1 0 5 1 0 UTC)]
                 + if Before (Date 2000 1 1 0 7 0 0 UTC) next
                   then 0 else 1)%nat /\
    In (SendStop 0%nat (Date 2000 1 1 0 7 0 0 UTC)) acts.
Proof.
  apply (executeEntry_runs (mkEntry everyFiveMinutes "cmd")).
  - exact everyFiveMinutes_ok.
  - reflexivity.
  - repeat constructor.
Defined.

(** * The work directories *)

(** X25.  [Push] retries once and no more: it runs [git push], and only when that
    fails, [git pull --rebase] followed by a second [git push], or by
    [git rebase --abort] when the pull fails too.  It returns nil exactly
    when the last command it ran is a [git push] that succeeded; the error of
    the first push is never returned. *)
Theorem Push_retries_once answer w h :
  let push := (Git.branch w, ["push"]%string) in
  let pullRebase := (Git.branch w, ["pull"; "--rebase"]%string) in
  let abort := (Git.branch w, ["rebase"; "--abort"]%string) in
  (answer h push = None /\
   Git.Push answer w h = (None, h ++ [push])) \/
  (answer h push <> None /\
   answer (h ++ [push]) pullRebase = None /\
   Git.Push answer w h
   = (answer (h ++ [push; pullRebase]) push,
      h ++ [push; pullRebase; push])) \/
  (answer h push <> None /\
   exists e, answer (h ++ [push]) pullRebase = Some e /\
             Git.Push answer w h
             = (Some e, h ++ [push; pullRebase; abort])).
Proof.
  cbv zeta. unfold Git.Push, Git.pull, Git.git, Git.run.
  destruct (answer h _) as [e1|] eqn:E1.
  - destruct (answer (h ++ _) _) as [e2|] eqn:E2.
    + right. right. split; [discriminate|]. exists e2.
      split; [reflexivity|]. rewrite <- !app_assoc. reflexivity.
    + right. left. split; [discriminate|]. split; [reflexivity|].
      rewrite <- !app_assoc. reflexivity.
  - left. auto.
Qed.
